(** * Verification of the GPT-4o assistant chat client (main-gpt-4o-v7.py)

    A shallow embedding of the Python source: the pure history
    reconstruction ([reconstruct_history]) and the remote operations
    ([create_thread], [upload_file], [send_message], [list_messages],
    [create_run], [wait_for_run_completion]) together with the submission
    cycle of [main]. *)

From Stdlib Require Import List ZArith String Ascii Strings.Byte Bool Lia.
From Stdlib Require Import Sorting.Sorted Sorting.Permutation.
Import ListNotations.

Local Open Scope string_scope.
Local Open Scope list_scope.

(** ** Exceptions and results *)

(** The exceptions the program can raise: a missing dictionary key, a
    subscript on a value that is no dictionary, the [requests.HTTPError] of
    [raise_for_status], a body that is not JSON, and the errors of
    [st.image]: [PIL.UnidentifiedImageError] for an upload in which no image
    is found, or another [OSError] of the imaging library. *)
Inductive Exn : Type :=
| KeyError (key : string)
| TypeError
| HTTPError (status : Z)
| JSONDecodeError
| UnidentifiedImageError
| OSError (message : string).

Inductive Result (A : Type) : Type :=
| Ok (a : A)
| Err (e : Exn).
Arguments Ok {A} a.
Arguments Err {A} e.

(** ** Data model *)

(** A content block of a remote message, as the dictionary the API returns:
    ["type"] is always there, ["text"] and ["image_file"] only on the blocks
    of that type. A ["text"] entry, when it is there, is taken to be the
    object the API documents, with its string ["value"]. *)
Record TextObject : Type := { value : string }.
Record ImageFileObject : Type := { file_id : string }.

Record ContentBlock : Type := {
  block_type : string;
  text : option TextObject;
  image_file : option ImageFileObject
}.

Record RemoteMessage : Type := {
  msg_id : string;
  role : string;
  created_at : Z;
  content : list ContentBlock
}.

(** An entry of the local history: [{"role": ..., "content": ...}]. *)
Record Turn : Type := { turn_role : string; turn_content : string }.

Definition Text (v : string) : ContentBlock :=
  {| block_type := "text"; text := Some {| value := v |}; image_file := None |}.

Definition ImageRef (f : string) : ContentBlock :=
  {| block_type := "image_file"; text := None;
     image_file := Some {| file_id := f |} |}.

(** ** [sorted(messages, key=...)]

    Python's [sorted] returns a new list and is stable; it is modelled by
    the stable insertion sort on the key. *)
Section Sorted.
Context {A : Type} (key : A -> Z).

Fixpoint insert (x : A) (l : list A) : list A :=
  match l with
  | [] => [x]
  | y :: l' => if (key x <=? key y)%Z then x :: l else y :: insert x l'
  end.

Fixpoint sorted (l : list A) : list A :=
  match l with
  | [] => []
  | x :: l' => insert x (sorted l')
  end.
End Sorted.

(** ** [reconstruct_history] *)

Definition placeholder : string := "[Imagem enviada]".

(** [c["text"]["value"]] on such a block: a [KeyError] when the block has
    no ["text"]. *)
Definition text_value (c : ContentBlock) : Result string :=
  match text c with
  | Some t => Ok (value t)
  | None => Err (KeyError "text")
  end.

(** The inner loop of the [user] branch (lines 123-127). *)
Fixpoint user_content (cs : list ContentBlock) (history : list Turn)
  : Result (list Turn) :=
  match cs with
  | [] => Ok history
  | c :: cs' =>
      if block_type c =? "text" then
        match text_value c with
        | Ok v =>
            user_content cs'
              (history ++ [{| turn_role := "user"; turn_content := v |}])
        | Err e => Err e
        end
      else if block_type c =? "image_file" then
        user_content cs'
          (history ++ [{| turn_role := "user"; turn_content := placeholder |}])
      else user_content cs' history
  end.

(** The inner loop of the [assistant] branch (lines 129-131). *)
Fixpoint assistant_content (cs : list ContentBlock) (history : list Turn)
  : Result (list Turn) :=
  match cs with
  | [] => Ok history
  | c :: cs' =>
      if block_type c =? "text" then
        match text_value c with
        | Ok v =>
            assistant_content cs'
              (history ++ [{| turn_role := "assistant"; turn_content := v |}])
        | Err e => Err e
        end
      else assistant_content cs' history
  end.

(** The outer loop over the sorted messages (lines 121-131). *)
Fixpoint history_loop (ms : list RemoteMessage) (history : list Turn)
  : Result (list Turn) :=
  match ms with
  | [] => Ok history
  | m :: ms' =>
      if role m =? "user" then
        match user_content (content m) history with
        | Ok h => history_loop ms' h
        | Err e => Err e
        end
      else if role m =? "assistant" then
        match assistant_content (content m) history with
        | Ok h => history_loop ms' h
        | Err e => Err e
        end
      else history_loop ms' history
  end.

Definition reconstruct_history (messages : list RemoteMessage)
  : Result (list Turn) :=
  history_loop (sorted created_at messages) [].

(** ** Specification vocabulary for the history *)

(** A block is well formed when a block of type ["text"] carries its
    ["text"] object. *)
Definition well_formed_block (c : ContentBlock) : bool :=
  if block_type c =? "text" then
    match text c with Some _ => true | None => false end
  else true.

Definition well_formed (m : RemoteMessage) : bool :=
  forallb well_formed_block (content m).

Definition block_text (c : ContentBlock) : string :=
  match text c with Some t => value t | None => "" end.

(** What one block of a user message contributes. *)
Definition user_turns (c : ContentBlock) : list Turn :=
  if block_type c =? "text" then
    [{| turn_role := "user"; turn_content := block_text c |}]
  else if block_type c =? "image_file" then
    [{| turn_role := "user"; turn_content := placeholder |}]
  else [].

(** What one block of an assistant message contributes. *)
Definition assistant_turns (c : ContentBlock) : list Turn :=
  if block_type c =? "text" then
    [{| turn_role := "assistant"; turn_content := block_text c |}]
  else [].

Definition message_turns (m : RemoteMessage) : list Turn :=
  if role m =? "user" then flat_map user_turns (content m)
  else if role m =? "assistant" then flat_map assistant_turns (content m)
  else [].

(** The input list with the position of every message. *)
Definition enumerate {A : Type} (l : list A) : list (nat * A) :=
  combine (seq 0 (List.length l)) l.

(** The history with, for every turn, the input position of the message it
    comes from. *)
Definition history_trace (messages : list RemoteMessage) : list (nat * Turn) :=
  flat_map (fun im => map (pair (fst im)) (message_turns (snd im)))
    (sorted (fun im => created_at (snd im)) (enumerate messages)).

(** The turns of the history that come from the message at position [i]. *)
Definition emitted_from (messages : list RemoteMessage) (i : nat) : list Turn :=
  map snd (filter (fun it => Nat.eqb (fst it) i) (history_trace messages)).

(** ** The remote API: requests, responses and the event log *)

Inductive Method : Type := GET | POST.

(** A content block of an outgoing message: [{"type": "text", "text": t}] or
    [{"type": "image_file", "image_file": {"file_id": f}}]. *)
Inductive OutBlock : Type :=
| OutText (t : string)
| OutImageFile (f : string).

(** The dictionary [data] of [send_message]. *)
Record MessageData : Type := {
  data_role : string;
  data_content : list OutBlock
}.

Inductive Body : Type :=
| NoBody
| JsonEmpty
| JsonMessage (data : MessageData)
| JsonRun (assistant_id : string)
| Multipart (filename : string) (file : list byte) (purpose : string).

Record Request : Type := {
  method : Method;
  url : string;
  headers : list (string * string);
  body : Body
}.

(** The JSON object of a response, through the keys the program reads; the
    value of a key, when it is there, is taken to be of the type the API
    documents. *)
Record JsonObject : Type := {
  json_id : option string;
  json_status : option string;
  json_data : option (list RemoteMessage)
}.

(** A JSON value: an object, or any other value ([null], a number, a
    string, a list), on which a subscript by a key is a [TypeError]. *)
Inductive Json : Type :=
| JObject (object : JsonObject)
| JOther.

(** [resp.status_code], [resp.text] and [resp.json()] ([None] when the body
    is not JSON). *)
Record Response : Type := {
  status_code : Z;
  resp_text : string;
  resp_json : option Json
}.

Inductive Event : Type :=
| Http (req : Request) (resp : Response)
| Printed (line : string)
| Sleep (seconds : Z).

(** The session state of Streamlit and everything the process has done. *)
Record World : Type := {
  thread_id : option string;
  messages : list Turn;
  log : list Event
}.

Definition emit (e : Event) (w : World) : World :=
  {| thread_id := thread_id w; messages := messages w; log := log w ++ [e] |}.

Definition set_thread_id (t : option string) (w : World) : World :=
  {| thread_id := t; messages := messages w; log := log w |}.

Definition set_messages (h : list Turn) (w : World) : World :=
  {| thread_id := thread_id w; messages := h; log := log w |}.

(** ** The monad of the program: state, exceptions, and a loop that may
    still be polling when the fuel is spent *)

Inductive Outcome (A : Type) : Type :=
| Ret (a : A)
| Raise (e : Exn)
| Spinning.
Arguments Ret {A} a.
Arguments Raise {A} e.
Arguments Spinning {A}.

Definition M (A : Type) : Type := World -> Outcome A * World.

Definition ret {A : Type} (a : A) : M A := fun w => (Ret a, w).

Definition raise {A : Type} (e : Exn) : M A := fun w => (Raise e, w).

Definition bind {A B : Type} (c : M A) (k : A -> M B) : M B :=
  fun w =>
    match c w with
    | (Ret a, w') => k a w'
    | (Raise e, w') => (Raise e, w')
    | (Spinning, w') => (Spinning, w')
    end.

Declare Scope prog_scope.
Delimit Scope prog_scope with prog.
Notation "x <- c ;; k" := (bind c (fun x => k))
  (at level 61, c at next level, right associativity) : prog_scope.
Notation "c ;; k" := (bind c (fun _ => k))
  (at level 61, right associativity) : prog_scope.
Local Open Scope prog_scope.

Definition lift {A : Type} (r : Result A) : M A :=
  match r with
  | Ok a => ret a
  | Err e => raise e
  end.

Definition newline : string := String (ascii_of_nat 10) EmptyString.

Definition OPENAI_API_BASE : string := "https://api.openai.com/v1".

Definition HEADERS (api_key : string) : list (string * string) :=
  [("Authorization", ("Bearer " ++ api_key)%string);
   ("Content-Type", "application/json");
   ("OpenAI-Beta", "assistants=v2")].

Definition ASSISTANT_ID : string := "asst_hXtJTncZyNmwB1AwgB2eZylS".

Definition instrucao_idioma : string := "Responda em português do Brasil.".

(** [status in ["completed", "failed", "cancelled", "expired"]]. *)
Definition is_terminal (status : string) : bool :=
  existsb (String.eqb status) ["completed"; "failed"; "cancelled"; "expired"].

(** What [raise_for_status] of the [requests] library treats as an error. *)
Definition http_error (status : Z) : bool :=
  ((400 <=? status) && (status <? 600))%Z.

(** A success (2xx) status. *)
Definition success (status : Z) : bool :=
  ((200 <=? status) && (status <? 300))%Z.

(** An uploaded file of the form: [image_file.name], [image_file.read()],
    and what the imaging library makes of its content, which is what
    [st.image] depends on: the error it raises, if any. The decoder is no
    part of the program. *)
Record UploadedFile : Type := {
  name : string;
  read : list byte;
  image_error : option Exn
}.

(** The error of [st.image] on the file: no image is identified in a file
    without content; otherwise the imaging library decides. *)
Definition st_image_error (image : UploadedFile) : option Exn :=
  match read image with
  | [] => Some UnidentifiedImageError
  | _ :: _ => image_error image
  end.

(** Whether [st.image] can show the file. *)
Definition displayable (image : UploadedFile) : bool :=
  match st_image_error image with
  | None => true
  | Some _ => false
  end.

(** [st.image(image)]. What is shown is part of the page, see [main]. *)
Definition st_image (image : UploadedFile) : M unit :=
  match st_image_error image with
  | None => ret tt
  | Some e => raise e
  end.

(** ** The program

    The remote service is a parameter: it answers every request, and its
    answer may depend on everything that happened before. The transport is
    assumed to deliver an answer to every request. *)
Section Program.
Variable server : list Event -> Request -> Response.

(** [requests.post] and [requests.get]. *)
Definition request (req : Request) : M Response :=
  fun w => let resp := server (log w) req in (Ret resp, emit (Http req resp) w).

Definition requests_post (u : string) (h : list (string * string)) (b : Body)
  : M Response :=
  request {| method := POST; url := u; headers := h; body := b |}.

Definition requests_get (u : string) (h : list (string * string))
  : M Response :=
  request {| method := GET; url := u; headers := h; body := NoBody |}.

Definition print (line : string) : M unit :=
  fun w => (Ret tt, emit (Printed line) w).

Definition sleep (seconds : Z) : M unit :=
  fun w => (Ret tt, emit (Sleep seconds) w).

(** [resp.raise_for_status()]. *)
Definition raise_for_status (resp : Response) : M unit :=
  if http_error (status_code resp) then raise (HTTPError (status_code resp))
  else ret tt.

(** [resp.json()]. *)
Definition json (resp : Response) : M Json :=
  match resp_json resp with
  | Some j => ret j
  | None => raise JSONDecodeError
  end.

(** [obj[key]]: the value of the key in an object, a [KeyError] when the
    object lacks it, a [TypeError] when [obj] is no object. *)
Definition item {A : Type} (key : string) (field : JsonObject -> option A)
    (obj : Json) : M A :=
  match obj with
  | JObject j =>
      match field j with
      | Some v => ret v
      | None => raise (KeyError key)
      end
  | JOther => raise TypeError
  end.

Definition create_thread (api_key : string) : M string :=
  resp <- requests_post (OPENAI_API_BASE ++ "/threads")%string
            (HEADERS api_key) JsonEmpty ;;
  (if (status_code resp =? 200)%Z then ret tt
   else print ("Resposta da API: " ++ resp_text resp)%string) ;;
  raise_for_status resp ;;
  j <- json resp ;;
  item "id" json_id j.

Definition upload_file (api_key : string) (image_bytes : list byte)
    (image_filename : string) : M string :=
  resp <- requests_post (OPENAI_API_BASE ++ "/files")%string
            [("Authorization", ("Bearer " ++ api_key)%string);
             ("OpenAI-Beta", "assistants=v2")]
            (Multipart image_filename image_bytes "assistants") ;;
  (if (status_code resp =? 200)%Z then ret tt
   else print ("Resposta da API (upload_file): " ++ resp_text resp)%string) ;;
  raise_for_status resp ;;
  j <- json resp ;;
  item "id" json_id j.

(** The truth value of [image_bytes and image_filename]: both are given and
    neither is empty. *)
Definition image_supplied (image_bytes : option (list byte))
    (image_filename : option string) : option (list byte * string) :=
  match image_bytes, image_filename with
  | Some (b :: bs), Some (String c s) => Some (b :: bs, String c s)
  | _, _ => None
  end.

Definition send_message (thread_id content api_key : string)
    (image_bytes : option (list byte)) (image_filename : option string)
  : M Json :=
  let content_completo := (content ++ newline ++ instrucao_idioma)%string in
  let data :=
    {| data_role := "user"; data_content := [OutText content_completo] |} in
  data <- match image_supplied image_bytes image_filename with
          | Some (image_bytes, image_filename) =>
              file_id <- upload_file api_key image_bytes image_filename ;;
              ret {| data_role := data_role data;
                     data_content :=
                       data_content data ++ [OutImageFile file_id] |}
          | None => ret data
          end ;;
  resp <- requests_post
            (OPENAI_API_BASE ++ "/threads/" ++ thread_id ++ "/messages")%string
            (HEADERS api_key) (JsonMessage data) ;;
  raise_for_status resp ;;
  json resp.

Definition list_messages (thread_id api_key : string)
  : M (list RemoteMessage) :=
  resp <- requests_get
            (OPENAI_API_BASE ++ "/threads/" ++ thread_id ++ "/messages")%string
            (HEADERS api_key) ;;
  raise_for_status resp ;;
  j <- json resp ;;
  item "data" json_data j.

Definition create_run (thread_id api_key assistant_id : string) : M string :=
  resp <- requests_post
            (OPENAI_API_BASE ++ "/threads/" ++ thread_id ++ "/runs")%string
            (HEADERS api_key) (JsonRun assistant_id) ;;
  raise_for_status resp ;;
  j <- json resp ;;
  item "id" json_id j.

(** The [while True] loop, unrolled at most [fuel] times; [Spinning] when
    the loop is still polling after that. *)
Fixpoint wait_for_run_completion (fuel : nat)
    (thread_id run_id api_key : string) : M string :=
  match fuel with
  | O => fun w => (Spinning, w)
  | S fuel' =>
      resp <- requests_get
                (OPENAI_API_BASE ++ "/threads/" ++ thread_id ++ "/runs/"
                   ++ run_id)%string
                (HEADERS api_key) ;;
      raise_for_status resp ;;
      run <- json resp ;;
      status <- item "status" json_status run ;;
      if is_terminal status then ret status
      else sleep 1 ;; wait_for_run_completion fuel' thread_id run_id api_key
  end.

(** The truth value of [st.session_state["thread_id"]]. *)
Definition truthy (t : option string) : bool :=
  match t with
  | Some (String _ _) => true
  | _ => false
  end.

(** Reading and writing [st.session_state]. *)
Definition get_thread_id : M (option string) :=
  fun w => (Ret (thread_id w), w).

Definition put_thread_id (t : string) : M unit :=
  fun w => (Ret tt, set_thread_id (Some t) w).

Definition append_message (turn : Turn) : M unit :=
  fun w => (Ret tt, set_messages (messages w ++ [turn]) w).

Definition put_messages (h : list Turn) : M unit :=
  fun w => (Ret tt, set_messages h w).

(** [st.session_state["thread_id"]] where a string is expected: in an
    f-string [None] reads "None". *)
Definition session_thread_id : M string :=
  current <- get_thread_id ;;
  ret (match current with Some t => t | None => "None" end).

(** The body of [if submitted and prompt:] in [main] (lines 172-197), for a
    submitted form: the prompt is appended to the history and shown, with
    the uploaded image if there is one, and then the cycle runs. *)
Definition submit (fuel : nat) (api_key prompt : string)
    (image_file : option UploadedFile) : M unit :=
  match prompt with
  | EmptyString => ret tt
  | String _ _ =>
      append_message {| turn_role := "user"; turn_content := prompt |} ;;
      match image_file with
      | Some image => st_image image
      | None => ret tt
      end ;;
      current <- get_thread_id ;;
      (if negb (truthy current) then
         t <- create_thread api_key ;;
         put_thread_id t
       else ret tt) ;;
      let image_bytes := option_map read image_file in
      let image_filename := option_map name image_file in
      t <- session_thread_id ;;
      send_message t prompt api_key image_bytes image_filename ;;
      t <- session_thread_id ;;
      run_id <- create_run t api_key ASSISTANT_ID ;;
      t <- session_thread_id ;;
      wait_for_run_completion fuel t run_id api_key ;;
      t <- session_thread_id ;;
      messages <- list_messages t api_key ;;
      h <- lift (reconstruct_history messages) ;;
      put_messages h
  end.
End Program.

(** ** Specification vocabulary for the order of the history *)

Definition key_le {A : Type} (key : A -> Z) (a b : A) : Prop :=
  (key a <= key b)%Z.

(** Order by key first and by input position among equal keys. *)
Definition lex_lt {A : Type} (key : A -> Z) (idx : A -> nat) (a b : A) : Prop :=
  (key a < key b)%Z \/ (key a = key b /\ idx a < idx b).

Definition lex_le {A : Type} (key : A -> Z) (idx : A -> nat) (a b : A) : Prop :=
  (key a < key b)%Z \/ (key a = key b /\ idx a <= idx b).

Definition tag_turns (im : nat * RemoteMessage) : list (nat * Turn) :=
  map (pair (fst im)) (message_turns (snd im)).

Definition sorted_enumeration (messages : list RemoteMessage)
  : list (nat * RemoteMessage) :=
  sorted (fun im => created_at (snd im)) (enumerate messages).

(** The history with the whole message attached to every turn. *)
Definition full_trace (messages : list RemoteMessage)
  : list ((nat * RemoteMessage) * Turn) :=
  flat_map (fun im => map (pair im) (message_turns (snd im)))
    (sorted_enumeration messages).

Definition stamp (im : nat * RemoteMessage) : Z := created_at (snd im).

(** The turn of a user block whose type is ["text"] or ["image_file"]. *)
Definition user_turn (c : ContentBlock) : Turn :=
  {| turn_role := "user";
     turn_content := if block_type c =? "text" then block_text c
                     else placeholder |}.

Definition assistant_turn (c : ContentBlock) : Turn :=
  {| turn_role := "assistant"; turn_content := block_text c |}.

Definition is_text_block (c : ContentBlock) : bool := block_type c =? "text".

(** ** Sample data *)

Definition sample_messages : list RemoteMessage :=
  [ {| msg_id := "msg_3"; role := "assistant"; created_at := 30;
       content := [ImageRef "f2"; Text "ok"] |};
    {| msg_id := "msg_1"; role := "user"; created_at := 10;
       content := [Text "hi"; ImageRef "f1"] |};
    {| msg_id := "msg_2"; role := "user"; created_at := 10;
       content := [Text "again"] |} ].

(** ** Specification vocabulary for the remote operations *)

(** The world after the events [evs]. *)
Definition extend (evs : list Event) (w : World) : World :=
  {| thread_id := thread_id w; messages := messages w; log := log w ++ evs |}.

(** The events of [w'] that [w] has not seen yet. *)
Definition events_since (w w' : World) : list Event :=
  skipn (List.length (log w)) (log w').

(** The responses among the events, in order, and their status codes. *)
Fixpoint responses (evs : list Event) : list Response :=
  match evs with
  | [] => []
  | Http _ resp :: evs' => resp :: responses evs'
  | _ :: evs' => responses evs'
  end.

Definition statuses (evs : list Event) : list Z :=
  map status_code (responses evs).

Definition threads_url : string := (OPENAI_API_BASE ++ "/threads")%string.

Definition files_url : string := (OPENAI_API_BASE ++ "/files")%string.

Definition messages_url (thread_id : string) : string :=
  (OPENAI_API_BASE ++ "/threads/" ++ thread_id ++ "/messages")%string.

Definition runs_url (thread_id : string) : string :=
  (OPENAI_API_BASE ++ "/threads/" ++ thread_id ++ "/runs")%string.

Definition run_url (thread_id run_id : string) : string :=
  (OPENAI_API_BASE ++ "/threads/" ++ thread_id ++ "/runs/" ++ run_id)%string.

Definition create_thread_request (api_key : string) : Request :=
  {| method := POST; url := threads_url; headers := HEADERS api_key;
     body := JsonEmpty |}.

Definition upload_request (api_key : string) (image_bytes : list byte)
    (image_filename : string) : Request :=
  {| method := POST; url := files_url;
     headers := [("Authorization", ("Bearer " ++ api_key)%string);
                 ("OpenAI-Beta", "assistants=v2")];
     body := Multipart image_filename image_bytes "assistants" |}.

Definition create_message_request (thread_id api_key : string)
    (blocks : list OutBlock) : Request :=
  {| method := POST; url := messages_url thread_id; headers := HEADERS api_key;
     body := JsonMessage {| data_role := "user"; data_content := blocks |} |}.

Definition list_messages_request (thread_id api_key : string) : Request :=
  {| method := GET; url := messages_url thread_id; headers := HEADERS api_key;
     body := NoBody |}.

Definition create_run_request (thread_id api_key assistant_id : string)
  : Request :=
  {| method := POST; url := runs_url thread_id; headers := HEADERS api_key;
     body := JsonRun assistant_id |}.

Definition get_run_request (thread_id run_id api_key : string) : Request :=
  {| method := GET; url := run_url thread_id run_id; headers := HEADERS api_key;
     body := NoBody |}.

Definition is_post_to (u : string) (e : Event) : bool :=
  match e with
  | Http req _ =>
      match method req with
      | POST => url req =? u
      | GET => false
      end
  | _ => false
  end.

Definition is_create_thread_call : Event -> bool := is_post_to threads_url.

Definition is_upload_call : Event -> bool := is_post_to files_url.

Definition is_create_message_call (thread_id : string) : Event -> bool :=
  is_post_to (messages_url thread_id).

(** The outcome of [raise_for_status] followed by reading [key] of the JSON
    body. *)
Definition checked {A : Type} (resp : Response) (key : string)
    (field : JsonObject -> option A) : Outcome A :=
  if http_error (status_code resp) then Raise (HTTPError (status_code resp))
  else match resp_json resp with
       | None => Raise JSONDecodeError
       | Some (JObject j) =>
           match field j with
           | Some v => Ret v
           | None => Raise (KeyError key)
           end
       | Some JOther => Raise TypeError
       end.

(** The outcome of [raise_for_status] followed by [resp.json()]. *)
Definition checked_json (resp : Response) : Outcome Json :=
  if http_error (status_code resp) then Raise (HTTPError (status_code resp))
  else match resp_json resp with
       | None => Raise JSONDecodeError
       | Some j => Ret j
       end.

(** The line printed for a response whose status is not 200. *)
Definition diagnostics (label : string) (resp : Response) : list Event :=
  if (status_code resp =? 200)%Z then []
  else [Printed (label ++ resp_text resp)%string].

(** The text block [send_message] builds from the user's text. *)
Definition text_block (content : string) : OutBlock :=
  OutText (content ++ newline ++ instrucao_idioma)%string.

(** The create-message call at the end of [send_message]: its outcome and the
    world after it. *)
Definition post_message (server : list Event -> Request -> Response)
    (thread_id api_key : string) (blocks : list OutBlock) (w : World)
  : Outcome Json * World :=
  let req := create_message_request thread_id api_key blocks in
  let resp := server (log w) req in
  (checked_json resp, extend [Http req resp] w).

(** ** Sample servers and worlds *)

Definition reply (status : Z) (j : option JsonObject) : Response :=
  {| status_code := status; resp_text := "body";
     resp_json := option_map JObject j |}.

Definition sample_json (i : string) : JsonObject :=
  {| json_id := Some i; json_status := Some "completed";
     json_data := Some sample_messages |}.

(** A service that accepts every request. *)
Definition ok_server : list Event -> Request -> Response :=
  fun _ _ => reply 200 (Some (sample_json "id_1")).

(** A service that rejects every upload and accepts everything else. *)
Definition no_upload_server : list Event -> Request -> Response :=
  fun _ req =>
    if url req =? files_url then reply 413 None
    else reply 200 (Some (sample_json "id_1")).

Definition initial_world : World :=
  {| thread_id := None; messages := []; log := [] |}.

Definition sample_image : list byte := [x89; x50; x4e; x47].

(** ** Specification vocabulary for the polling loop *)

(** The run status a poll reads from a response, when the poll gets that far. *)
Definition polled_status (resp : Response) : option string :=
  if http_error (status_code resp) then None
  else match resp_json resp with
       | Some (JObject j) => json_status j
       | _ => None
       end.

(** A poll that read a status which is not terminal. *)
Definition still_running (resp : Response) : bool :=
  match polled_status resp with
  | Some status => negb (is_terminal status)
  | None => false
  end.

(** The events of polls that were each followed by the sleep. *)
Definition poll_events (req : Request) (rs : list Response) : list Event :=
  flat_map (fun resp => [Http req resp; Sleep 1]) rs.

(** The service answers the successive polls, each one second after the
    previous one, with the responses [rs]. *)
Fixpoint answers (server : list Event -> Request -> Response)
    (l : list Event) (req : Request) (rs : list Response) : Prop :=
  match rs with
  | [] => True
  | resp :: rs' =>
      server l req = resp /\
      answers server (l ++ [Http req resp; Sleep 1]) req rs'
  end.

Definition run_reply (status : string) : Response :=
  reply 200 (Some {| json_id := Some "run_1"; json_status := Some status;
                     json_data := None |}).

Definition is_sleep (e : Event) : bool :=
  match e with
  | Sleep _ => true
  | _ => false
  end.

(** A service whose run is in progress until the client has slept [n] times. *)
Definition slow_server (n : nat) : list Event -> Request -> Response :=
  fun l _ =>
    if Nat.ltb (List.length (filter is_sleep l)) n then run_reply "in_progress"
    else run_reply "completed".

(** A service whose run never finishes. *)
Definition busy_server : list Event -> Request -> Response :=
  fun _ _ => run_reply "in_progress".

(** ** Specification vocabulary for failures *)

Definition error_free (sts : list Z) : Prop :=
  Forall (fun s => http_error s = false) sts.

(** What an operation owes about HTTP errors: it raises [HTTPError] exactly
    when one of its responses has an error status, and that response is then
    the last one it received, so nothing is sent again. *)
Definition remote_contract {A : Type} (c : M A) : Prop :=
  forall w,
  exists evs,
    log (snd (c w)) = log w ++ evs /\
    ((exists s, fst (c w) = Raise (HTTPError s)) <->
     Exists (fun s => http_error s = true) (statuses evs)) /\
    (forall s, fst (c w) = Raise (HTTPError s) ->
       exists pre,
         statuses evs = pre ++ [s] /\ http_error s = true /\ error_free pre).

(** What an operation that sends [req] and reads one key of the answer owes
    on a success: it raises no [HTTPError], whatever the body, and it returns
    the value of the key whenever the body is a JSON object that has it. *)
Definition returns_on_success {A : Type}
    (server : list Event -> Request -> Response) (c : M A) (req : Request)
    (field : JsonObject -> option A) : Prop :=
  forall w,
    let resp := server (log w) req in
    success (status_code resp) = true ->
    (forall s, fst (c w) <> Raise (HTTPError s)) /\
    (forall j v, resp_json resp = Some (JObject j) -> field j = Some v ->
       fst (c w) = Ret v).

(** A poll that is answered with a success and a run object that has its
    status. *)
Definition good_poll (resp : Response) : bool :=
  success (status_code resp) &&
  match polled_status resp with
  | Some _ => true
  | None => false
  end.

(** The invariant behind [remote_contract]. *)
Definition error_last {A : Type} (evs : list Event) (o : Outcome A) : Prop :=
  match o with
  | Raise (HTTPError s) =>
      exists pre,
        statuses evs = pre ++ [s] /\ http_error s = true /\ error_free pre
  | _ => error_free (statuses evs)
  end.

Definition disciplined {A : Type} (c : M A) : Prop :=
  forall w, exists evs,
    snd (c w) = extend evs w /\ error_last evs (fst (c w)).

(** C9 as the specification words it, for [create_thread]. *)
Definition fails_exactly_on_non_2xx : Prop :=
  forall (server : list Event -> Request -> Response) (api_key : string)
         (w : World),
    let resp := server (log w) (create_thread_request api_key) in
    (exists s, fst (create_thread server api_key w) = Raise (HTTPError s)) <->
    success (status_code resp) = false.

(** A service that answers every request with 300 and a JSON body. *)
Definition multiple_choices_server : list Event -> Request -> Response :=
  fun _ _ => reply 300 (Some (sample_json "thread_1")).

(** ** Specification vocabulary for the conversation *)

(** A request made on behalf of the thread [t]: an upload, or a call on the
    messages or the runs of [t]. *)
Definition thread_request (t : string) (req : Request) : Prop :=
  url req = files_url \/ url req = messages_url t \/ url req = runs_url t \/
  exists run_id, url req = run_url t run_id.

Definition on_thread (t : string) (e : Event) : Prop :=
  match e with
  | Http req _ => thread_request t req
  | _ => True
  end.

(** A computation that, in a session whose thread id is [t], keeps that id
    and only makes requests on behalf of [t]. *)
Definition keeps {A : Type} (t : string) (c : M A) : Prop :=
  forall w, thread_id w = Some t ->
  exists evs,
    log (snd (c w)) = log w ++ evs /\
    thread_id (snd (c w)) = Some t /\
    Forall (on_thread t) evs.

(** The worlds of a conversation: one submission cycle per input, whatever
    the outcome of the cycle before. *)
Fixpoint conversation (server : list Event -> Request -> Response)
    (fuel : nat) (api_key : string)
    (inputs : list (string * option UploadedFile)) (w : World) : World :=
  match inputs with
  | [] => w
  | (prompt, image_file) :: inputs' =>
      conversation server fuel api_key inputs'
        (snd (submit server fuel api_key prompt image_file w))
  end.

(** The thread ids that the create-thread calls among the events returned,
    in order; a call that failed returned none. *)
Definition created_threads (evs : list Event) : list string :=
  flat_map
    (fun e =>
       match e with
       | Http _ resp =>
           if is_create_thread_call e then
             match checked resp "id" json_id with
             | Ret t => [t]
             | _ => []
             end
           else []
       | _ => []
       end) evs.

(** The service names its threads: the id of a thread it creates is never
    the empty string. *)
Definition names_threads (server : list Event -> Request -> Response)
    (api_key : string) : Prop :=
  forall l t,
    checked (server l (create_thread_request api_key)) "id" json_id = Ret t ->
    t <> "".

(** A service that fails on the first request it gets and accepts every
    later one. *)
Definition flaky_server : list Event -> Request -> Response :=
  fun l _ =>
    match l with
    | [] => reply 500 None
    | _ :: _ => reply 200 (Some (sample_json "thread_1"))
    end.

(** What [submit] does once the thread id is settled (lines 183-197). *)
Definition submit_tail (server : list Event -> Request -> Response)
    (fuel : nat) (api_key prompt : string) (image_file : option UploadedFile)
  : M unit :=
  (t <- session_thread_id ;;
   send_message server t prompt api_key
     (option_map read image_file) (option_map name image_file) ;;
   t <- session_thread_id ;;
   run_id <- create_run server t api_key ASSISTANT_ID ;;
   t <- session_thread_id ;;
   wait_for_run_completion server fuel t run_id api_key ;;
   t <- session_thread_id ;;
   messages <- list_messages server t api_key ;;
   h <- lift (reconstruct_history messages) ;;
   put_messages h)%prog.

(** The error of the display of the prompt (lines 175-178), if any: only
    [st.image] can fail there, and only when there is an upload. *)
Definition display_error (image_file : option UploadedFile) : option Exn :=
  match image_file with
  | Some image => st_image_error image
  | None => None
  end.

(** Whether the display of the prompt gets past [st.image]: there is no
    upload, or the upload can be shown. *)
Definition shows (image_file : option UploadedFile) : bool :=
  match display_error image_file with
  | None => true
  | Some _ => false
  end.

(** The session after the user's message is appended (line 174). *)
Definition echo (prompt : string) (w : World) : World :=
  set_messages
    (messages w ++ [{| turn_role := "user"; turn_content := prompt |}]) w.

(** ** Further vocabulary for the history *)

(** A message the loops can read: the blocks of a user or assistant message
    are well formed; the blocks of a message of another role are never
    looked at. *)
Definition readable (m : RemoteMessage) : bool :=
  if role m =? "user" then forallb well_formed_block (content m)
  else if role m =? "assistant" then forallb well_formed_block (content m)
  else true.

(** A message of one of the two roles the history shows. *)
Definition speaks (m : RemoteMessage) : bool :=
  (role m =? "user") || (role m =? "assistant").

(** A thread as the service lists it, newest message first. *)
Definition sample_thread : list RemoteMessage :=
  [ {| msg_id := "msg_4"; role := "assistant"; created_at := 40;
       content := [Text "4"] |};
    {| msg_id := "msg_3"; role := "user"; created_at := 30;
       content := [Text "What is 2+2?"] |};
    {| msg_id := "msg_2"; role := "assistant"; created_at := 20;
       content := [Text "hello"] |};
    {| msg_id := "msg_1"; role := "user"; created_at := 10;
       content := [Text "hi"; ImageRef "f1"] |} ].

(** Whether a turn has one of the two roles of the history. *)
Definition known_role (t : Turn) : Prop :=
  turn_role t = "user" \/ turn_role t = "assistant".

(** ** Further vocabulary for the remote operations *)

(** A computation all of whose events satisfy [P]. *)
Definition always {A : Type} (P : Event -> Prop) (c : M A) : Prop :=
  forall w, exists evs,
    log (snd (c w)) = log w ++ evs /\ Forall P evs.

(** A request that goes to the API host and carries the key as a bearer
    token together with the assistants beta header. *)
Definition to_api (api_key : string) (e : Event) : Prop :=
  match e with
  | Http req _ =>
      prefix OPENAI_API_BASE (url req) = true /\
      (In ("Authorization", ("Bearer " ++ api_key)%string) (headers req) /\
       In ("OpenAI-Beta", "assistants=v2") (headers req))
  | _ => True
  end.

(** The lines printed among the events. *)
Fixpoint printed (evs : list Event) : list string :=
  match evs with
  | [] => []
  | Printed line :: evs' => line :: printed evs'
  | _ :: evs' => printed evs'
  end.

(** What a call that reads one key of the JSON body does with the response
    [server (log w) req]: the request is sent once, and the outcome is the
    HTTP error, the decoding error of a body that is not JSON, the type
    error of a JSON body that is no object, the missing key of an object,
    or the value of the key. *)
Definition reads_key {A : Type} (server : list Event -> Request -> Response)
    (c : M A) (req : Request) (key : string) (field : JsonObject -> option A)
  : Prop :=
  forall w,
    let resp := server (log w) req in
    responses (events_since w (snd (c w))) = [resp] /\
    (exists rest, events_since w (snd (c w)) = Http req resp :: rest) /\
    (http_error (status_code resp) = true ->
     fst (c w) = Raise (HTTPError (status_code resp))) /\
    (http_error (status_code resp) = false ->
     (resp_json resp = None -> fst (c w) = Raise JSONDecodeError) /\
     (resp_json resp = Some JOther -> fst (c w) = Raise TypeError) /\
     (forall j, resp_json resp = Some (JObject j) ->
        field j = None -> fst (c w) = Raise (KeyError key)) /\
     (forall j v, resp_json resp = Some (JObject j) ->
        field j = Some v -> fst (c w) = Ret v)).



(** ** Vocabulary for the course of a submission cycle *)

(** The remote answers of one completed cycle. *)
Record Cycle : Type := {
  cy_thread : string;
  cy_created : option Response;
  cy_upload : option (list byte * string * Response * string);
  cy_message : Response;
  cy_run : Response;
  cy_run_id : string;
  cy_polls : list Response;
  cy_last_poll : Response;
  cy_list : Response
}.

(** The events of the upload of a cycle, if it has one, and the content
    blocks of its message. *)
Definition upload_events (api_key : string)
    (upload : option (list byte * string * Response * string)) : list Event :=
  match upload with
  | None => []
  | Some (bs, fname, resp, _) =>
      Http (upload_request api_key bs fname) resp
        :: diagnostics "Resposta da API (upload_file): " resp
  end.

Definition message_blocks (prompt : string)
    (upload : option (list byte * string * Response * string))
  : list OutBlock :=
  match upload with
  | None => [text_block prompt]
  | Some (_, _, _, file_id) => [text_block prompt; OutImageFile file_id]
  end.

(** The events of a cycle after the thread id is settled, in order: the
    upload if any, the message, the run, the polls and the message list. *)
Definition tail_events (api_key prompt : string) (cy : Cycle) : list Event :=
  upload_events api_key (cy_upload cy) ++
  [Http (create_message_request (cy_thread cy) api_key
           (message_blocks prompt (cy_upload cy))) (cy_message cy);
   Http (create_run_request (cy_thread cy) api_key ASSISTANT_ID) (cy_run cy)] ++
  poll_events (get_run_request (cy_thread cy) (cy_run_id cy) api_key)
    (cy_polls cy) ++
  [Http (get_run_request (cy_thread cy) (cy_run_id cy) api_key)
     (cy_last_poll cy);
   Http (list_messages_request (cy_thread cy) api_key) (cy_list cy)].

(** All the events of a completed cycle: the creation of the thread if any,
    then the rest. *)
Definition cycle_events (api_key prompt : string) (cy : Cycle) : list Event :=
  match cy_created cy with
  | None => []
  | Some resp =>
      Http (create_thread_request api_key) resp
        :: diagnostics "Resposta da API: " resp
  end ++ tail_events api_key prompt cy.

(** The answers of a cycle fit together: ids are the ones the answers give,
    the polls before the last read non-terminal statuses and the last a
    terminal one, and [listed] is the message list of the last answer. *)
Definition coherent (cy : Cycle) (listed : list RemoteMessage) : Prop :=
  match cy_created cy with
  | None => True
  | Some resp => checked resp "id" json_id = Ret (cy_thread cy)
  end /\
  match cy_upload cy with
  | None => True
  | Some (_, _, resp, file_id) => checked resp "id" json_id = Ret file_id
  end /\
  (exists j, checked_json (cy_message cy) = Ret j) /\
  checked (cy_run cy) "id" json_id = Ret (cy_run_id cy) /\
  forallb still_running (cy_polls cy) = true /\
  (exists status, polled_status (cy_last_poll cy) = Some status /\
                  is_terminal status = true) /\
  checked (cy_list cy) "data" json_data = Ret listed.

(** A computation that leaves the local history alone. *)
Definition untouched {A : Type} (c : M A) : Prop :=
  forall w, messages (snd (c w)) = messages w.

(** A computation that leaves the local history alone unless it returns. *)
Definition settles {A : Type} (c : M A) : Prop :=
  forall w, (exists a, fst (c w) = Ret a) \/ messages (snd (c w)) = messages w.

(** A world with a thread and an earlier exchange. *)
Definition running_world : World :=
  {| thread_id := Some "thread_1";
     messages := [ {| turn_role := "user"; turn_content := "hi" |};
                   {| turn_role := "assistant"; turn_content := "hello" |} ];
     log := [] |}.

(** A service that accepts everything except the creation of a run. *)
Definition no_run_server : list Event -> Request -> Response :=
  fun _ req =>
    if url req =? runs_url "thread_1" then reply 429 None
    else reply 200 (Some (sample_json "id_1")).

(** ** The script [main] (lines 134-199)

    One execution of the script: the widgets give the key, the prompt, the
    uploaded file and whether the form was submitted; the session state may
    still lack its keys; the page is the list of the elements the script
    writes, without their layout arguments. When [st.image] fails on the
    upload, the script ends there: the chat message of the user holds the
    prompt alone and the chat message of the assistant is never opened. *)

Inductive ChatPart : Type :=
| StMarkdown (body : string)
| StImage (image : UploadedFile)
| StSpinner (label : string).

Inductive Element : Type :=
| StSubheader (body : string)
| StSidebarMarkdown (body : string)
| StWarning (body : string)
| StInfo (body : string)
| StChatMessage (name avatar : string) (parts : list ChatPart).

Record Inputs : Type := {
  openai_api_key : string;
  chat_input : string;
  image_input : option UploadedFile;
  submitted : bool
}.

(** [st.session_state]: a key that was never set is [None]. *)
Record Session : Type := {
  state_messages : option (list Turn);
  state_thread_id : option (option string)
}.

(** How an execution of the script ends: at its last line, at [st.stop()],
    at [st.rerun()], with an exception, or still polling. *)
Inductive Control : Type :=
| Finished
| Stopped
| Rerun
| Crashed (e : Exn)
| Polling.

Record Shown : Type := {
  control : Control;
  page : list Element;
  session : Session;
  events : list Event
}.

Definition robot : string := "🤖".

Definition sunglasses : string := "😎".

(** [avatar = robot if message["role"] == "assistant" else sunglasses]. *)
Definition avatar_of (role : string) : string :=
  if role =? "assistant" then robot else sunglasses.

(** One pass of the loop that shows the history (lines 163-166). *)
Definition show_turn (message : Turn) : Element :=
  StChatMessage (turn_role message) (avatar_of (turn_role message))
    [StMarkdown (turn_content message)].

Definition header : list Element :=
  [StSubheader "🧠 GPT-4o Assistant Chat";
   StSidebarMarkdown "## 🔑 OpenAI API Key";
   StSidebarMarkdown
     "Get your key at [platform.openai.com](https://platform.openai.com/account/api-keys)"].

(** The session after lines 156-159: a missing key gets its default, a key
    that is there keeps its value. *)
Definition initialise (s : Session) : Session :=
  {| state_messages :=
       Some (match state_messages s with Some h => h | None => [] end);
     state_thread_id :=
       Some (match state_thread_id s with Some t => t | None => None end) |}.

(** The initialised session and the events so far as the world the cycle
    works on, and back. *)
Definition world_of (s : Session) (l : list Event) : World :=
  {| thread_id := match state_thread_id s with Some t => t | None => None end;
     messages := match state_messages s with Some h => h | None => [] end;
     log := l |}.

Definition session_of (w : World) : Session :=
  {| state_messages := Some (messages w);
     state_thread_id := Some (thread_id w) |}.

Definition main (server : list Event -> Request -> Response) (fuel : nat)
    (i : Inputs) (s : Session) (l : list Event) : Shown :=
  match openai_api_key i with
  | EmptyString =>
      {| control := Stopped;
         page := header ++
           [StWarning
              "Please enter your OpenAI API key in the sidebar to use GPT-4o."];
         session := s;
         events := l |}
  | String _ _ =>
      let w := world_of s l in
      let top :=
        header ++
        [StInfo "Usando apenas a API do OpenAI Platform (Assistant/Threads)."] ++
        map show_turn (messages w) in
      match submitted i, chat_input i with
      | true, String _ _ =>
          let echoed :=
            StChatMessage "user" sunglasses
              (StMarkdown (chat_input i) ::
               match image_input i with
               | Some image =>
                   if displayable image then [StImage image] else []
               | None => []
               end) in
          let answering :=
            StChatMessage "assistant" robot
              [StSpinner ":green[processando...]"] in
          let run :=
            submit server fuel (openai_api_key i) (chat_input i)
              (image_input i) w in
          {| control := match fst run with
                        | Ret _ => Rerun
                        | Raise e => Crashed e
                        | Spinning => Polling
                        end;
             page := top ++ echoed ::
                       (if shows (image_input i) then [answering] else []);
             session := session_of (snd run);
             events := log (snd run) |}
      | _, _ =>
          {| control := Finished;
             page := top;
             session := session_of w;
             events := l |}
      end
  end.

(** The session and the events after a sequence of executions of the
    script, one per element of [inputs]. *)
Fixpoint executions (server : list Event -> Request -> Response) (fuel : nat)
    (inputs : list Inputs) (s : Session) (l : list Event)
  : Session * list Event :=
  match inputs with
  | [] => (s, l)
  | i :: inputs' =>
      let shown := main server fuel i s l in
      executions server fuel inputs' (session shown) (events shown)
  end.

(** An execution that submits: key, button and prompt are all there. *)
Definition submits (i : Inputs) : bool :=
  match openai_api_key i, submitted i, chat_input i with
  | String _ _, true, String _ _ => true
  | _, _, _ => false
  end.

(** The chat messages among the elements of a page. *)
Definition chat_messages (p : list Element) : list Element :=
  filter (fun e => match e with StChatMessage _ _ _ => true | _ => false end) p.

(** An uploaded file without content. *)
Definition empty_file : UploadedFile :=
  {| name := "cat.png"; read := []; image_error := None |}.

(** * Part I: history reconstruction *)

(** ** Facts about [sorted] *)

Section SortedFacts.
Context {A : Type} (key : A -> Z).

Lemma insert_perm (x : A) (l : list A) : Permutation (insert key x l) (x :: l).
Proof.
  induction l as [|y l IH]; simpl.
  - apply Permutation_refl.
  - destruct (key x <=? key y)%Z.
    + apply Permutation_refl.
    + eapply perm_trans; [apply perm_skip, IH | apply perm_swap].
Qed.

Lemma sorted_perm (l : list A) : Permutation (sorted key l) l.
Proof.
  induction l as [|x l IH]; simpl.
  - constructor.
  - eapply perm_trans; [apply insert_perm | apply perm_skip, IH].
Qed.

Lemma insert_filter_key (k : Z) (x : A) (l : list A) :
  filter (fun y => (key y =? k)%Z) (insert key x l) =
  if (key x =? k)%Z then x :: filter (fun y => (key y =? k)%Z) l
  else filter (fun y => (key y =? k)%Z) l.
Proof.
  induction l as [|y l IH]; simpl.
  - destruct (key x =? k)%Z; reflexivity.
  - destruct (Z.leb_spec (key x) (key y)) as [Hle|Hlt]; simpl.
    + destruct (key x =? k)%Z; reflexivity.
    + rewrite IH.
      destruct (Z.eqb_spec (key x) k) as [Hx|Hx];
        destruct (Z.eqb_spec (key y) k) as [Hy|Hy]; try reflexivity.
      lia.
Qed.

(** Stability: the elements of one key keep their input order. *)
Lemma sorted_stable (k : Z) (l : list A) :
  filter (fun y => (key y =? k)%Z) (sorted key l) =
  filter (fun y => (key y =? k)%Z) l.
Proof.
  induction l as [|x l IH]; simpl; [reflexivity|].
  rewrite insert_filter_key, IH. reflexivity.
Qed.

Lemma insert_ascending (x : A) (l : list A) :
  StronglySorted (key_le key) l -> StronglySorted (key_le key) (insert key x l).
Proof.
  induction 1 as [|y l Hs IH Hall]; simpl.
  - repeat constructor.
  - destruct (Z.leb_spec (key x) (key y)) as [Hle|Hlt].
    + constructor; [constructor; assumption|].
      constructor; [exact Hle|].
      eapply Forall_impl; [|exact Hall].
      unfold key_le; intros; lia.
    + constructor; [exact IH|].
      eapply Permutation_Forall; [apply Permutation_sym, insert_perm|].
      constructor; [unfold key_le; lia | exact Hall].
Qed.

Lemma sorted_ascending (l : list A) : StronglySorted (key_le key) (sorted key l).
Proof.
  induction l as [|x l IH]; simpl; [constructor | now apply insert_ascending].
Qed.

(** With positions attached, the sort orders by key first and by input
    position among equal keys. *)
Variable idx : A -> nat.

Lemma lex_lt_le_absurd (a b : A) : lex_lt key idx a b -> lex_le key idx b a -> False.
Proof. unfold lex_lt, lex_le; intros [?|[? ?]] [?|[? ?]]; lia. Qed.

Lemma insert_lex (x : A) (l : list A) :
  StronglySorted (lex_lt key idx) l ->
  Forall (fun y => idx x < idx y) l ->
  StronglySorted (lex_lt key idx) (insert key x l).
Proof.
  induction 1 as [|y l Hs IH Hall]; intros Hidx; simpl.
  - repeat constructor.
  - inversion Hidx as [|? ? Hxy Hidx']; subst.
    destruct (Z.leb_spec (key x) (key y)) as [Hle|Hlt].
    + constructor; [constructor; assumption|].
      constructor; [unfold lex_lt; lia|].
      rewrite Forall_forall in *. intros z Hz.
      specialize (Hall z Hz). specialize (Hidx' z Hz).
      unfold lex_lt in *. lia.
    + constructor; [apply IH; exact Hidx'|].
      eapply Permutation_Forall; [apply Permutation_sym, insert_perm|].
      constructor; [unfold lex_lt; lia | exact Hall].
Qed.

Lemma sorted_lex (l : list A) :
  StronglySorted (fun a b => idx a < idx b) l ->
  StronglySorted (lex_lt key idx) (sorted key l).
Proof.
  induction 1 as [|x l Hs IH Hall]; simpl; [constructor|].
  apply insert_lex; [exact IH|].
  eapply Permutation_Forall; [apply Permutation_sym, sorted_perm | exact Hall].
Qed.
End SortedFacts.

Lemma sorted_map {A B : Type} (f : A -> B) (key : B -> Z) (l : list A) :
  map f (sorted (fun a => key (f a)) l) = sorted key (map f l).
Proof.
  induction l as [|x l IH]; simpl; [reflexivity|].
  rewrite <- IH. generalize (sorted (fun a => key (f a)) l) as s.
  induction s as [|y s IHs]; simpl; [reflexivity|].
  destruct (key (f x) <=? key (f y))%Z; simpl; [reflexivity|].
  now rewrite IHs.
Qed.

(** ** Facts about lists *)

Lemma StronglySorted_app {A : Type} (R : A -> A -> Prop) (l1 l2 : list A) :
  StronglySorted R l1 -> StronglySorted R l2 ->
  (forall x y, In x l1 -> In y l2 -> R x y) ->
  StronglySorted R (l1 ++ l2).
Proof.
  induction 1 as [|x l1 Hs IH Hall]; intros H2 Hcross; simpl; [exact H2|].
  constructor.
  - apply IH; [exact H2|]. intros a b Ha Hb. apply Hcross; [now right | exact Hb].
  - apply Forall_app. split; [exact Hall|].
    rewrite Forall_forall. intros y Hy. apply Hcross; [now left | exact Hy].
Qed.

Lemma StronglySorted_flat_map {A B : Type} (R : A -> A -> Prop)
    (R' : B -> B -> Prop) (F : A -> list B) (s : list A) :
  StronglySorted R s ->
  (forall a, StronglySorted R' (F a)) ->
  (forall a b x y, R a b -> In x (F a) -> In y (F b) -> R' x y) ->
  StronglySorted R' (flat_map F s).
Proof.
  intros Hs Hin Hcross.
  induction Hs as [|a s Hs IH Hall]; simpl; [constructor|].
  apply StronglySorted_app; [apply Hin | exact IH |].
  intros x y Hx Hy. apply in_flat_map in Hy. destruct Hy as [b [Hb Hy]].
  rewrite Forall_forall in Hall. eapply Hcross; eauto.
Qed.

Lemma StronglySorted_nth_error {A : Type} (R : A -> A -> Prop) (l : list A) :
  StronglySorted R l ->
  forall p q x y, p < q -> nth_error l p = Some x -> nth_error l q = Some y ->
  R x y.
Proof.
  induction 1 as [|a l Hs IH Hall]; intros p q x y Hpq Hp Hq.
  - destruct p; discriminate.
  - destruct q as [|q]; [lia|]. simpl in Hq.
    destruct p as [|p]; simpl in Hp.
    + injection Hp as <-. rewrite Forall_forall in Hall.
      apply Hall. eapply nth_error_In; eassumption.
    + eapply IH; [|eassumption|eassumption]. lia.
Qed.

Lemma combine_seq_In {A : Type} (l : list A) (n i : nat) (a : A) :
  In (i, a) (combine (seq n (List.length l)) l) <->
  n <= i /\ nth_error l (i - n) = Some a.
Proof.
  revert n. induction l as [|x l IH]; intros n; simpl.
  - split; [tauto|]. intros [_ H]. destruct (i - n); discriminate.
  - rewrite IH. split.
    + intros [H|[Hle H]].
      * injection H as <- <-. rewrite Nat.sub_diag. auto.
      * split; [lia|]. replace (i - n) with (S (i - S n)) by lia. exact H.
    + intros [Hle H]. destruct (i - n) as [|k] eqn:E; simpl in H.
      * left. injection H as <-. f_equal. lia.
      * right. split; [lia|]. replace (i - S n) with k by lia. exact H.
Qed.

Lemma enumerate_In {A : Type} (l : list A) (i : nat) (a : A) :
  In (i, a) (enumerate l) <-> nth_error l i = Some a.
Proof.
  unfold enumerate. rewrite combine_seq_In, Nat.sub_0_r.
  split; [tauto | intros; split; [lia | assumption]].
Qed.

Lemma enumerate_fst {A : Type} (l : list A) :
  map fst (enumerate l) = seq 0 (List.length l).
Proof.
  unfold enumerate. generalize 0. induction l as [|x l IH]; intros n; simpl;
    [reflexivity | now rewrite IH].
Qed.

Lemma enumerate_snd {A : Type} (l : list A) : map snd (enumerate l) = l.
Proof.
  unfold enumerate. generalize 0. induction l as [|x l IH]; intros n; simpl;
    [reflexivity | now rewrite IH].
Qed.

Lemma enumerate_positions {A : Type} (l : list A) :
  StronglySorted (fun a b : nat * A => fst a < fst b) (enumerate l).
Proof.
  unfold enumerate. generalize 0. induction l as [|x l IH]; intros n; simpl.
  - constructor.
  - constructor; [apply IH|].
    rewrite Forall_forall. intros [i a] Hin.
    apply combine_seq_In in Hin. simpl. lia.
Qed.

(** [sorted] is the stable sort: any list that is a rearrangement of the
    input in ascending key order and keeps the input order among equal keys
    is the list [sorted] returns. *)
Lemma stable_ascending_unique {A : Type} (key : A -> Z) (s1 s2 : list A) :
  StronglySorted (key_le key) s1 ->
  StronglySorted (key_le key) s2 ->
  (forall k, filter (fun y => (key y =? k)%Z) s1 =
             filter (fun y => (key y =? k)%Z) s2) ->
  s1 = s2.
Proof.
  intros H1. revert s2.
  induction H1 as [|x s1 Hs1 IH Hx]; intros s2 H2 Hf.
  - destruct s2 as [|y s2]; [reflexivity|].
    specialize (Hf (key y)). simpl in Hf. rewrite Z.eqb_refl in Hf.
    discriminate Hf.
  - destruct H2 as [|y s2 Hs2 Hy].
    + specialize (Hf (key x)). simpl in Hf. rewrite Z.eqb_refl in Hf.
      discriminate Hf.
    + assert (Hxy : (key x <= key y)%Z).
      { pose proof (Hf (key y)) as Hk. simpl in Hk.
        rewrite Z.eqb_refl in Hk.
        destruct (Z.eqb_spec (key x) (key y)) as [E|E]; [lia|].
        assert (Hin : In y (filter (fun z => (key z =? key y)%Z) s1))
          by (rewrite Hk; now left).
        apply filter_In in Hin. destruct Hin as [Hin _].
        rewrite Forall_forall in Hx. exact (Hx y Hin). }
      assert (Hyx : (key y <= key x)%Z).
      { pose proof (Hf (key x)) as Hk. simpl in Hk.
        rewrite Z.eqb_refl in Hk.
        destruct (Z.eqb_spec (key y) (key x)) as [E|E]; [lia|].
        assert (Hin : In x (filter (fun z => (key z =? key x)%Z) s2))
          by (rewrite <- Hk; now left).
        apply filter_In in Hin. destruct Hin as [Hin _].
        rewrite Forall_forall in Hy. exact (Hy x Hin). }
      assert (Heq : key x = key y) by lia.
      assert (x = y).
      { pose proof (Hf (key x)) as Hk. simpl in Hk.
        rewrite Z.eqb_refl, <- Heq, Z.eqb_refl in Hk. now injection Hk. }
      subst y. f_equal. apply IH; [exact Hs2|].
      intros k. specialize (Hf k). simpl in Hf.
      destruct (key x =? k)%Z; [now injection Hf | exact Hf].
Qed.

Lemma sorted_is_the_stable_sort {A : Type} (key : A -> Z) (l s : list A) :
  StronglySorted (key_le key) s ->
  (forall k, filter (fun y => (key y =? k)%Z) s =
             filter (fun y => (key y =? k)%Z) l) ->
  s = sorted key l.
Proof.
  intros Hs Hf. apply (stable_ascending_unique key); [exact Hs| |].
  - apply sorted_ascending.
  - intros k. now rewrite Hf, sorted_stable.
Qed.

(** ** The loops of [reconstruct_history] *)

Lemma text_value_well_formed (c : ContentBlock) :
  well_formed_block c = true -> block_type c = "text" ->
  text_value c = Ok (block_text c).
Proof.
  unfold well_formed_block, text_value, block_text. intros Hwf Ht.
  rewrite Ht in Hwf. simpl in Hwf. destruct (text c); [reflexivity | discriminate].
Qed.

Lemma user_content_spec (cs : list ContentBlock) (history : list Turn) :
  forallb well_formed_block cs = true ->
  user_content cs history = Ok (history ++ flat_map user_turns cs).
Proof.
  revert history. induction cs as [|c cs IH]; intros history Hwf; simpl.
  - now rewrite app_nil_r.
  - simpl in Hwf. apply andb_true_iff in Hwf. destruct Hwf as [Hc Hcs].
    unfold user_turns at 1.
    destruct (String.eqb_spec (block_type c) "text") as [Ht|Ht].
    + rewrite (text_value_well_formed c Hc Ht), IH by exact Hcs.
      now rewrite <- app_assoc.
    + destruct (block_type c =? "image_file").
      * rewrite IH by exact Hcs. now rewrite <- app_assoc.
      * now apply IH.
Qed.

Lemma assistant_content_spec (cs : list ContentBlock) (history : list Turn) :
  forallb well_formed_block cs = true ->
  assistant_content cs history = Ok (history ++ flat_map assistant_turns cs).
Proof.
  revert history. induction cs as [|c cs IH]; intros history Hwf; simpl.
  - now rewrite app_nil_r.
  - simpl in Hwf. apply andb_true_iff in Hwf. destruct Hwf as [Hc Hcs].
    unfold assistant_turns at 1.
    destruct (String.eqb_spec (block_type c) "text") as [Ht|Ht].
    + rewrite (text_value_well_formed c Hc Ht), IH by exact Hcs.
      now rewrite <- app_assoc.
    + now apply IH.
Qed.

Lemma history_loop_spec (ms : list RemoteMessage) (history : list Turn) :
  forallb well_formed ms = true ->
  history_loop ms history = Ok (history ++ flat_map message_turns ms).
Proof.
  revert history. induction ms as [|m ms IH]; intros history Hwf; simpl.
  - now rewrite app_nil_r.
  - simpl in Hwf. apply andb_true_iff in Hwf. destruct Hwf as [Hm Hms].
    unfold message_turns at 1. unfold well_formed in Hm.
    destruct (role m =? "user").
    + rewrite user_content_spec, IH by assumption. now rewrite <- app_assoc.
    + destruct (role m =? "assistant").
      * rewrite assistant_content_spec, IH by assumption.
        now rewrite <- app_assoc.
      * now apply IH.
Qed.

Lemma forallb_Permutation {A : Type} (f : A -> bool) (l l' : list A) :
  Permutation l l' -> forallb f l = true -> forallb f l' = true.
Proof.
  intros HP. rewrite !forallb_forall. intros H x Hx.
  apply H. eapply Permutation_in; [apply Permutation_sym, HP | exact Hx].
Qed.

Lemma reconstruct_history_flat (messages : list RemoteMessage) :
  forallb well_formed messages = true ->
  reconstruct_history messages =
  Ok (flat_map message_turns (sorted created_at messages)).
Proof.
  intros Hwf. unfold reconstruct_history.
  apply history_loop_spec.
  eapply forallb_Permutation; [apply Permutation_sym, sorted_perm | exact Hwf].
Qed.

(** ** The history with positions *)

Lemma map_snd_flat_map_tag (s : list (nat * RemoteMessage)) :
  map snd (flat_map tag_turns s) = flat_map message_turns (map snd s).
Proof.
  induction s as [|[i m] s IH]; simpl; [reflexivity|].
  rewrite map_app, IH. f_equal. unfold tag_turns. simpl.
  rewrite map_map. simpl. apply map_id.
Qed.

Lemma history_trace_erase (messages : list RemoteMessage) :
  map snd (history_trace messages) =
  flat_map message_turns (sorted created_at messages).
Proof.
  unfold history_trace. fold tag_turns.
  rewrite map_snd_flat_map_tag.
  rewrite (sorted_map snd created_at), enumerate_snd. reflexivity.
Qed.

Lemma sorted_enumeration_perm (messages : list RemoteMessage) :
  Permutation (sorted_enumeration messages) (enumerate messages).
Proof. apply sorted_perm. Qed.

Lemma sorted_enumeration_In (messages : list RemoteMessage) i m :
  In (i, m) (sorted_enumeration messages) <-> nth_error messages i = Some m.
Proof.
  rewrite <- enumerate_In. split; apply Permutation_in;
    [|apply Permutation_sym]; apply sorted_enumeration_perm.
Qed.

Lemma sorted_enumeration_NoDup (messages : list RemoteMessage) :
  NoDup (map fst (sorted_enumeration messages)).
Proof.
  eapply Permutation_NoDup.
  - apply Permutation_sym, Permutation_map, sorted_enumeration_perm.
  - rewrite enumerate_fst. apply seq_NoDup.
Qed.

Lemma filter_tag_other (i : nat) (s : list (nat * RemoteMessage)) :
  ~ In i (map fst s) ->
  filter (fun it => Nat.eqb (fst it) i) (flat_map tag_turns s) = [].
Proof.
  induction s as [|[j m] s IH]; intros Hn; simpl; [reflexivity|].
  rewrite filter_app, IH by (intros H; apply Hn; now right).
  rewrite app_nil_r. unfold tag_turns. simpl.
  assert (Hj : j <> i) by (intros ->; apply Hn; now left).
  induction (message_turns m) as [|t ts IHt]; simpl; [reflexivity|].
  destruct (Nat.eqb_spec j i); [contradiction | exact IHt].
Qed.

Lemma filter_tag_same (i : nat) (m : RemoteMessage) :
  filter (fun it => Nat.eqb (fst it) i) (tag_turns (i, m)) = tag_turns (i, m).
Proof.
  unfold tag_turns. simpl.
  induction (message_turns m) as [|t ts IHt]; simpl; [reflexivity|].
  rewrite Nat.eqb_refl. now rewrite IHt.
Qed.

Lemma emitted_from_spec (messages : list RemoteMessage) i m :
  nth_error messages i = Some m ->
  emitted_from messages i = message_turns m.
Proof.
  intros Hi. unfold emitted_from, history_trace.
  fold tag_turns. fold (sorted_enumeration messages).
  pose proof (sorted_enumeration_NoDup messages) as Hnd.
  apply sorted_enumeration_In in Hi.
  apply in_split in Hi. destruct Hi as [s1 [s2 Hs]].
  rewrite Hs in *. rewrite map_app in Hnd. simpl in Hnd.
  pose proof (NoDup_remove_2 _ _ _ Hnd) as Hout.
  rewrite flat_map_app. simpl. rewrite !filter_app.
  rewrite filter_tag_other, filter_tag_same, filter_tag_other.
  - simpl. rewrite app_nil_r. unfold tag_turns. simpl.
    rewrite map_map. simpl. apply map_id.
  - intros H. apply Hout, in_or_app. now right.
  - intros H. apply Hout, in_or_app. now left.
Qed.

Lemma full_trace_erase (messages : list RemoteMessage) :
  map (fun x => (fst (fst x), snd x)) (full_trace messages) =
  history_trace messages.
Proof.
  unfold full_trace, history_trace. fold (sorted_enumeration messages).
  induction (sorted_enumeration messages) as [|im s IH]; simpl; [reflexivity|].
  rewrite map_app, IH. f_equal. rewrite map_map. reflexivity.
Qed.

Lemma full_trace_In (messages : list RemoteMessage) im t :
  In (im, t) (full_trace messages) -> In im (sorted_enumeration messages).
Proof.
  unfold full_trace. rewrite in_flat_map. intros [a [Ha Hin]].
  apply in_map_iff in Hin. destruct Hin as [t' [Heq _]].
  injection Heq as <- _. exact Ha.
Qed.

Lemma full_trace_sorted (messages : list RemoteMessage) :
  StronglySorted (fun x y => lex_le stamp fst (fst x) (fst y))
    (full_trace messages).
Proof.
  unfold full_trace.
  apply StronglySorted_flat_map with (R := lex_lt stamp fst).
  - apply sorted_lex, enumerate_positions.
  - intros a. induction (message_turns (snd a)) as [|t ts IH]; simpl.
    + constructor.
    + constructor; [exact IH|].
      rewrite Forall_forall. intros y Hy. apply in_map_iff in Hy.
      destruct Hy as [t' [<- _]]. simpl. unfold lex_le. right. split; lia.
  - intros a b x y Hab Hx Hy.
    apply in_map_iff in Hx. destruct Hx as [? [<- _]].
    apply in_map_iff in Hy. destruct Hy as [? [<- _]]. simpl.
    destruct Hab as [H|[H1 H2]]; [left; exact H | right; split; [exact H1 | lia]].
Qed.

Lemma history_trace_order (messages : list RemoteMessage) p q i j t1 t2 M1 M2 :
  nth_error (history_trace messages) p = Some (i, t1) ->
  nth_error (history_trace messages) q = Some (j, t2) ->
  nth_error messages i = Some M1 ->
  nth_error messages j = Some M2 ->
  (created_at M1 < created_at M2)%Z \/
  (created_at M1 = created_at M2 /\ i < j) ->
  p < q.
Proof.
  intros Hp Hq Hi Hj Hlt.
  rewrite <- full_trace_erase in Hp, Hq.
  rewrite nth_error_map in Hp, Hq.
  destruct (nth_error (full_trace messages) p) as [[[i' m1] u1]|] eqn:Ep;
    [|discriminate].
  destruct (nth_error (full_trace messages) q) as [[[j' m2] u2]|] eqn:Eq;
    [|discriminate].
  simpl in Hp, Hq. injection Hp as -> ->. injection Hq as -> ->.
  assert (m1 = M1).
  { apply nth_error_In, full_trace_In, sorted_enumeration_In in Ep. congruence. }
  assert (m2 = M2).
  { apply nth_error_In, full_trace_In, sorted_enumeration_In in Eq. congruence. }
  subst m1 m2.
  destruct (Nat.lt_ge_cases p q) as [Hpq|Hqp]; [exact Hpq|exfalso].
  apply (lex_lt_le_absurd stamp fst (i, M1) (j, M2)); [exact Hlt|].
  destruct (Nat.eq_dec q p) as [->|Hne].
  - rewrite Ep in Eq. injection Eq as <- <- _.
    right. split; reflexivity.
  - apply (StronglySorted_nth_error _ _ (full_trace_sorted messages) q p
             (j, M2, t2) (i, M1, t1)); [lia | exact Eq | exact Ep].
Qed.

(** ** The claims about [reconstruct_history] *)

(** C1. For a list of well-formed remote messages, the history is the
    position-tagged trace with the tags erased, the turns tagged with a
    position are the turns of the message at that position, and for any two
    messages M1 (position i) and M2 (position j) with
    created_at(M1) < created_at(M2), or with equal created_at and i < j,
    every turn emitted from M1 precedes every turn emitted from M2. The sort
    rearranges the messages in ascending created_at order and is stable: the
    messages of one created_at keep their input order. *)
Theorem reconstruct_history_ordered (messages : list RemoteMessage) :
  forallb well_formed messages = true ->
  reconstruct_history messages = Ok (map snd (history_trace messages)) /\
  (forall i m, nth_error messages i = Some m ->
     emitted_from messages i = message_turns m) /\
  (forall p q i j t1 t2 M1 M2,
     nth_error (history_trace messages) p = Some (i, t1) ->
     nth_error (history_trace messages) q = Some (j, t2) ->
     nth_error messages i = Some M1 ->
     nth_error messages j = Some M2 ->
     (created_at M1 < created_at M2)%Z \/
     (created_at M1 = created_at M2 /\ i < j) ->
     p < q) /\
  Permutation (sorted created_at messages) messages /\
  StronglySorted (key_le created_at) (sorted created_at messages) /\
  (forall k,
     filter (fun m => (created_at m =? k)%Z) (sorted created_at messages) =
     filter (fun m => (created_at m =? k)%Z) messages).
Proof.
  intros Hwf. repeat apply conj.
  - rewrite history_trace_erase. now apply reconstruct_history_flat.
  - intros i m. apply emitted_from_spec.
  - intros p q i j t1 t2 M1 M2. apply history_trace_order.
  - apply sorted_perm.
  - apply sorted_ascending.
  - intros k. apply sorted_stable.
Qed.

Lemma reconstruct_history_ordered_witness :
  forallb well_formed sample_messages = true /\
  reconstruct_history sample_messages =
  Ok (map snd (history_trace sample_messages)).
Proof.
  split; [reflexivity|].
  exact (proj1 (reconstruct_history_ordered sample_messages eq_refl)).
Defined.

Example reconstruct_history_sample :
  reconstruct_history sample_messages =
  Ok [ {| turn_role := "user"; turn_content := "hi" |};
       {| turn_role := "user"; turn_content := placeholder |};
       {| turn_role := "user"; turn_content := "again" |};
       {| turn_role := "assistant"; turn_content := "ok" |} ].
Proof. reflexivity. Qed.

Example history_trace_sample :
  map fst (history_trace sample_messages) = [1; 1; 2; 0].
Proof. reflexivity. Qed.

Lemma user_turns_text_or_image (cs : list ContentBlock) :
  (forall c, In c cs -> block_type c = "text" \/ block_type c = "image_file") ->
  flat_map user_turns cs = map user_turn cs.
Proof.
  induction cs as [|c cs IH]; intros Hall; simpl; [reflexivity|].
  rewrite IH by (intros; apply Hall; now right). f_equal.
  unfold user_turns, user_turn.
  destruct (Hall c (or_introl eq_refl)) as [Ht|Ht]; rewrite Ht; reflexivity.
Qed.

Lemma reconstruct_history_single (m : RemoteMessage) :
  well_formed m = true -> reconstruct_history [m] = Ok (message_turns m).
Proof.
  intros Hwf. rewrite reconstruct_history_flat by (simpl; now rewrite Hwf).
  simpl. now rewrite app_nil_r.
Qed.

(** C2. For every well-formed user-role message of the input whose content
    blocks are text and image_file blocks, the two kinds of block a message
    has, the turns emitted from it are exactly one user turn per block, in
    the blocks' original order: a text block yields a user turn carrying
    the block's text value, and an image_file block yields a user turn
    carrying the fixed placeholder. A user message with blocks
    [Text "hi"; ImageRef "f1"] yields exactly
    [(user, "hi"); (user, placeholder)]. (The loop has no branch for a block
    of any other type: such a block would add nothing.) *)
Theorem user_message_turns (messages : list RemoteMessage) i m :
  forallb well_formed messages = true ->
  nth_error messages i = Some m ->
  role m = "user" ->
  reconstruct_history messages = Ok (map snd (history_trace messages)) /\
  emitted_from messages i = flat_map user_turns (content m) /\
  reconstruct_history [m] = Ok (flat_map user_turns (content m)) /\
  (forall c, block_type c = "text" ->
     user_turns c = [{| turn_role := "user"; turn_content := block_text c |}]) /\
  (forall c, block_type c = "image_file" ->
     user_turns c = [{| turn_role := "user"; turn_content := placeholder |}]) /\
  (forall c, block_type c <> "text" -> block_type c <> "image_file" ->
     user_turns c = []) /\
  ((forall c, In c (content m) ->
      block_type c = "text" \/ block_type c = "image_file") ->
   emitted_from messages i = map user_turn (content m) /\
   List.length (emitted_from messages i) = List.length (content m) /\
   reconstruct_history [m] = Ok (map user_turn (content m)) /\
   (forall c, In c (content m) -> block_type c = "text" ->
      text_value c = Ok (turn_content (user_turn c))) /\
   (forall c, In c (content m) -> block_type c = "image_file" ->
      turn_content (user_turn c) = placeholder)) /\
  (forall id ts,
     reconstruct_history
       [{| msg_id := id; role := "user"; created_at := ts;
           content := [Text "hi"; ImageRef "f1"] |}] =
     Ok [ {| turn_role := "user"; turn_content := "hi" |};
          {| turn_role := "user"; turn_content := placeholder |} ]).
Proof.
  intros Hwf Hi Hrole.
  assert (Hm : message_turns m = flat_map user_turns (content m)).
  { unfold message_turns. now rewrite Hrole. }
  assert (Hwm : well_formed m = true).
  { rewrite forallb_forall in Hwf. eapply Hwf, nth_error_In, Hi. }
  refine (conj _ (conj _ (conj _ (conj _ (conj _ (conj _ (conj _ _))))))).
  - rewrite history_trace_erase. now apply reconstruct_history_flat.
  - now rewrite (emitted_from_spec messages i m Hi).
  - now rewrite reconstruct_history_single, Hm.
  - intros c Ht. unfold user_turns. now rewrite Ht.
  - intros c Ht. unfold user_turns. now rewrite Ht.
  - intros c H1 H2. unfold user_turns.
    apply String.eqb_neq in H1, H2. now rewrite H1, H2.
  - intros Hall.
    pose proof (user_turns_text_or_image (content m) Hall) as Hmap.
    refine (conj _ (conj _ (conj _ (conj _ _)))).
    + now rewrite (emitted_from_spec messages i m Hi), Hm.
    + rewrite (emitted_from_spec messages i m Hi), Hm, Hmap.
      apply length_map.
    + now rewrite reconstruct_history_single, Hm, Hmap.
    + intros c Hc Ht. unfold user_turn. rewrite Ht. simpl.
      apply text_value_well_formed; [|exact Ht].
      unfold well_formed in Hwm. rewrite forallb_forall in Hwm. now apply Hwm.
    + intros c Hc Ht. unfold user_turn. now rewrite Ht.
  - intros id ts. reflexivity.
Qed.

Lemma user_message_turns_witness :
  emitted_from sample_messages 1 = map user_turn [Text "hi"; ImageRef "f1"] /\
  List.length (emitted_from sample_messages 1) = 2.
Proof.
  pose proof (proj1 (proj2 (proj2 (proj2 (proj2 (proj2 (proj2
    (user_message_turns sample_messages 1 _ eq_refl eq_refl eq_refl)))))))) as H.
  refine ((fun H' => conj (proj1 H') (proj1 (proj2 H'))) (H _)).
  intros c [<-|[<-|[]]]; [left | right]; reflexivity.
Defined.

Lemma assistant_turns_filter (cs : list ContentBlock) :
  flat_map assistant_turns cs = map assistant_turn (filter is_text_block cs).
Proof.
  induction cs as [|c cs IH]; simpl; [reflexivity|].
  rewrite IH. unfold assistant_turns, is_text_block.
  destruct (block_type c =? "text"); reflexivity.
Qed.

(** C3. For every well-formed assistant-role message of the input, the turns
    emitted from it are exactly one assistant turn per text block, in block
    order, carrying the block's text value; every non-text block is skipped.
    An assistant message with blocks [ImageRef "f2"; Text "ok"] yields
    exactly [(assistant, "ok")]. *)
Theorem assistant_message_turns (messages : list RemoteMessage) i m :
  forallb well_formed messages = true ->
  nth_error messages i = Some m ->
  role m = "assistant" ->
  reconstruct_history messages = Ok (map snd (history_trace messages)) /\
  emitted_from messages i =
    map assistant_turn (filter is_text_block (content m)) /\
  reconstruct_history [m] =
    Ok (map assistant_turn (filter is_text_block (content m))) /\
  (forall c, In c (content m) -> is_text_block c = true ->
     text_value c = Ok (turn_content (assistant_turn c))) /\
  (forall id ts,
     reconstruct_history
       [{| msg_id := id; role := "assistant"; created_at := ts;
           content := [ImageRef "f2"; Text "ok"] |}] =
     Ok [ {| turn_role := "assistant"; turn_content := "ok" |} ]).
Proof.
  intros Hwf Hi Hrole.
  assert (Hm : message_turns m =
               map assistant_turn (filter is_text_block (content m))).
  { unfold message_turns. rewrite Hrole. simpl. apply assistant_turns_filter. }
  assert (Hwm : well_formed m = true).
  { rewrite forallb_forall in Hwf. eapply Hwf, nth_error_In, Hi. }
  repeat apply conj.
  - rewrite history_trace_erase. now apply reconstruct_history_flat.
  - now rewrite (emitted_from_spec messages i m Hi).
  - now rewrite reconstruct_history_single, Hm.
  - intros c Hc Ht. simpl. apply text_value_well_formed.
    + unfold well_formed in Hwm. rewrite forallb_forall in Hwm. now apply Hwm.
    + now apply String.eqb_eq.
  - intros id ts. reflexivity.
Qed.

Lemma assistant_message_turns_witness :
  emitted_from sample_messages 0 =
  map assistant_turn (filter is_text_block [ImageRef "f2"; Text "ok"]).
Proof.
  exact (proj1 (proj2
    (assistant_message_turns sample_messages 0 _ eq_refl eq_refl eq_refl))).
Defined.

(** C4. On a well-formed input [reconstruct_history] returns a history; the
    history is a function of the input list alone, so two calls on the same
    input return the same sequence; and the call has no effect on the
    session or on the event log. *)
Theorem reconstruct_history_deterministic (messages : list RemoteMessage) :
  forallb well_formed messages = true ->
  exists h,
    reconstruct_history messages = Ok h /\
    (forall messages', messages' = messages ->
       reconstruct_history messages' = Ok h) /\
    (forall w, lift (reconstruct_history messages) w = (Ret h, w)).
Proof.
  intros Hwf. exists (flat_map message_turns (sorted created_at messages)).
  pose proof (reconstruct_history_flat messages Hwf) as H.
  repeat apply conj.
  - exact H.
  - intros ? ->. exact H.
  - intros w. rewrite H. reflexivity.
Qed.

Lemma reconstruct_history_deterministic_witness :
  exists h, reconstruct_history sample_messages = Ok h /\
    (forall messages', messages' = sample_messages ->
       reconstruct_history messages' = Ok h) /\
    (forall w, lift (reconstruct_history sample_messages) w = (Ret h, w)).
Proof. exact (reconstruct_history_deterministic sample_messages eq_refl). Defined.

(** The failure the well-formedness excludes: a text block without its
    ["text"] object raises [KeyError]. *)
Example reconstruct_history_ill_formed :
  reconstruct_history
    [{| msg_id := "m"; role := "assistant"; created_at := 0;
        content := [{| block_type := "text"; text := None;
                       image_file := None |}] |}] =
  Err (KeyError "text").
Proof. reflexivity. Qed.

(** * Part II: the remote operations *)

(** ** Worlds and logs *)

Lemma extend_nil (w : World) : extend [] w = w.
Proof. destruct w. unfold extend. simpl. now rewrite app_nil_r. Qed.

Lemma extend_extend (evs1 evs2 : list Event) (w : World) :
  extend evs2 (extend evs1 w) = extend (evs1 ++ evs2) w.
Proof. unfold extend. simpl. now rewrite app_assoc. Qed.

Lemma emit_extend (e : Event) (w : World) : emit e w = extend [e] w.
Proof. reflexivity. Qed.

Lemma skipn_length_app {A : Type} (l evs : list A) :
  skipn (List.length l) (l ++ evs) = evs.
Proof. induction l as [|x l IH]; simpl; [reflexivity | exact IH]. Qed.

Lemma events_since_extend (evs : list Event) (w : World) :
  events_since w (extend evs w) = evs.
Proof. unfold events_since, extend. simpl. apply skipn_length_app. Qed.

Lemma events_since_extend2 (evs1 evs2 : list Event) (w : World) :
  events_since w (extend evs2 (extend evs1 w)) = evs1 ++ evs2.
Proof. rewrite extend_extend. apply events_since_extend. Qed.

Lemma responses_app (evs1 evs2 : list Event) :
  responses (evs1 ++ evs2) = responses evs1 ++ responses evs2.
Proof.
  induction evs1 as [|[req resp|line|secs] evs1 IH]; simpl;
    [reflexivity | now rewrite IH | exact IH | exact IH].
Qed.

Lemma statuses_app (evs1 evs2 : list Event) :
  statuses (evs1 ++ evs2) = statuses evs1 ++ statuses evs2.
Proof. unfold statuses. now rewrite responses_app, map_app. Qed.

Lemma responses_diagnostics (label : string) (resp : Response) :
  responses (diagnostics label resp) = [].
Proof. unfold diagnostics. now destruct (status_code resp =? 200)%Z. Qed.

(** ** The run of every operation in closed form *)

Section Runs.
Variable server : list Event -> Request -> Response.

Lemma create_thread_run (api_key : string) (w : World) :
  let req := create_thread_request api_key in
  let resp := server (log w) req in
  create_thread server api_key w =
  (checked resp "id" json_id,
   extend (Http req resp :: diagnostics "Resposta da API: " resp) w).
Proof.
  cbv zeta.
  unfold create_thread, create_thread_request, threads_url, requests_post, request, bind.
  set (resp := server (log w) _).
  unfold print, raise_for_status, json, item, checked, diagnostics.
  rewrite emit_extend.
  unfold ret, raise.
  destruct (status_code resp =? 200)%Z;
    destruct (http_error (status_code resp)); cbv beta iota;
    rewrite ?emit_extend, ?extend_extend; try reflexivity;
    destruct (resp_json resp) as [[j|]|]; cbv beta iota; try reflexivity;
    destruct (json_id j); reflexivity.
Qed.

Lemma upload_file_run (api_key : string) (image_bytes : list byte)
    (image_filename : string) (w : World) :
  let req := upload_request api_key image_bytes image_filename in
  let resp := server (log w) req in
  upload_file server api_key image_bytes image_filename w =
  (checked resp "id" json_id,
   extend (Http req resp :: diagnostics "Resposta da API (upload_file): " resp)
     w).
Proof.
  cbv zeta.
  unfold upload_file, upload_request, files_url, requests_post, request, bind.
  set (resp := server (log w) _).
  unfold print, raise_for_status, json, item, checked, diagnostics.
  rewrite emit_extend.
  unfold ret, raise.
  destruct (status_code resp =? 200)%Z;
    destruct (http_error (status_code resp)); cbv beta iota;
    rewrite ?emit_extend, ?extend_extend; try reflexivity;
    destruct (resp_json resp) as [[j|]|]; cbv beta iota; try reflexivity;
    destruct (json_id j); reflexivity.
Qed.

Lemma send_message_run_plain (thread_id content api_key : string)
    (image_bytes : option (list byte)) (image_filename : option string)
    (w : World) :
  image_supplied image_bytes image_filename = None ->
  send_message server thread_id content api_key image_bytes image_filename w =
  post_message server thread_id api_key [text_block content] w.
Proof.
  intros Hn. unfold send_message. rewrite Hn.
  unfold post_message, requests_post, request, bind, ret, raise_for_status,
    json, checked_json, create_message_request, messages_url, text_block.
  rewrite emit_extend.
  destruct (http_error _); [reflexivity|].
  destruct (resp_json _); reflexivity.
Qed.

Lemma send_message_run_image (thread_id content api_key : string)
    (image_bytes : option (list byte)) (image_filename : option string)
    (bs : list byte) (fname : string) (w : World) :
  image_supplied image_bytes image_filename = Some (bs, fname) ->
  send_message server thread_id content api_key image_bytes image_filename w =
  match upload_file server api_key bs fname w with
  | (Ret file_id, w1) =>
      post_message server thread_id api_key
        [text_block content; OutImageFile file_id] w1
  | (Raise e, w1) => (Raise e, w1)
  | (Spinning, w1) => (Spinning, w1)
  end.
Proof.
  intros Hs. unfold send_message. rewrite Hs.
  unfold bind at 1. unfold bind at 1.
  destruct (upload_file server api_key bs fname w) as [[file_id|e|] w1];
    try reflexivity.
  unfold post_message, requests_post, request, bind, ret, raise_for_status,
    json, checked_json, create_message_request, messages_url, text_block.
  simpl. rewrite emit_extend.
  destruct (http_error _); [reflexivity|].
  destruct (resp_json _); reflexivity.
Qed.
End Runs.

(** ** [send_message] *)

Lemma image_supplied_none (b : option (list byte)) (f : option string) :
  (b = None \/ b = Some []) \/ (f = None \/ f = Some "") ->
  image_supplied b f = None.
Proof.
  intros [[->| ->]|[->| ->]]; try reflexivity;
    destruct b as [[|x bs]|]; reflexivity.
Qed.

Lemma image_supplied_some (bs : list byte) (fname : string) :
  bs <> [] -> fname <> "" ->
  image_supplied (Some bs) (Some fname) = Some (bs, fname).
Proof.
  intros Hb Hf. destruct bs; [contradiction|]. destruct fname; [contradiction|].
  reflexivity.
Qed.

Lemma upload_is_not_create_message (thread_id api_key : string)
    (bs : list byte) (fname : string) (resp : Response) :
  is_create_message_call thread_id (Http (upload_request api_key bs fname) resp)
  = false.
Proof. reflexivity. Qed.

Lemma diagnostics_no_post (u label : string) (resp : Response) :
  filter (is_post_to u) (diagnostics label resp) = [].
Proof. unfold diagnostics. now destruct (status_code resp =? 200)%Z. Qed.

Lemma create_message_is_create_message (thread_id api_key : string)
    (blocks : list OutBlock) (resp : Response) :
  is_create_message_call thread_id
    (Http (create_message_request thread_id api_key blocks) resp) = true.
Proof. unfold is_create_message_call. simpl. apply String.eqb_refl. Qed.

(** C10. When the image bytes are missing or empty, or the filename is
    missing or empty, [send_message] makes no upload call: the only event is
    the create-message call, whose content is the text block alone, and the
    outcome is that of this call, as if no image had been passed. *)
Theorem send_message_drops_empty_image
    (server : list Event -> Request -> Response)
    (thread_id content api_key : string)
    (image_bytes : option (list byte)) (image_filename : option string)
    (w : World) :
  (image_bytes = None \/ image_bytes = Some []) \/
  (image_filename = None \/ image_filename = Some "") ->
  let req := create_message_request thread_id api_key [text_block content] in
  let resp := server (log w) req in
  let run :=
    send_message server thread_id content api_key image_bytes image_filename w in
  run = (checked_json resp, extend [Http req resp] w) /\
  events_since w (snd run) = [Http req resp] /\
  filter is_upload_call (events_since w (snd run)) = [] /\
  run = send_message server thread_id content api_key None None w.
Proof.
  intros H. cbv zeta. apply image_supplied_none in H.
  rewrite (send_message_run_plain server _ _ _ _ _ w H).
  rewrite (send_message_run_plain server _ _ _ None None w eq_refl).
  unfold post_message. simpl snd. rewrite events_since_extend.
  repeat apply conj; reflexivity.
Qed.

Lemma send_message_drops_empty_image_witness :
  events_since initial_world
    (snd (send_message ok_server "thread_1" "hello" "sk"
            (Some []) (Some "cat.png") initial_world)) =
  [Http (create_message_request "thread_1" "sk" [text_block "hello"])
     (reply 200 (Some (sample_json "id_1")))].
Proof.
  exact (proj1 (proj2
    (send_message_drops_empty_image ok_server "thread_1" "hello" "sk"
       (Some []) (Some "cat.png") initial_world
       (or_introl (or_intror eq_refl))))).
Defined.

(** C8. Every create-message request [send_message] issues carries the role
    user and a content list whose first block is the text block holding the
    user's text, a newline and the language instruction; a second block
    follows exactly when an image is supplied, and it is the image_file
    reference to the id the upload returned; there is no other block. The
    request is issued when no image is supplied and when the upload of the
    supplied image returned. *)
Theorem send_message_content_blocks
    (server : list Event -> Request -> Response)
    (thread_id content api_key : string)
    (image_bytes : option (list byte)) (image_filename : option string)
    (w : World) :
  let run :=
    send_message server thread_id content api_key image_bytes image_filename w in
  let evs := events_since w (snd run) in
  text_block content =
    OutText (content ++ newline ++ "Responda em português do Brasil.")%string /\
  (forall req resp,
     In (Http req resp) evs -> method req = POST ->
     url req = messages_url thread_id ->
     exists blocks,
       body req = JsonMessage {| data_role := "user";
                                 data_content := text_block content :: blocks |} /\
       match image_supplied image_bytes image_filename with
       | None => blocks = []
       | Some (bs, fname) =>
           exists file_id,
             fst (upload_file server api_key bs fname w) = Ret file_id /\
             blocks = [OutImageFile file_id]
       end) /\
  (image_supplied image_bytes image_filename = None ->
   exists resp,
     evs = [Http (create_message_request thread_id api_key [text_block content])
              resp]) /\
  (forall bs fname file_id,
     image_supplied image_bytes image_filename = Some (bs, fname) ->
     fst (upload_file server api_key bs fname w) = Ret file_id ->
     exists evs0 resp,
       evs = evs0 ++
             [Http (create_message_request thread_id api_key
                      [text_block content; OutImageFile file_id]) resp] /\
       filter (is_create_message_call thread_id) evs0 = []).
Proof.
  cbv zeta. split; [reflexivity|].
  destruct (image_supplied image_bytes image_filename) as [[bs fname]|] eqn:Hs.
  - rewrite (send_message_run_image server _ _ _ _ _ bs fname w Hs).
    pose proof (upload_file_run server api_key bs fname w) as Hrun.
    cbv zeta in Hrun.
    set (up := upload_request api_key bs fname) in *.
    set (r := server (log w) up) in *.
    set (diag := diagnostics "Resposta da API (upload_file): " r) in *.
    rewrite Hrun.
    destruct (checked r "id" json_id) as [fid|e|] eqn:Hc.
    + unfold post_message. simpl snd. rewrite events_since_extend2.
      set (r2 := server _ _).
      repeat apply conj.
      * intros req resp Hin Hm Hu.
        change (Http up r :: diag) with ([Http up r] ++ diag) in Hin.
        rewrite !in_app_iff in Hin. destruct Hin as [[Hin|Hin]|Hin].
        -- destruct Hin as [Heq|[]]. injection Heq as <- _.
           unfold up in Hu. simpl in Hu. discriminate Hu.
        -- unfold diag, diagnostics in Hin.
           destruct (status_code r =? 200)%Z; [destruct Hin|].
           destruct Hin as [Heq|[]]. discriminate Heq.
        -- destruct Hin as [Heq|[]]. injection Heq as <- _.
           exists [OutImageFile fid]. split; [reflexivity|].
           exists fid. split; reflexivity.
      * discriminate.
      * intros bs' fname' fid' Heq Hfid. injection Heq as <- <-.
        rewrite Hrun in Hfid. injection Hfid as <-.
        exists (Http up r :: diag), r2. split; [reflexivity|].
        simpl. unfold diag. apply diagnostics_no_post.
    + simpl snd. rewrite events_since_extend.
      repeat apply conj.
      * intros req resp Hin Hm Hu. exfalso.
        destruct Hin as [Heq|Hin].
        -- injection Heq as <- _. unfold up in Hu. simpl in Hu. discriminate Hu.
        -- unfold diag, diagnostics in Hin.
           destruct (status_code r =? 200)%Z; [destruct Hin|].
           destruct Hin as [Heq|[]]. discriminate Heq.
      * discriminate.
      * intros bs' fname' fid' Heq Hfid. injection Heq as <- <-.
        rewrite Hrun in Hfid. discriminate Hfid.
    + simpl snd. rewrite events_since_extend.
      repeat apply conj.
      * intros req resp Hin Hm Hu. exfalso.
        destruct Hin as [Heq|Hin].
        -- injection Heq as <- _. unfold up in Hu. simpl in Hu. discriminate Hu.
        -- unfold diag, diagnostics in Hin.
           destruct (status_code r =? 200)%Z; [destruct Hin|].
           destruct Hin as [Heq|[]]. discriminate Heq.
      * discriminate.
      * intros bs' fname' fid' Heq Hfid. injection Heq as <- <-.
        rewrite Hrun in Hfid. discriminate Hfid.
  - rewrite (send_message_run_plain server _ _ _ _ _ w Hs).
    unfold post_message. simpl snd. rewrite events_since_extend.
    repeat apply conj.
    + intros req resp Hin Hm Hu. destruct Hin as [Heq|[]].
      injection Heq as <- _. exists []. split; reflexivity.
    + intros _. eexists. reflexivity.
    + discriminate.
Qed.

Lemma send_message_content_blocks_witness :
  exists evs0 resp,
    events_since initial_world
      (snd (send_message ok_server "thread_1" "hello" "sk"
              (Some sample_image) (Some "cat.png") initial_world)) =
    evs0 ++ [Http (create_message_request "thread_1" "sk"
                     [text_block "hello"; OutImageFile "id_1"]) resp] /\
    filter (is_create_message_call "thread_1") evs0 = [].
Proof.
  exact (proj2 (proj2 (proj2
    (send_message_content_blocks ok_server "thread_1" "hello" "sk"
       (Some sample_image) (Some "cat.png") initial_world)))
    sample_image "cat.png" "id_1" eq_refl eq_refl).
Defined.

(** C5. When an image is supplied (bytes and filename both non-empty), the
    first thing [send_message] does is the upload call, so every
    create-message call comes after it. If the upload fails with an error,
    [send_message] fails with that error in the world the upload left: the
    events are those of the upload alone and none of them is a create-message
    call. This holds in particular when the upload is answered with an HTTP
    error status. If the upload returns, the create-message call follows. *)
Theorem upload_precedes_message
    (server : list Event -> Request -> Response)
    (thread_id content api_key : string)
    (bs : list byte) (fname : string) (w : World) :
  bs <> [] -> fname <> "" ->
  let up := upload_request api_key bs fname in
  let resp := server (log w) up in
  let upload := upload_file server api_key bs fname w in
  let run :=
    send_message server thread_id content api_key (Some bs) (Some fname) w in
  let evs := events_since w (snd run) in
  (exists rest,
     evs = Http up resp :: rest /\
     is_upload_call (Http up resp) = true /\
     is_create_message_call thread_id (Http up resp) = false) /\
  (forall e, fst upload = Raise e ->
     run = (Raise e, snd upload) /\
     evs = Http up resp :: diagnostics "Resposta da API (upload_file): " resp /\
     filter (is_create_message_call thread_id) evs = []) /\
  (http_error (status_code resp) = true ->
     fst upload = Raise (HTTPError (status_code resp)) /\
     fst run = Raise (HTTPError (status_code resp))) /\
  (forall file_id, fst upload = Ret file_id ->
     exists resp2,
       evs = (Http up resp :: diagnostics "Resposta da API (upload_file): " resp)
             ++ [Http (create_message_request thread_id api_key
                         [text_block content; OutImageFile file_id]) resp2]).
Proof.
  intros Hb Hf. cbv zeta.
  rewrite (send_message_run_image server _ _ _ _ _ bs fname w
             (image_supplied_some bs fname Hb Hf)).
  rewrite upload_file_run. cbv zeta.
  set (up := upload_request api_key bs fname).
  set (resp := server (log w) up).
  set (diag := diagnostics "Resposta da API (upload_file): " resp).
  simpl fst.
  assert (Hdiag : filter (is_create_message_call thread_id) (Http up resp :: diag)
                  = []).
  { simpl. apply diagnostics_no_post. }
  destruct (checked resp "id" json_id) as [fid|e|] eqn:Hc.
  - unfold post_message. simpl snd. rewrite events_since_extend2.
    repeat apply conj.
    + eexists. repeat apply conj; reflexivity.
    + discriminate.
    + intros Herr. unfold checked in Hc. rewrite Herr in Hc. discriminate Hc.
    + intros fid' Hfid. injection Hfid as <-. eexists. reflexivity.
  - simpl snd. rewrite events_since_extend.
    repeat apply conj.
    + eexists. repeat apply conj; reflexivity.
    + intros e' He. injection He as <-. repeat apply conj;
        [reflexivity | reflexivity | exact Hdiag].
    + intros Herr. unfold checked in Hc. rewrite Herr in Hc.
      injection Hc as <-. split; reflexivity.
    + discriminate.
  - simpl snd. rewrite events_since_extend.
    repeat apply conj.
    + eexists. repeat apply conj; reflexivity.
    + discriminate.
    + intros Herr. unfold checked in Hc. rewrite Herr in Hc. discriminate Hc.
    + discriminate.
Qed.

Lemma upload_precedes_message_witness :
  send_message no_upload_server "thread_1" "hello" "sk"
    (Some sample_image) (Some "cat.png") initial_world =
  (Raise (HTTPError 413),
   snd (upload_file no_upload_server "sk" sample_image "cat.png" initial_world)).
Proof.
  refine (proj1 (proj1 (proj2
    (upload_precedes_message no_upload_server "thread_1" "hello" "sk"
       sample_image "cat.png" initial_world _ _)) (HTTPError 413) eq_refl));
    discriminate.
Defined.

Example send_message_failed_upload_log :
  log (snd (send_message no_upload_server "thread_1" "hello" "sk"
              (Some sample_image) (Some "cat.png") initial_world)) =
  [Http (upload_request "sk" sample_image "cat.png") (reply 413 None);
   Printed "Resposta da API (upload_file): body"].
Proof. reflexivity. Qed.

(** ** [wait_for_run_completion] *)

Section Polling.
Variable server : list Event -> Request -> Response.
Variables thread_id run_id api_key : string.

Local Abbreviation req := (get_run_request thread_id run_id api_key).

Lemma wait_step (fuel : nat) (w : World) :
  wait_for_run_completion server (S fuel) thread_id run_id api_key w =
  let resp := server (log w) req in
  match checked resp "status" json_status with
  | Ret status =>
      if is_terminal status then (Ret status, extend [Http req resp] w)
      else wait_for_run_completion server fuel thread_id run_id api_key
             (extend [Http req resp; Sleep 1] w)
  | Raise e => (Raise e, extend [Http req resp] w)
  | Spinning => (Spinning, extend [Http req resp] w)
  end.
Proof.
  cbv zeta. cbn [wait_for_run_completion].
  unfold requests_get, request, bind, checked.
  unfold req, get_run_request, run_url.
  set (resp := server (log w) _).
  unfold raise_for_status, json, item, ret, raise, sleep.
  rewrite emit_extend.
  destruct (http_error (status_code resp)); cbv beta iota; [reflexivity|].
  destruct (resp_json resp) as [[j|]|]; cbv beta iota; try reflexivity.
  destruct (json_status j) as [status|]; cbv beta iota; [|reflexivity].
  destruct (is_terminal status); cbv beta iota; [reflexivity|].
  rewrite emit_extend, extend_extend. reflexivity.
Qed.

Lemma checked_status (resp : Response) (status : string) :
  checked resp "status" json_status = Ret status <->
  polled_status resp = Some status.
Proof.
  unfold checked, polled_status.
  destruct (http_error (status_code resp)); [split; discriminate|].
  destruct (resp_json resp) as [[j|]|]; try (split; discriminate).
  destruct (json_status j); split; intros H; try discriminate;
    injection H as <-; reflexivity.
Qed.

Lemma wait_returns (fuel : nat) (w w' : World) (status : string) :
  wait_for_run_completion server fuel thread_id run_id api_key w
  = (Ret status, w') ->
  is_terminal status = true /\
  exists rs rl,
    w' = extend (poll_events req rs ++ [Http req rl]) w /\
    answers server (log w) req (rs ++ [rl]) /\
    forallb still_running rs = true /\
    polled_status rl = Some status /\
    List.length rs < fuel.
Proof.
  revert w. induction fuel as [|fuel IH]; intros w Hrun.
  - discriminate Hrun.
  - rewrite wait_step in Hrun. cbv zeta in Hrun.
    destruct (checked (server (log w) req) "status" json_status)
      as [st|e|] eqn:Hc; try discriminate Hrun.
    apply checked_status in Hc.
    destruct (is_terminal st) eqn:Ht.
    + injection Hrun as <- <-. split; [exact Ht|].
      exists [], (server (log w) req). simpl.
      repeat apply conj; auto. lia.
    + apply IH in Hrun. destruct Hrun as [Hterm [rs [rl H]]].
      destruct H as [Hw [Hans [Hall [Hlast Hlen]]]].
      split; [exact Hterm|].
      exists (server (log w) req :: rs), rl. simpl.
      repeat apply conj.
      * rewrite Hw, extend_extend. reflexivity.
      * reflexivity.
      * exact Hans.
      * unfold still_running at 1. rewrite Hc, Ht. exact Hall.
      * exact Hlast.
      * lia.
Qed.

Lemma wait_completes (rs : list Response) (rl : Response) (status : string) :
  forall (w : World) (fuel : nat),
  answers server (log w) req (rs ++ [rl]) ->
  forallb still_running rs = true ->
  polled_status rl = Some status ->
  is_terminal status = true ->
  List.length rs < fuel ->
  wait_for_run_completion server fuel thread_id run_id api_key w =
  (Ret status, extend (poll_events req rs ++ [Http req rl]) w).
Proof.
  induction rs as [|r rs IH]; intros w fuel Hans Hall Hlast Hterm Hlen;
    (destruct fuel as [|fuel]; [simpl in Hlen; lia|]);
    rewrite wait_step; cbv zeta; simpl in Hans; destruct Hans as [Hr Hans].
  - rewrite Hr. apply checked_status in Hlast. rewrite Hlast, Hterm.
    reflexivity.
  - rewrite Hr. simpl in Hall. apply andb_true_iff in Hall.
    destruct Hall as [Hrun Hall]. unfold still_running in Hrun.
    destruct (polled_status r) as [st|] eqn:Hst; [|discriminate].
    apply checked_status in Hst. rewrite Hst.
    apply negb_true_iff in Hrun. rewrite Hrun.
    rewrite (IH (extend [Http req r; Sleep 1] w) fuel); auto.
    + rewrite extend_extend. reflexivity.
    + simpl in Hlen. lia.
Qed.

Lemma wait_spins (rs : list Response) :
  forall (w : World),
  answers server (log w) req rs ->
  forallb still_running rs = true ->
  wait_for_run_completion server (List.length rs) thread_id run_id api_key w =
  (Spinning, extend (poll_events req rs) w).
Proof.
  induction rs as [|r rs IH]; intros w Hans Hall.
  - simpl. now rewrite extend_nil.
  - simpl List.length. rewrite wait_step. cbv zeta.
    simpl in Hans. destruct Hans as [Hr Hans]. rewrite Hr.
    simpl in Hall. apply andb_true_iff in Hall.
    destruct Hall as [Hrun Hall]. unfold still_running in Hrun.
    destruct (polled_status r) as [st|] eqn:Hst; [|discriminate].
    apply checked_status in Hst. rewrite Hst.
    apply negb_true_iff in Hrun. rewrite Hrun.
    rewrite (IH (extend [Http req r; Sleep 1] w)); auto.
    rewrite extend_extend. reflexivity.
Qed.
End Polling.

Lemma is_terminal_iff (status : string) :
  is_terminal status = true <->
  status = "completed" \/ status = "failed" \/ status = "cancelled" \/
  status = "expired".
Proof.
  unfold is_terminal. simpl. rewrite !orb_true_iff, !String.eqb_eq.
  intuition discriminate.
Qed.

Lemma slow_server_answers (n : nat) (req : Request) (k : nat) :
  forall l, List.length (filter is_sleep l) + k = n ->
  answers (slow_server n) l req
    (repeat (run_reply "in_progress") k ++ [run_reply "completed"]).
Proof.
  induction k as [|k IH]; intros l Hl; simpl.
  - split; [|exact I]. unfold slow_server.
    destruct (Nat.ltb_spec (List.length (filter is_sleep l)) n); [lia|reflexivity].
  - split.
    + unfold slow_server.
      destruct (Nat.ltb_spec (List.length (filter is_sleep l)) n);
        [reflexivity|lia].
    + apply IH. rewrite filter_app, length_app. simpl. lia.
Qed.

Lemma answers_prefix (server : list Event -> Request -> Response)
    (req : Request) (rs rs' : list Response) :
  forall l, answers server l req (rs ++ rs') -> answers server l req rs.
Proof.
  induction rs as [|r rs IH]; intros l H; simpl in *; [exact I|].
  destruct H as [Hr H]. split; [exact Hr | now apply IH].
Qed.

Lemma busy_server_answers (req : Request) (k : nat) :
  forall l, answers busy_server l req (repeat (run_reply "in_progress") k).
Proof.
  induction k as [|k IH]; intros l; simpl; [exact I|].
  split; [reflexivity | apply IH].
Qed.

Lemma repeat_still_running (k : nat) :
  forallb still_running (repeat (run_reply "in_progress") k) = true.
Proof. induction k as [|k IH]; simpl; [reflexivity | exact IH]. Qed.

(** C7. [wait_for_run_completion] never returns a status that is not one of
    completed, failed, cancelled, expired. When it returns, the polls before
    the last one each read a non-terminal status and were each followed by a
    sleep of exactly 1, and the status returned is the one the last poll
    read: the first terminal status polled. Conversely, whenever the service
    answers some polls with non-terminal statuses and the next one with any
    of the four terminal statuses, the wait returns that status once the
    fuel exceeds the number of non-terminal polls. As long as the statuses
    polled are not terminal the loop keeps polling, and for every [n] there
    is a service on which it polls exactly [n + 1] times; on a service whose
    run never finishes it never returns. *)
Theorem wait_for_run_completion_first_terminal
    (server : list Event -> Request -> Response)
    (thread_id run_id api_key : string) :
  let req := get_run_request thread_id run_id api_key in
  (forall status,
     is_terminal status = true <->
     status = "completed" \/ status = "failed" \/ status = "cancelled" \/
     status = "expired") /\
  (forall fuel w w' status,
     wait_for_run_completion server fuel thread_id run_id api_key w
     = (Ret status, w') ->
     is_terminal status = true /\
     exists rs rl,
       w' = extend (poll_events req rs ++ [Http req rl]) w /\
       answers server (log w) req (rs ++ [rl]) /\
       forallb still_running rs = true /\
       polled_status rl = Some status /\
       List.length rs < fuel) /\
  (forall rs rl status w fuel,
     answers server (log w) req (rs ++ [rl]) ->
     forallb still_running rs = true ->
     polled_status rl = Some status ->
     is_terminal status = true ->
     List.length rs < fuel ->
     wait_for_run_completion server fuel thread_id run_id api_key w =
     (Ret status, extend (poll_events req rs ++ [Http req rl]) w)) /\
  (forall rs w,
     answers server (log w) req rs ->
     forallb still_running rs = true ->
     wait_for_run_completion server (List.length rs) thread_id run_id api_key w
     = (Spinning, extend (poll_events req rs) w)) /\
  (forall n w,
     log w = [] ->
     wait_for_run_completion (slow_server n) (S n) thread_id run_id api_key w =
     (Ret "completed",
      extend (poll_events req (repeat (run_reply "in_progress") n) ++
              [Http req (run_reply "completed")]) w) /\
     wait_for_run_completion (slow_server n) n thread_id run_id api_key w =
     (Spinning,
      extend (poll_events req (repeat (run_reply "in_progress") n)) w)) /\
  (forall fuel w,
     wait_for_run_completion busy_server fuel thread_id run_id api_key w =
     (Spinning,
      extend (poll_events req (repeat (run_reply "in_progress") fuel)) w)).
Proof.
  cbv zeta. repeat apply conj.
  - apply is_terminal_iff.
  - intros fuel w w' status. apply wait_returns.
  - intros rs rl status w fuel. apply wait_completes.
  - intros rs w. apply wait_spins.
  - intros n w Hw.
    assert (Hans : answers (slow_server n) (log w)
                     (get_run_request thread_id run_id api_key)
                     (repeat (run_reply "in_progress") n ++
                      [run_reply "completed"])).
    { apply slow_server_answers. rewrite Hw. reflexivity. }
    split.
    + apply wait_completes; auto using repeat_still_running.
      rewrite repeat_length. lia.
    + pose proof (wait_spins (slow_server n) thread_id run_id api_key
                    (repeat (run_reply "in_progress") n) w
                    (answers_prefix _ _ _ _ _ Hans)
                    (repeat_still_running n)) as H.
      rewrite repeat_length in H. exact H.
  - intros fuel w.
    pose proof (wait_spins busy_server thread_id run_id api_key
                  (repeat (run_reply "in_progress") fuel) w
                  (busy_server_answers _ _ _)
                  (repeat_still_running fuel)) as H.
    rewrite repeat_length in H. exact H.
Qed.

Lemma wait_for_run_completion_first_terminal_witness :
  wait_for_run_completion (slow_server 2) 3 "thread_1" "run_1" "sk"
    initial_world =
  (Ret "completed",
   extend
     [Http (get_run_request "thread_1" "run_1" "sk") (run_reply "in_progress");
      Sleep 1;
      Http (get_run_request "thread_1" "run_1" "sk") (run_reply "in_progress");
      Sleep 1;
      Http (get_run_request "thread_1" "run_1" "sk") (run_reply "completed")]
     initial_world).
Proof.
  exact (proj1 (proj1 (proj2 (proj2 (proj2 (proj2
    (wait_for_run_completion_first_terminal ok_server
       "thread_1" "run_1" "sk"))))) 2 initial_world eq_refl)).
Defined.

Example wait_returns_failed :
  fst (wait_for_run_completion (fun _ _ => run_reply "failed") 1
         "thread_1" "run_1" "sk" initial_world) = Ret "failed".
Proof. reflexivity. Qed.

(** ** HTTP errors *)

Lemma success_not_error (s : Z) : success s = true -> http_error s = false.
Proof.
  unfold success, http_error. intros H.
  apply andb_true_iff in H. destruct H as [H1 H2].
  apply Z.leb_le in H1. apply Z.ltb_lt in H2.
  apply andb_false_iff. left. apply Z.leb_gt. lia.
Qed.

Lemma error_free_not_exists (sts : list Z) :
  error_free sts -> ~ Exists (fun s => http_error s = true) sts.
Proof.
  unfold error_free. intros Hall Hex.
  apply Exists_exists in Hex. destruct Hex as [s [Hin Hs]].
  rewrite Forall_forall in Hall. specialize (Hall s Hin). congruence.
Qed.

Ltac no_http_error :=
  split;
  [ split;
    [ intros [s Hs]; discriminate Hs
    | intros Hex; now apply error_free_not_exists in Hex ]
  | discriminate ].

Lemma disciplined_contract {A : Type} (c : M A) :
  disciplined c -> remote_contract c.
Proof.
  intros Hd w. destruct (Hd w) as [evs [Hw Hlast]]. exists evs.
  rewrite Hw. simpl log. split; [reflexivity|].
  destruct (fst (c w)) as [a|e|] eqn:Ho; simpl in Hlast;
    [no_http_error | | no_http_error].
  destruct e as [k| |s| | |m]; try no_http_error.
  destruct Hlast as [pre [Hsts [Herr Hfree]]]. split.
  - split; [|intros _; now exists s].
    intros _. rewrite Hsts. apply Exists_app. right. now left.
  - intros s' Hs'. injection Hs' as <-. now exists pre.
Qed.

Lemma error_last_checked {A : Type} (evs : list Event) (resp : Response)
    (key : string) (field : JsonObject -> option A) :
  responses evs = [resp] ->
  error_last evs (checked resp key field).
Proof.
  intros Hr. unfold checked, error_last, statuses.
  rewrite Hr. simpl.
  destruct (http_error (status_code resp)) eqn:He.
  - exists []. repeat apply conj; [reflexivity | exact He | constructor].
  - assert (Hfree : error_free [status_code resp]) by (repeat constructor; exact He).
    destruct (resp_json resp) as [[j|]|]; try exact Hfree.
    destruct (field j); exact Hfree.
Qed.

Lemma error_last_checked_json (evs : list Event) (resp : Response) :
  responses evs = [resp] -> error_last evs (checked_json resp).
Proof.
  intros Hr. unfold checked_json, error_last, statuses.
  rewrite Hr. simpl.
  destruct (http_error (status_code resp)) eqn:He.
  - exists []. repeat apply conj; [reflexivity | exact He | constructor].
  - assert (Hfree : error_free [status_code resp]) by (repeat constructor; exact He).
    destruct (resp_json resp); exact Hfree.
Qed.

Lemma error_last_app {A : Type} (evs1 evs2 : list Event) (o : Outcome A) :
  error_free (statuses evs1) -> error_last evs2 o ->
  error_last (evs1 ++ evs2) o.
Proof.
  intros H1 H2. unfold error_last in *.
  rewrite statuses_app.
  destruct o as [a|[k| |s| | |m]|]; try (now apply Forall_app).
  destruct H2 as [pre [Hsts [Herr Hfree]]].
  exists (statuses evs1 ++ pre). rewrite Hsts, app_assoc.
  repeat apply conj; [reflexivity | exact Herr | now apply Forall_app].
Qed.

(** A success is answered with the value of the key, when the body has it,
    and never with an [HTTPError]. *)
Lemma checked_on_success {A : Type} (resp : Response) (key : string)
    (field : JsonObject -> option A) :
  success (status_code resp) = true ->
  (forall s, checked resp key field <> Raise (HTTPError s)) /\
  (forall j v, resp_json resp = Some (JObject j) -> field j = Some v ->
     checked resp key field = Ret v).
Proof.
  intros Hs. apply success_not_error in Hs. unfold checked. rewrite Hs.
  split.
  - intros s. destruct (resp_json resp) as [[j|]|]; try discriminate.
    destruct (field j); discriminate.
  - intros j v -> ->. reflexivity.
Qed.

Lemma checked_json_on_success (resp : Response) :
  success (status_code resp) = true ->
  (forall s, checked_json resp <> Raise (HTTPError s)) /\
  (forall v, resp_json resp = Some v -> checked_json resp = Ret v).
Proof.
  intros Hs. apply success_not_error in Hs. unfold checked_json. rewrite Hs.
  split.
  - intros s. destruct (resp_json resp); discriminate.
  - intros v ->. reflexivity.
Qed.

Section Discipline.
Variable server : list Event -> Request -> Response.

(** One checked call: the request, [raise_for_status], then one key of
    the JSON body. *)
Lemma checked_call_run {A : Type} (req : Request) (key : string)
    (field : JsonObject -> option A) (w : World) :
  (resp <- request server req ;;
   raise_for_status resp ;;
   j <- json resp ;;
   item key field j) w =
  (checked (server (log w) req) key field,
   extend [Http req (server (log w) req)] w).
Proof.
  unfold request, bind, raise_for_status, json, item, checked, ret, raise.
  rewrite emit_extend.
  destruct (http_error _); cbv beta iota; [reflexivity|].
  destruct (resp_json _) as [[j|]|]; cbv beta iota; try reflexivity.
  destruct (field j); reflexivity.
Qed.

Lemma list_messages_run (thread_id api_key : string) (w : World) :
  let req := list_messages_request thread_id api_key in
  list_messages server thread_id api_key w =
  (checked (server (log w) req) "data" json_data,
   extend [Http req (server (log w) req)] w).
Proof. apply checked_call_run. Qed.

Lemma create_run_run (thread_id api_key assistant_id : string) (w : World) :
  let req := create_run_request thread_id api_key assistant_id in
  create_run server thread_id api_key assistant_id w =
  (checked (server (log w) req) "id" json_id,
   extend [Http req (server (log w) req)] w).
Proof. apply checked_call_run. Qed.

Lemma create_thread_disciplined (api_key : string) :
  disciplined (create_thread server api_key).
Proof.
  intros w. rewrite create_thread_run. cbv zeta. eexists.
  split; [reflexivity|]. simpl fst.
  apply error_last_checked.
  simpl. now rewrite responses_diagnostics.
Qed.

Lemma upload_file_disciplined (api_key : string) (bs : list byte)
    (fname : string) :
  disciplined (upload_file server api_key bs fname).
Proof.
  intros w. rewrite upload_file_run. cbv zeta. eexists.
  split; [reflexivity|]. simpl fst.
  apply error_last_checked.
  simpl. now rewrite responses_diagnostics.
Qed.

Lemma list_messages_disciplined (thread_id api_key : string) :
  disciplined (list_messages server thread_id api_key).
Proof.
  intros w. rewrite list_messages_run. cbv zeta. eexists.
  split; [reflexivity|]. simpl fst.
  now apply error_last_checked.
Qed.

Lemma create_run_disciplined (thread_id api_key assistant_id : string) :
  disciplined (create_run server thread_id api_key assistant_id).
Proof.
  intros w. rewrite create_run_run. cbv zeta. eexists.
  split; [reflexivity|]. simpl fst.
  now apply error_last_checked.
Qed.

Lemma send_message_disciplined (thread_id content api_key : string)
    (image_bytes : option (list byte)) (image_filename : option string) :
  disciplined
    (send_message server thread_id content api_key image_bytes image_filename).
Proof.
  intros w.
  destruct (image_supplied image_bytes image_filename) as [[bs fname]|] eqn:Hs.
  - rewrite (send_message_run_image server _ _ _ _ _ bs fname w Hs).
    destruct (upload_file_disciplined api_key bs fname w) as [evs [Hw Hlast]].
    destruct (upload_file server api_key bs fname w) as [[fid|e|] w1];
      simpl in Hw, Hlast; subst w1.
    + unfold post_message. rewrite extend_extend. eexists.
      split; [reflexivity|]. simpl fst.
      apply error_last_app; [exact Hlast|].
      now apply error_last_checked_json.
    + exists evs. split; [reflexivity | exact Hlast].
    + exists evs. split; [reflexivity | exact Hlast].
  - rewrite (send_message_run_plain server _ _ _ _ _ w Hs).
    unfold post_message. eexists. split; [reflexivity|]. simpl fst.
    now apply error_last_checked_json.
Qed.

Lemma wait_disciplined (fuel : nat) (thread_id run_id api_key : string) :
  disciplined
    (wait_for_run_completion server fuel thread_id run_id api_key).
Proof.
  induction fuel as [|fuel IH]; intros w.
  - exists []. rewrite extend_nil. split; [reflexivity | constructor].
  - rewrite wait_step. cbv zeta.
    set (req := get_run_request thread_id run_id api_key).
    set (resp := server (log w) req).
    pose proof (error_last_checked [Http req resp] resp "status" json_status
                  eq_refl) as Hc.
    destruct (checked resp "status" json_status) as [st|e|] eqn:Hck.
    + destruct (is_terminal st).
      * eexists. split; [reflexivity | exact Hc].
      * destruct (IH (extend [Http req resp; Sleep 1] w)) as [evs [Hw Hl]].
        exists ([Http req resp; Sleep 1] ++ evs).
        rewrite Hw, extend_extend. split; [reflexivity|].
        apply error_last_app; [exact Hc | exact Hl].
    + eexists. split; [reflexivity | exact Hc].
    + eexists. split; [reflexivity | exact Hc].
Qed.
Lemma create_thread_on_success (api_key : string) :
  returns_on_success server (create_thread server api_key)
    (create_thread_request api_key) json_id.
Proof.
  intros w resp Hs. rewrite create_thread_run. cbv zeta. simpl fst.
  now apply checked_on_success.
Qed.

Lemma upload_file_on_success (api_key : string) (bs : list byte)
    (fname : string) :
  returns_on_success server (upload_file server api_key bs fname)
    (upload_request api_key bs fname) json_id.
Proof.
  intros w resp Hs. rewrite upload_file_run. cbv zeta. simpl fst.
  now apply checked_on_success.
Qed.

Lemma list_messages_on_success (thread_id api_key : string) :
  returns_on_success server (list_messages server thread_id api_key)
    (list_messages_request thread_id api_key) json_data.
Proof.
  intros w resp Hs. rewrite list_messages_run. cbv zeta. simpl fst.
  now apply checked_on_success.
Qed.

Lemma create_run_on_success (thread_id api_key assistant_id : string) :
  returns_on_success server (create_run server thread_id api_key assistant_id)
    (create_run_request thread_id api_key assistant_id) json_id.
Proof.
  intros w resp Hs. rewrite create_run_run. cbv zeta. simpl fst.
  now apply checked_on_success.
Qed.

(** The message call of [send_message] on a success: any JSON body is
    returned as it is. *)
Lemma send_message_on_success (thread_id content api_key : string)
    (image_bytes : option (list byte)) (image_filename : option string)
    (w : World) :
  image_supplied image_bytes image_filename = None ->
  let run :=
    send_message server thread_id content api_key image_bytes image_filename
      w in
  let resp :=
    server (log w)
      (create_message_request thread_id api_key [text_block content]) in
  success (status_code resp) = true ->
  (forall s, fst run <> Raise (HTTPError s)) /\
  (forall v, resp_json resp = Some v -> fst run = Ret v).
Proof.
  intros Hn run resp Hs. subst run.
  rewrite (send_message_run_plain server _ _ _ _ _ w Hn).
  unfold post_message. simpl fst. now apply checked_json_on_success.
Qed.

Lemma send_message_image_on_success (thread_id content api_key : string)
    (image_bytes : option (list byte)) (image_filename : option string)
    (bs : list byte) (fname file_id : string) (w : World) :
  image_supplied image_bytes image_filename = Some (bs, fname) ->
  let upload := upload_file server api_key bs fname w in
  let run :=
    send_message server thread_id content api_key image_bytes image_filename
      w in
  let resp :=
    server (log (snd upload))
      (create_message_request thread_id api_key
         [text_block content; OutImageFile file_id]) in
  fst upload = Ret file_id ->
  success (status_code resp) = true ->
  (forall s, fst run <> Raise (HTTPError s)) /\
  (forall v, resp_json resp = Some v -> fst run = Ret v).
Proof.
  intros Hi upload run resp Hup Hs. subst run resp upload.
  rewrite (send_message_run_image server _ _ _ _ _ bs fname w Hi).
  destruct (upload_file server api_key bs fname w) as [o w1].
  simpl in Hup, Hs. subst o. simpl in Hs |- *.
  unfold post_message. simpl fst. now apply checked_json_on_success.
Qed.

(** A poll answered with a success and a status does not fail the wait: a
    terminal status is returned, any other one is followed by the sleep and
    the next poll. *)
Lemma wait_poll_on_success (fuel : nat) (thread_id run_id api_key : string)
    (w : World) (status : string) :
  let req := get_run_request thread_id run_id api_key in
  let resp := server (log w) req in
  polled_status resp = Some status ->
  wait_for_run_completion server (S fuel) thread_id run_id api_key w =
  if is_terminal status then (Ret status, extend [Http req resp] w)
  else wait_for_run_completion server fuel thread_id run_id api_key
         (extend [Http req resp; Sleep 1] w).
Proof.
  intros req resp Hst. rewrite wait_step. cbv zeta.
  apply checked_status in Hst. fold req. fold resp. now rewrite Hst.
Qed.

Lemma good_poll_status (resp : Response) :
  good_poll resp = true ->
  exists status, checked resp "status" json_status = Ret status.
Proof.
  unfold good_poll. intros H. apply andb_true_iff in H. destruct H as [_ H].
  destruct (polled_status resp) as [st|] eqn:Hst; [|discriminate].
  exists st. now apply checked_status.
Qed.

(** When every poll is answered with a success and a status, the wait does
    not fail. *)
Lemma wait_good_polls (fuel : nat) (thread_id run_id api_key : string) :
  forall w,
  let run := wait_for_run_completion server fuel thread_id run_id api_key w in
  forallb good_poll (responses (events_since w (snd run))) = true ->
  forall e, fst run <> Raise e.
Proof.
  induction fuel as [|fuel IH]; intros w run Hgood e; subst run.
  - discriminate.
  - revert Hgood. rewrite wait_step. cbv zeta.
    set (req := get_run_request thread_id run_id api_key).
    set (resp := server (log w) req).
    destruct (checked resp "status" json_status) as [st|e'|] eqn:Hck.
    + destruct (is_terminal st); [discriminate|].
      intros Hgood. apply IH.
      destruct (wait_disciplined fuel thread_id run_id api_key
                  (extend [Http req resp; Sleep 1] w)) as [evs [Hw _]].
      rewrite Hw in Hgood |- *. rewrite events_since_extend.
      rewrite events_since_extend2, responses_app, forallb_app in Hgood.
      apply andb_true_iff in Hgood. apply Hgood.
    + simpl snd. rewrite events_since_extend. simpl. intros Hgood.
      apply andb_true_iff in Hgood. destruct Hgood as [Hgood _].
      apply good_poll_status in Hgood. destruct Hgood as [st Hst].
      congruence.
    + discriminate.
Qed.
End Discipline.

(** C9, as stated, fails: [raise_for_status] raises on the statuses from 400
    to 599 only, so a response with status 300 (not a 2xx) and a JSON body
    makes [create_thread] return normally. *)
Lemma non_2xx_without_failure_counterexample :
  success 300 = false /\
  fst (create_thread multiple_choices_server "sk" initial_world)
  = Ret "thread_1" /\
  ~ fails_exactly_on_non_2xx.
Proof.
  repeat apply conj; try reflexivity.
  intros H.
  destruct (H multiple_choices_server "sk" initial_world) as [_ Hfail].
  destruct (Hfail eq_refl) as [s Hs].
  vm_compute in Hs. discriminate Hs.
Qed.

Lemma http_error_iff (s : Z) :
  http_error s = true <-> (400 <= s < 600)%Z.
Proof.
  unfold http_error. rewrite andb_true_iff, Z.leb_le, Z.ltb_lt. reflexivity.
Qed.

(** C9 (amended). Each remote operation (create thread, upload file, create
    message, list messages, create run, and the polls of the wait) raises
    [HTTPError] exactly when one of its responses has a status from 400 to
    599, which is what [raise_for_status] treats as an error; the failing
    response is the last one the operation receives, so nothing is retried.
    The operations other than the wait and the message with an image
    receive exactly one response. On a success (2xx) no operation raises
    [HTTPError], and each returns what it reads as soon as the body holds
    it: the id of the thread, of the file and of the run, the list under
    [data], the JSON body of the created message, whatever it is, and, for a
    poll, the status, which ends the wait when it is terminal and is
    followed by the sleep and the next poll when it is not; a wait whose
    polls are all answered with a success and a status does not fail. *)
Theorem remote_operations_contract
    (server : list Event -> Request -> Response) :
  (forall s, http_error s = true <-> (400 <= s < 600)%Z) /\
  (forall s, success s = true -> http_error s = false) /\
  (forall api_key, remote_contract (create_thread server api_key)) /\
  (forall api_key bs fname,
     remote_contract (upload_file server api_key bs fname)) /\
  (forall thread_id content api_key image_bytes image_filename,
     remote_contract
       (send_message server thread_id content api_key image_bytes
          image_filename)) /\
  (forall thread_id api_key,
     remote_contract (list_messages server thread_id api_key)) /\
  (forall thread_id api_key assistant_id,
     remote_contract (create_run server thread_id api_key assistant_id)) /\
  (forall fuel thread_id run_id api_key,
     remote_contract
       (wait_for_run_completion server fuel thread_id run_id api_key)) /\
  (forall api_key w,
     responses (events_since w (snd (create_thread server api_key w))) =
     [server (log w) (create_thread_request api_key)]) /\
  (forall api_key bs fname w,
     responses (events_since w (snd (upload_file server api_key bs fname w))) =
     [server (log w) (upload_request api_key bs fname)]) /\
  (forall thread_id content api_key w,
     responses (events_since w
       (snd (send_message server thread_id content api_key None None w))) =
     [server (log w)
        (create_message_request thread_id api_key [text_block content])]) /\
  (forall thread_id api_key w,
     responses (events_since w (snd (list_messages server thread_id api_key w))) =
     [server (log w) (list_messages_request thread_id api_key)]) /\
  (forall thread_id api_key assistant_id w,
     responses (events_since w
       (snd (create_run server thread_id api_key assistant_id w))) =
     [server (log w) (create_run_request thread_id api_key assistant_id)]) /\
  (forall api_key,
     returns_on_success server (create_thread server api_key)
       (create_thread_request api_key) json_id) /\
  (forall api_key bs fname,
     returns_on_success server (upload_file server api_key bs fname)
       (upload_request api_key bs fname) json_id) /\
  (forall thread_id api_key,
     returns_on_success server (list_messages server thread_id api_key)
       (list_messages_request thread_id api_key) json_data) /\
  (forall thread_id api_key assistant_id,
     returns_on_success server
       (create_run server thread_id api_key assistant_id)
       (create_run_request thread_id api_key assistant_id) json_id) /\
  (forall thread_id content api_key image_bytes image_filename w,
     image_supplied image_bytes image_filename = None ->
     let run :=
       send_message server thread_id content api_key image_bytes
         image_filename w in
     let resp :=
       server (log w)
         (create_message_request thread_id api_key [text_block content]) in
     success (status_code resp) = true ->
     (forall s, fst run <> Raise (HTTPError s)) /\
     (forall v, resp_json resp = Some v -> fst run = Ret v)) /\
  (forall thread_id content api_key image_bytes image_filename bs fname
          file_id w,
     image_supplied image_bytes image_filename = Some (bs, fname) ->
     let upload := upload_file server api_key bs fname w in
     let run :=
       send_message server thread_id content api_key image_bytes
         image_filename w in
     let resp :=
       server (log (snd upload))
         (create_message_request thread_id api_key
            [text_block content; OutImageFile file_id]) in
     fst upload = Ret file_id ->
     success (status_code resp) = true ->
     (forall s, fst run <> Raise (HTTPError s)) /\
     (forall v, resp_json resp = Some v -> fst run = Ret v)) /\
  (forall fuel thread_id run_id api_key w status,
     let req := get_run_request thread_id run_id api_key in
     let resp := server (log w) req in
     polled_status resp = Some status ->
     wait_for_run_completion server (S fuel) thread_id run_id api_key w =
     if is_terminal status then (Ret status, extend [Http req resp] w)
     else wait_for_run_completion server fuel thread_id run_id api_key
            (extend [Http req resp; Sleep 1] w)) /\
  (forall fuel thread_id run_id api_key w,
     let run :=
       wait_for_run_completion server fuel thread_id run_id api_key w in
     forallb good_poll (responses (events_since w (snd run))) = true ->
     forall e, fst run <> Raise e).
Proof.
  refine (conj http_error_iff (conj success_not_error _)).
  refine (conj _ (conj _ (conj _ (conj _ (conj _ (conj _ _)))))).
  - intros. apply disciplined_contract, create_thread_disciplined.
  - intros. apply disciplined_contract, upload_file_disciplined.
  - intros. apply disciplined_contract, send_message_disciplined.
  - intros. apply disciplined_contract, list_messages_disciplined.
  - intros. apply disciplined_contract, create_run_disciplined.
  - intros. apply disciplined_contract, wait_disciplined.
  - refine (conj _ (conj _ (conj _ (conj _ (conj _ _))))).
    + intros. rewrite create_thread_run. cbv zeta. simpl snd.
      rewrite events_since_extend. simpl. now rewrite responses_diagnostics.
    + intros. rewrite upload_file_run. cbv zeta. simpl snd.
      rewrite events_since_extend. simpl. now rewrite responses_diagnostics.
    + intros. rewrite (send_message_run_plain server _ _ _ None None w eq_refl).
      unfold post_message. simpl snd. now rewrite events_since_extend.
    + intros. rewrite list_messages_run. cbv zeta. simpl snd.
      now rewrite events_since_extend.
    + intros. rewrite create_run_run. cbv zeta. simpl snd.
      now rewrite events_since_extend.
    + refine (conj _ (conj _ (conj _ (conj _ (conj _ (conj _ (conj _ _))))))).
      * intros. apply create_thread_on_success.
      * intros. apply upload_file_on_success.
      * intros. apply list_messages_on_success.
      * intros. apply create_run_on_success.
      * intros tid content key ib ifn w Hn.
        exact (send_message_on_success server tid content key ib ifn w Hn).
      * intros tid content key ib ifn bs fname fid w Hi.
        exact (send_message_image_on_success server tid content key ib ifn
                 bs fname fid w Hi).
      * intros fuel tid rid key w status.
        exact (wait_poll_on_success server fuel tid rid key w status).
      * intros fuel tid rid key w.
        exact (wait_good_polls server fuel tid rid key w).
Qed.

Lemma remote_operations_contract_witness :
  http_error 200 = false /\
  remote_contract (create_thread ok_server "sk") /\
  returns_on_success ok_server (create_thread ok_server "sk")
    (create_thread_request "sk") json_id.
Proof.
  refine (conj _ (conj _ _)).
  - exact (proj1 (proj2 (remote_operations_contract ok_server)) 200%Z eq_refl).
  - exact (proj1 (proj2 (proj2 (remote_operations_contract ok_server))) "sk").
  - exact (proj1 (proj2 (proj2 (proj2 (proj2 (proj2 (proj2 (proj2 (proj2
             (proj2 (proj2 (proj2 (proj2 (proj2
               (remote_operations_contract ok_server)))))))))))))) "sk").
Defined.

(** A thread object as the service returns it, with its id and nothing
    else the program reads, is enough for [create_thread] to return. *)
Example create_thread_on_thread_object :
  fst (create_thread
         (fun _ _ =>
            reply 200 (Some {| json_id := Some "thread_abc";
                               json_status := None; json_data := None |}))
         "sk" initial_world) = Ret "thread_abc".
Proof. reflexivity. Qed.

Example create_thread_on_500 :
  create_thread (fun _ _ => reply 500 None) "sk" initial_world =
  (Raise (HTTPError 500),
   extend [Http (create_thread_request "sk") (reply 500 None);
           Printed "Resposta da API: body"] initial_world).
Proof. reflexivity. Qed.

(** ** The submission cycle and the thread id *)

Lemma events_since_log (w w' : World) (evs : list Event) :
  log w' = log w ++ evs -> events_since w w' = evs.
Proof. unfold events_since. intros ->. apply skipn_length_app. Qed.

Lemma on_thread_not_create (t : string) (e : Event) :
  on_thread t e -> is_create_thread_call e = false.
Proof.
  destruct e as [req resp|line|secs]; try reflexivity.
  unfold on_thread, thread_request, is_create_thread_call, is_post_to.
  destruct (method req); [reflexivity|].
  intros [H|[H|[H|[run_id H]]]]; rewrite H; reflexivity.
Qed.

Lemma on_thread_filter (t : string) (evs : list Event) :
  Forall (on_thread t) evs -> filter is_create_thread_call evs = [].
Proof.
  induction 1 as [|e evs He _ IH]; simpl; [reflexivity|].
  now rewrite (on_thread_not_create t e He).
Qed.

Section Keeps.
Variable server : list Event -> Request -> Response.
Variable t : string.

Lemma keeps_ret {A : Type} (a : A) : keeps t (ret a).
Proof.
  intros w Hw. exists []. simpl. rewrite app_nil_r. auto.
Qed.

Lemma keeps_raise {A : Type} (e : Exn) : keeps t (@raise A e).
Proof.
  intros w Hw. exists []. simpl. rewrite app_nil_r. auto.
Qed.

Lemma keeps_bind {A B : Type} (c : M A) (k : A -> M B) :
  keeps t c -> (forall a, keeps t (k a)) -> keeps t (bind c k).
Proof.
  intros Hc Hk w Hw. unfold bind.
  destruct (Hc w Hw) as [evs1 [Hl1 [Ht1 Hf1]]].
  destruct (c w) as [[a|e|] w1]; simpl in Hl1, Ht1.
  - destruct (Hk a w1 Ht1) as [evs2 [Hl2 [Ht2 Hf2]]].
    exists (evs1 ++ evs2). repeat apply conj.
    + now rewrite Hl2, Hl1, app_assoc.
    + exact Ht2.
    + now apply Forall_app.
  - exists evs1. auto.
  - exists evs1. auto.
Qed.

(** Reading the thread id of the session yields [t]. *)
Lemma keeps_session {B : Type} (k : string -> M B) :
  keeps t (k t) -> keeps t (bind session_thread_id k).
Proof.
  intros Hk w Hw. unfold session_thread_id, get_thread_id, ret, bind.
  cbv beta iota. rewrite Hw. exact (Hk w Hw).
Qed.

Lemma keeps_event {A : Type} (a : A) (e : Event) :
  on_thread t e -> keeps t (fun w => (Ret a, emit e w)).
Proof.
  intros He w Hw. exists [e]. simpl. auto.
Qed.

Lemma keeps_request (req : Request) :
  thread_request t req -> keeps t (request server req).
Proof.
  intros He w Hw. exists [Http req (server (log w) req)]. simpl. auto.
Qed.

Lemma keeps_raise_for_status (resp : Response) :
  keeps t (raise_for_status resp).
Proof.
  unfold raise_for_status.
  destruct (http_error _); [apply keeps_raise | apply keeps_ret].
Qed.

Lemma keeps_json (resp : Response) : keeps t (json resp).
Proof.
  unfold json. destruct (resp_json _); [apply keeps_ret | apply keeps_raise].
Qed.

Lemma keeps_item {A : Type} (key : string) (field : JsonObject -> option A)
    (obj : Json) :
  keeps t (item key field obj).
Proof.
  unfold item. destruct obj as [j|]; [|apply keeps_raise].
  destruct (field j); [apply keeps_ret | apply keeps_raise].
Qed.

Lemma keeps_lift {A : Type} (r : Result A) : keeps t (lift r).
Proof. destruct r; [apply keeps_ret | apply keeps_raise]. Qed.

Lemma keeps_put_messages (h : list Turn) : keeps t (put_messages h).
Proof. intros w Hw. exists []. simpl. rewrite app_nil_r. auto. Qed.

Ltac keeps_step :=
  first
    [ apply keeps_session
    | apply keeps_bind; [|intros ?]
    | apply keeps_ret
    | apply keeps_raise_for_status
    | apply keeps_json
    | apply keeps_item
    | apply keeps_lift
    | apply keeps_put_messages
    | apply keeps_event; exact I ].

Lemma keeps_upload_file (api_key : string) (bs : list byte) (fname : string) :
  keeps t (upload_file server api_key bs fname).
Proof.
  unfold upload_file, requests_post, print.
  keeps_step; [apply keeps_request; left; reflexivity|].
  keeps_step; [|repeat keeps_step].
  destruct (status_code _ =? 200)%Z; keeps_step.
Qed.

Lemma keeps_send_message (content api_key : string)
    (image_bytes : option (list byte)) (image_filename : option string) :
  keeps t
    (send_message server t content api_key image_bytes image_filename).
Proof.
  unfold send_message, requests_post. cbv zeta.
  keeps_step.
  - destruct (image_supplied image_bytes image_filename) as [[bs fname]|];
      [|keeps_step].
    keeps_step; [apply keeps_upload_file | keeps_step].
  - keeps_step; [|repeat keeps_step].
    apply keeps_request. right; left. reflexivity.
Qed.

Lemma keeps_create_run (api_key assistant_id : string) :
  keeps t (create_run server t api_key assistant_id).
Proof.
  unfold create_run, requests_post.
  keeps_step; [|repeat keeps_step].
  apply keeps_request. right; right; left. reflexivity.
Qed.

Lemma keeps_list_messages (api_key : string) :
  keeps t (list_messages server t api_key).
Proof.
  unfold list_messages, requests_get.
  keeps_step; [|repeat keeps_step].
  apply keeps_request. right; left. reflexivity.
Qed.

Lemma keeps_wait (fuel : nat) (run_id api_key : string) :
  keeps t (wait_for_run_completion server fuel t run_id api_key).
Proof.
  induction fuel as [|fuel IH].
  - intros w Hw. exists []. simpl. rewrite app_nil_r. auto.
  - cbn [wait_for_run_completion]. unfold requests_get, sleep.
    keeps_step.
    { apply keeps_request. right; right; right. exists run_id. reflexivity. }
    do 3 (keeps_step; [keeps_step|]).
    destruct (is_terminal _); [keeps_step|].
    keeps_step; [keeps_step | exact IH].
Qed.

Lemma keeps_submit_tail (fuel : nat) (api_key prompt : string)
    (image_file : option UploadedFile) :
  keeps t (submit_tail server fuel api_key prompt image_file).
Proof.
  unfold submit_tail.
  keeps_step. keeps_step; [apply keeps_send_message|].
  keeps_step. keeps_step; [apply keeps_create_run|].
  keeps_step. keeps_step; [apply keeps_wait|].
  keeps_step. keeps_step; [apply keeps_list_messages|].
  keeps_step; [keeps_step|]. keeps_step.
Qed.
End Keeps.

Lemma submit_run_display_error (server : list Event -> Request -> Response)
    (fuel : nat) (api_key : string) (c : ascii) (prompt : string)
    (image_file : option UploadedFile) (w : World) (e : Exn) :
  display_error image_file = Some e ->
  submit server fuel api_key (String c prompt) image_file w =
  (Raise e, echo (String c prompt) w).
Proof.
  intros Hs. destruct image_file as [image|]; [|discriminate Hs].
  simpl in Hs. unfold submit. cbv zeta.
  unfold bind at 1, append_message. cbv beta iota.
  fold (echo (String c prompt) w).
  unfold bind at 1, st_image. rewrite Hs. reflexivity.
Qed.

Lemma submit_run_hidden (server : list Event -> Request -> Response)
    (fuel : nat) (api_key : string) (c : ascii) (prompt : string)
    (image_file : option UploadedFile) (w : World) :
  shows image_file = false ->
  exists e,
    display_error image_file = Some e /\
    submit server fuel api_key (String c prompt) image_file w =
    (Raise e, echo (String c prompt) w).
Proof.
  unfold shows. intros Hs.
  destruct (display_error image_file) as [e|] eqn:He; [|discriminate Hs].
  exists e. split; [reflexivity|]. now apply submit_run_display_error.
Qed.

Lemma submit_run_shown (server : list Event -> Request -> Response)
    (fuel : nat) (api_key : string) (c : ascii) (prompt : string)
    (image_file : option UploadedFile) (w : World) :
  shows image_file = true ->
  submit server fuel api_key (String c prompt) image_file w =
  (current <- get_thread_id ;;
   (if negb (truthy current) then
      t <- create_thread server api_key ;;
      put_thread_id t
    else ret tt) ;;
   submit_tail server fuel api_key (String c prompt) image_file)
    (echo (String c prompt) w).
Proof.
  intros Hs. unfold submit. cbv zeta.
  unfold bind at 1, append_message. cbv beta iota.
  fold (echo (String c prompt) w).
  unfold bind at 1.
  destruct image_file as [image|]; [|reflexivity].
  unfold shows in Hs. simpl in Hs. unfold st_image.
  destruct (st_image_error image); [discriminate Hs | reflexivity].
Qed.

Lemma submit_run_set (server : list Event -> Request -> Response)
    (fuel : nat) (api_key : string) (c : ascii) (prompt : string)
    (image_file : option UploadedFile) (w : World) :
  shows image_file = true ->
  truthy (thread_id w) = true ->
  submit server fuel api_key (String c prompt) image_file w =
  submit_tail server fuel api_key (String c prompt) image_file
    (echo (String c prompt) w).
Proof.
  intros Hs Ht. rewrite (submit_run_shown _ _ _ _ _ _ _ Hs).
  unfold bind at 1, get_thread_id. cbv beta iota.
  change (thread_id (echo (String c prompt) w)) with (thread_id w).
  rewrite Ht. reflexivity.
Qed.

Lemma submit_run_unset (server : list Event -> Request -> Response)
    (fuel : nat) (api_key : string) (c : ascii) (prompt : string)
    (image_file : option UploadedFile) (w : World) :
  shows image_file = true ->
  truthy (thread_id w) = false ->
  submit server fuel api_key (String c prompt) image_file w =
  match create_thread server api_key (echo (String c prompt) w) with
  | (Ret t, w1) =>
      submit_tail server fuel api_key (String c prompt) image_file
        (set_thread_id (Some t) w1)
  | (Raise e, w1) => (Raise e, w1)
  | (Spinning, w1) => (Spinning, w1)
  end.
Proof.
  intros Hs Ht. rewrite (submit_run_shown _ _ _ _ _ _ _ Hs).
  unfold bind at 1, get_thread_id. cbv beta iota.
  change (thread_id (echo (String c prompt) w)) with (thread_id w).
  rewrite Ht. simpl negb. cbv beta iota.
  unfold bind at 1. unfold bind at 1.
  destruct (create_thread server api_key (echo (String c prompt) w))
    as [[t|e|] w1]; reflexivity.
Qed.

Lemma truthy_some (o : option string) :
  truthy o = true <-> exists t, o = Some t /\ t <> "".
Proof.
  destruct o as [[|c s]|]; simpl; split;
    try discriminate; try (intros [t [H1 H2]]; congruence).
  intros _. exists (String c s). split; [reflexivity | discriminate].
Qed.

Lemma submit_keeps_thread (server : list Event -> Request -> Response)
    (fuel : nat) (api_key prompt : string) (image_file : option UploadedFile)
    (t : string) (w : World) :
  thread_id w = Some t -> t <> "" ->
  exists evs,
    log (snd (submit server fuel api_key prompt image_file w)) = log w ++ evs /\
    thread_id (snd (submit server fuel api_key prompt image_file w)) = Some t /\
    Forall (on_thread t) evs.
Proof.
  intros Hw Ht. destruct prompt as [|c prompt].
  - exists []. simpl. rewrite app_nil_r. auto.
  - destruct (shows image_file) eqn:Hs.
    + rewrite submit_run_set
        by (try exact Hs; apply truthy_some; exists t; auto).
      apply (keeps_submit_tail server t fuel api_key (String c prompt)
               image_file (echo (String c prompt) w)). exact Hw.
    + destruct (submit_run_hidden server fuel api_key c prompt image_file w
                  Hs) as [e [_ ->]].
      exists []. simpl. rewrite app_nil_r. auto.
Qed.

Lemma conversation_keeps_thread (server : list Event -> Request -> Response)
    (fuel : nat) (api_key : string) (t : string)
    (inputs : list (string * option UploadedFile)) :
  t <> "" ->
  forall w,
  thread_id w = Some t ->
  exists evs,
    log (conversation server fuel api_key inputs w) = log w ++ evs /\
    thread_id (conversation server fuel api_key inputs w) = Some t /\
    Forall (on_thread t) evs.
Proof.
  intros Ht.
  induction inputs as [|[prompt image_file] inputs IH]; intros w Hw.
  - exists []. simpl. rewrite app_nil_r. auto.
  - simpl conversation.
    destruct (submit_keeps_thread server fuel api_key prompt image_file t w
                Hw Ht) as [evs1 [Hl1 [Ht1 Hf1]]].
    destruct (IH (snd (submit server fuel api_key prompt image_file w)) Ht1)
      as [evs2 [Hl2 [Ht2 Hf2]]].
    exists (evs1 ++ evs2). repeat apply conj.
    + now rewrite Hl2, Hl1, app_assoc.
    + exact Ht2.
    + now apply Forall_app.
Qed.


Lemma create_thread_is_create_thread (api_key : string) (resp : Response) :
  is_create_thread_call (Http (create_thread_request api_key) resp) = true.
Proof. reflexivity. Qed.

Lemma created_threads_app (evs1 evs2 : list Event) :
  created_threads (evs1 ++ evs2) = created_threads evs1 ++ created_threads evs2.
Proof. apply flat_map_app. Qed.

Lemma created_threads_none (evs : list Event) :
  filter is_create_thread_call evs = [] -> created_threads evs = [].
Proof.
  induction evs as [|e evs IH]; [reflexivity|].
  cbn [filter]. destruct (is_create_thread_call e) eqn:He; [discriminate|].
  intros H. unfold created_threads. cbn [flat_map].
  fold (created_threads evs). rewrite (IH H).
  destruct e as [req resp|line|secs]; [|reflexivity..].
  now rewrite He.
Qed.

Lemma created_threads_call (api_key : string) (resp : Response)
    (evs : list Event) :
  filter is_create_thread_call evs = [] ->
  created_threads (Http (create_thread_request api_key) resp :: evs) =
  match checked resp "id" json_id with
  | Ret t => [t]
  | _ => []
  end.
Proof.
  intros H. unfold created_threads. cbn [flat_map].
  fold (created_threads evs). rewrite (created_threads_none evs H).
  rewrite create_thread_is_create_thread. apply app_nil_r.
Qed.

Section ThreadLifecycle.
Variable server : list Event -> Request -> Response.
Variable fuel : nat.
Variable api_key : string.

Local Abbreviation thread_req := (create_thread_request api_key).

(** The cycle that finds no thread id and gets past the display of the
    prompt: its events, outcome and thread id by the answer to the
    create-thread call. *)
Lemma first_cycle (c : ascii) (prompt : string)
    (image_file : option UploadedFile) (w : World) :
  shows image_file = true ->
  truthy (thread_id w) = false ->
  let run := submit server fuel api_key (String c prompt) image_file w in
  let resp := server (log w) thread_req in
  let diag := diagnostics "Resposta da API: " resp in
  match checked resp "id" json_id with
  | Ret t =>
      thread_id (snd run) = Some t /\
      exists rest,
        log (snd run) = log w ++ (Http thread_req resp :: diag) ++ rest /\
        Forall (on_thread t) rest
  | Raise e =>
      run = (Raise e, extend (Http thread_req resp :: diag)
                        (echo (String c prompt) w))
  | Spinning =>
      run = (Spinning, extend (Http thread_req resp :: diag)
                         (echo (String c prompt) w))
  end.
Proof.
  intros Hs Hunset. cbv zeta.
  rewrite (submit_run_unset server fuel api_key c prompt image_file w Hs Hunset).
  rewrite create_thread_run. cbv zeta.
  change (log (echo (String c prompt) w)) with (log w).
  set (resp := server (log w) thread_req).
  set (diag := diagnostics "Resposta da API: " resp).
  destruct (checked resp "id" json_id) as [t|e|]; [|reflexivity..].
  set (w1 := set_thread_id (Some t)
               (extend (Http thread_req resp :: diag)
                  (echo (String c prompt) w))).
  destruct (keeps_submit_tail server t fuel api_key (String c prompt)
              image_file w1 eq_refl) as [evs2 [Hl [Ht Hon]]].
  split; [exact Ht|]. exists evs2. split; [|exact Hon].
  rewrite Hl. unfold w1. simpl log. now rewrite <- app_assoc.
Qed.

Lemma cycle_without_thread (prompt : string)
    (image_file : option UploadedFile) (w : World) :
  names_threads server api_key ->
  truthy (thread_id w) = false ->
  let w1 := snd (submit server fuel api_key prompt image_file w) in
  exists evs,
    log w1 = log w ++ evs /\
    ((created_threads evs = [] /\ thread_id w1 = thread_id w) \/
     (exists t, created_threads evs = [t] /\ thread_id w1 = Some t /\
                t <> "")).
Proof.
  intros Hnames Hunset. cbv zeta. destruct prompt as [|c prompt].
  - exists []. simpl. rewrite app_nil_r. auto.
  - destruct (shows image_file) eqn:Hs.
    + pose proof (first_cycle c prompt image_file w Hs Hunset) as H.
      cbv zeta in H.
      set (resp := server (log w) thread_req) in *.
      set (diag := diagnostics "Resposta da API: " resp) in *.
      assert (Hdiag : filter is_create_thread_call diag = []).
      { unfold diag. apply diagnostics_no_post. }
      pose proof (created_threads_call api_key resp diag Hdiag) as Hcall.
      destruct (checked resp "id" json_id) as [t|e|] eqn:Hc.
      * destruct H as [Ht [rest [Hl Hon]]].
        exists ((Http thread_req resp :: diag) ++ rest).
        split; [exact Hl|]. right. exists t.
        rewrite created_threads_app, Hcall.
        rewrite (created_threads_none rest (on_thread_filter t rest Hon)).
        repeat apply conj; [reflexivity | exact Ht | exact (Hnames _ _ Hc)].
      * rewrite H. exists (Http thread_req resp :: diag).
        split; [reflexivity|]. left. split; [exact Hcall | reflexivity].
      * rewrite H. exists (Http thread_req resp :: diag).
        split; [reflexivity|]. left. split; [exact Hcall | reflexivity].
    + destruct (submit_run_hidden server fuel api_key c prompt image_file w
                  Hs) as [e [_ ->]].
      exists []. simpl. rewrite app_nil_r. auto.
Qed.

Lemma conversation_creates_once
    (inputs : list (string * option UploadedFile)) :
  names_threads server api_key ->
  forall w,
  truthy (thread_id w) = false ->
  let w' := conversation server fuel api_key inputs w in
  exists evs,
    log w' = log w ++ evs /\
    ((created_threads evs = [] /\ thread_id w' = thread_id w) \/
     (exists t, created_threads evs = [t] /\ thread_id w' = Some t /\
                t <> "")).
Proof.
  intros Hnames. cbv zeta.
  induction inputs as [|[prompt image_file] inputs IH]; intros w Hunset.
  - exists []. simpl. rewrite app_nil_r. auto.
  - simpl conversation.
    destruct (cycle_without_thread prompt image_file w Hnames Hunset)
      as [evs1 [Hl1 [[Hc1 Ht1]|[t [Hc1 [Ht1 Hne]]]]]].
    + rewrite <- Ht1 in Hunset.
      destruct (IH _ Hunset) as [evs2 [Hl2 H2]].
      exists (evs1 ++ evs2). split; [now rewrite Hl2, Hl1, app_assoc|].
      rewrite created_threads_app, Hc1, Ht1 in *. exact H2.
    + destruct (conversation_keeps_thread server fuel api_key t inputs Hne _ Ht1)
        as [evs2 [Hl2 [Ht2 Hon]]].
      exists (evs1 ++ evs2). split; [now rewrite Hl2, Hl1, app_assoc|].
      right. exists t. rewrite created_threads_app, Hc1.
      rewrite (created_threads_none evs2 (on_thread_filter t evs2 Hon)).
      auto.
Qed.
End ThreadLifecycle.

(** C6. Within one conversation the thread id is created at most once. A
    submission cycle that finds the thread id unset, once the prompt is
    displayed, calls create-thread exactly once, as its first remote call;
    the id the call returns is stored, and the rest of the cycle works on
    that thread (a call that fails ends the cycle with its error and leaves
    the id unset; a cycle that stops at the display of an upload that
    cannot be shown makes no call at all). Every later cycle, and every
    sequence of later cycles, that finds the stored id reuses it unchanged
    and makes no create-thread call. So, for a service that never names a
    thread with the empty string, all the cycles of a conversation that
    starts without a thread id obtain at most one thread id, the one that
    is stored at the end. *)
Theorem thread_created_once
    (server : list Event -> Request -> Response) (fuel : nat)
    (api_key : string) :
  (forall prompt image_file w,
     prompt <> "" -> shows image_file = true ->
     truthy (thread_id w) = false ->
     let run := submit server fuel api_key prompt image_file w in
     let evs := events_since w (snd run) in
     let req := create_thread_request api_key in
     let resp := server (log w) req in
     (exists rest, evs = Http req resp :: rest) /\
     filter is_create_thread_call evs = [Http req resp] /\
     (forall t, fst (create_thread server api_key w) = Ret t ->
        thread_id (snd run) = Some t /\
        created_threads evs = [t] /\
        exists rest,
          evs = (Http req resp :: diagnostics "Resposta da API: " resp)
                  ++ rest /\
          Forall (on_thread t) rest) /\
     (forall e, fst (create_thread server api_key w) = Raise e ->
        fst run = Raise e /\ thread_id (snd run) = thread_id w /\
        created_threads evs = [])) /\
  (forall prompt image_file w,
     prompt <> "" -> shows image_file = false ->
     let run := submit server fuel api_key prompt image_file w in
     (exists e, display_error image_file = Some e /\ fst run = Raise e) /\
     events_since w (snd run) = [] /\
     thread_id (snd run) = thread_id w) /\
  (forall prompt image_file w t,
     thread_id w = Some t -> t <> "" ->
     let run := submit server fuel api_key prompt image_file w in
     let evs := events_since w (snd run) in
     thread_id (snd run) = Some t /\
     filter is_create_thread_call evs = [] /\
     Forall (on_thread t) evs) /\
  (forall inputs w t,
     thread_id w = Some t -> t <> "" ->
     let w' := conversation server fuel api_key inputs w in
     thread_id w' = Some t /\
     filter is_create_thread_call (events_since w w') = [] /\
     Forall (on_thread t) (events_since w w')) /\
  (names_threads server api_key ->
   forall inputs w,
     truthy (thread_id w) = false ->
     let w' := conversation server fuel api_key inputs w in
     let ids := created_threads (events_since w w') in
     (ids = [] /\ thread_id w' = thread_id w) \/
     (exists t, ids = [t] /\ thread_id w' = Some t /\ t <> "")) /\
  (forall o, truthy o = true <-> exists t, o = Some t /\ t <> "").
Proof.
  refine (conj _ (conj _ (conj _ (conj _ (conj _ truthy_some))))).
  - intros prompt image_file w Hp Hs Hunset. cbv zeta.
    destruct prompt as [|c prompt]; [contradiction|].
    pose proof (first_cycle server fuel api_key c prompt image_file w Hs Hunset)
      as H.
    cbv zeta in H. rewrite create_thread_run. cbv zeta. cbn [fst].
    set (req := create_thread_request api_key) in *.
    set (resp := server (log w) req) in *.
    set (diag := diagnostics "Resposta da API: " resp) in *.
    assert (Hdiag : filter is_create_thread_call diag = []).
    { unfold diag. apply diagnostics_no_post. }
    pose proof (created_threads_call api_key resp diag Hdiag) as Hcall.
    fold req in Hcall.
    destruct (checked resp "id" json_id) as [t|e|] eqn:Hc.
    + destruct H as [Ht [rest [Hl Hon]]].
      rewrite (events_since_log _ _ _ Hl).
      pose proof (on_thread_filter t rest Hon) as Hrest.
      refine (conj _ (conj _ (conj _ _))).
      * eexists. reflexivity.
      * change ((Http req resp :: diag) ++ rest)
          with (Http req resp :: diag ++ rest).
        cbn [filter]. change (is_create_thread_call (Http req resp)) with true.
        cbv iota. now rewrite filter_app, Hdiag, Hrest.
      * intros t' Heq. injection Heq as <-.
        refine (conj Ht (conj _ _)).
        -- rewrite created_threads_app, Hcall.
           now rewrite (created_threads_none rest Hrest).
        -- exists rest. split; [reflexivity | exact Hon].
      * discriminate.
    + rewrite H. cbn [fst snd].
      rewrite (events_since_log w
                 (extend (Http req resp :: diag) (echo (String c prompt) w))
                 (Http req resp :: diag) eq_refl).
      refine (conj _ (conj _ (conj _ _))).
      * eexists. reflexivity.
      * cbn [filter]. change (is_create_thread_call (Http req resp)) with true.
        cbv iota. now rewrite Hdiag.
      * discriminate.
      * intros e' Heq. injection Heq as <-.
        repeat apply conj; [reflexivity | reflexivity | exact Hcall].
    + rewrite H. cbn [fst snd].
      rewrite (events_since_log w
                 (extend (Http req resp :: diag) (echo (String c prompt) w))
                 (Http req resp :: diag) eq_refl).
      refine (conj _ (conj _ (conj _ _))).
      * eexists. reflexivity.
      * cbn [filter]. change (is_create_thread_call (Http req resp)) with true.
        cbv iota. now rewrite Hdiag.
      * discriminate.
      * discriminate.
  - intros prompt image_file w Hp Hs. cbv zeta.
    destruct prompt as [|c prompt]; [contradiction|].
    destruct (submit_run_hidden server fuel api_key c prompt image_file w Hs)
      as [e [He ->]].
    cbn [fst snd]. refine (conj _ (conj _ eq_refl)).
    + now exists e.
    + apply events_since_log. simpl. now rewrite app_nil_r.
  - intros prompt image_file w t Hw Ht. cbv zeta.
    destruct (submit_keeps_thread server fuel api_key prompt image_file t w
                Hw Ht) as [evs [Hl [Hid Hon]]].
    rewrite (events_since_log _ _ _ Hl).
    repeat apply conj; [exact Hid | now apply (on_thread_filter t) | exact Hon].
  - intros inputs w t Hw Ht. cbv zeta.
    destruct (conversation_keeps_thread server fuel api_key t inputs Ht w Hw)
      as [evs [Hl [Hid Hon]]].
    rewrite (events_since_log _ _ _ Hl).
    repeat apply conj; [exact Hid | now apply (on_thread_filter t) | exact Hon].
  - intros Hnames inputs w Hunset. cbv zeta.
    destruct (conversation_creates_once server fuel api_key inputs Hnames w
                Hunset) as [evs [Hl H]].
    now rewrite (events_since_log _ _ _ Hl).
Qed.

Lemma ok_server_names_threads : names_threads ok_server "sk".
Proof.
  intros l t H. vm_compute in H. injection H as <-. discriminate.
Qed.

Lemma thread_created_once_witness :
  let w' :=
    conversation ok_server 1 "sk" [("hello", None); ("again", None)]
      initial_world in
  let ids := created_threads (events_since initial_world w') in
  (ids = [] /\ thread_id w' = thread_id initial_world) \/
  (exists t, ids = [t] /\ thread_id w' = Some t /\ t <> "").
Proof.
  exact (proj1 (proj2 (proj2 (proj2 (proj2
           (thread_created_once ok_server 1 "sk")))))
           ok_server_names_threads [("hello", None); ("again", None)]
           initial_world eq_refl).
Defined.

Example first_cycle_creates_thread :
  let run := submit ok_server 1 "sk" "hello" None initial_world in
  fst run = Ret tt /\
  thread_id (snd run) = Some "id_1" /\
  List.length (filter is_create_thread_call (log (snd run))) = 1 /\
  messages (snd run) =
    [ {| turn_role := "user"; turn_content := "hi" |};
      {| turn_role := "user"; turn_content := placeholder |};
      {| turn_role := "user"; turn_content := "again" |};
      {| turn_role := "assistant"; turn_content := "ok" |} ].
Proof. vm_compute. repeat split. Qed.

(** A create-thread call that fails stores nothing; the next cycle calls
    create-thread again, and the id it obtains is the only one of the
    conversation. *)
Example failed_creation_is_tried_again :
  let w' :=
    conversation flaky_server 1 "sk" [("hello", None); ("again", None)]
      initial_world in
  List.length (filter is_create_thread_call (log w')) = 2 /\
  created_threads (log w') = ["thread_1"] /\
  thread_id w' = Some "thread_1".
Proof. vm_compute. repeat split. Qed.

(** * Part III: further properties of the history *)

Lemma forallb_Permutation_eq {A : Type} (f : A -> bool) (l l' : list A) :
  Permutation l l' -> forallb f l = forallb f l'.
Proof.
  induction 1 as [|x l l' _ IH|x y l|l l' l'' _ IH1 _ IH2]; simpl.
  - reflexivity.
  - now rewrite IH.
  - now rewrite !andb_assoc, (andb_comm (f y) (f x)).
  - now rewrite IH1.
Qed.

Lemma user_content_outcome (cs : list ContentBlock) (history : list Turn) :
  user_content cs history =
  if forallb well_formed_block cs then Ok (history ++ flat_map user_turns cs)
  else Err (KeyError "text").
Proof.
  revert history. induction cs as [|c cs IH]; intros history; simpl.
  - now rewrite app_nil_r.
  - unfold well_formed_block at 1, user_turns at 1, text_value, block_text.
    destruct (block_type c =? "text").
    + destruct (text c) as [t|]; simpl; [|reflexivity].
      rewrite IH. destruct (forallb _ cs); [|reflexivity].
      now rewrite <- app_assoc.
    + simpl. destruct (block_type c =? "image_file"); rewrite IH;
        (destruct (forallb _ cs); [|reflexivity]); now rewrite <- ?app_assoc.
Qed.

Lemma assistant_content_outcome (cs : list ContentBlock) (history : list Turn) :
  assistant_content cs history =
  if forallb well_formed_block cs
  then Ok (history ++ flat_map assistant_turns cs)
  else Err (KeyError "text").
Proof.
  revert history. induction cs as [|c cs IH]; intros history; simpl.
  - now rewrite app_nil_r.
  - unfold well_formed_block at 1, assistant_turns at 1, text_value, block_text.
    destruct (block_type c =? "text").
    + destruct (text c) as [t|]; simpl; [|reflexivity].
      rewrite IH. destruct (forallb _ cs); [|reflexivity].
      now rewrite <- app_assoc.
    + simpl. rewrite IH. now destruct (forallb _ cs).
Qed.

Lemma history_loop_outcome (ms : list RemoteMessage) (history : list Turn) :
  history_loop ms history =
  if forallb readable ms then Ok (history ++ flat_map message_turns ms)
  else Err (KeyError "text").
Proof.
  revert history. induction ms as [|m ms IH]; intros history; simpl.
  - now rewrite app_nil_r.
  - unfold readable at 1, message_turns at 1.
    destruct (role m =? "user").
    + rewrite user_content_outcome.
      destruct (forallb well_formed_block (content m)); simpl; [|reflexivity].
      rewrite IH. destruct (forallb readable ms); [|reflexivity].
      now rewrite <- app_assoc.
    + destruct (role m =? "assistant").
      * rewrite assistant_content_outcome.
        destruct (forallb well_formed_block (content m)); simpl; [|reflexivity].
        rewrite IH. destruct (forallb readable ms); [|reflexivity].
        now rewrite <- app_assoc.
      * simpl. rewrite IH. now destruct (forallb readable ms).
Qed.

Lemma reconstruct_history_outcome (messages : list RemoteMessage) :
  reconstruct_history messages =
  if forallb readable messages
  then Ok (flat_map message_turns (sorted created_at messages))
  else Err (KeyError "text").
Proof.
  unfold reconstruct_history. rewrite history_loop_outcome.
  now rewrite (forallb_Permutation_eq readable _ _ (sorted_perm created_at messages)).
Qed.

(** ** How [sorted] composes with filtering, rearranging and appending *)

Lemma filter_comm {A : Type} (p q : A -> bool) (l : list A) :
  filter p (filter q l) = filter q (filter p l).
Proof.
  induction l as [|x l IH]; simpl; [reflexivity|].
  destruct (q x) eqn:Hq, (p x) eqn:Hp; simpl; rewrite ?Hq, ?Hp, IH; reflexivity.
Qed.

Lemma filter_ascending {A : Type} (key : A -> Z) (p : A -> bool) (l : list A) :
  StronglySorted (key_le key) l -> StronglySorted (key_le key) (filter p l).
Proof.
  induction 1 as [|x l Hs IH Hx]; simpl; [constructor|].
  destruct (p x); [|exact IH].
  constructor; [exact IH|].
  rewrite Forall_forall in *. intros y Hy. apply filter_In in Hy.
  now apply Hx.
Qed.

Lemma sorted_filter {A : Type} (key : A -> Z) (p : A -> bool) (l : list A) :
  sorted key (filter p l) = filter p (sorted key l).
Proof.
  symmetry. apply sorted_is_the_stable_sort.
  - apply filter_ascending, sorted_ascending.
  - intros k. now rewrite filter_comm, sorted_stable, filter_comm.
Qed.

Lemma filter_Permutation {A : Type} (p : A -> bool) (l l' : list A) :
  Permutation l l' -> Permutation (filter p l) (filter p l').
Proof.
  induction 1 as [|x l l' _ IH|x y l|l l' l'' _ IH1 _ IH2]; simpl.
  - constructor.
  - destruct (p x); [now constructor | exact IH].
  - destruct (p x), (p y); try apply Permutation_refl. apply perm_swap.
  - eapply perm_trans; eassumption.
Qed.

Lemma filter_key_short {A : Type} (key : A -> Z) (k : Z) (l : list A) :
  NoDup (map key l) ->
  List.length (filter (fun y => (key y =? k)%Z) l) <= 1.
Proof.
  induction l as [|x l IH]; simpl; intros Hnd; [lia|].
  inversion Hnd as [|? ? Hnot Hnd']; subst.
  destruct (Z.eqb_spec (key x) k) as [Hk|Hk]; [|now apply IH].
  assert (Hnone : filter (fun y => (key y =? k)%Z) l = []).
  { destruct (filter (fun y => (key y =? k)%Z) l) as [|y ys] eqn:Hf;
      [reflexivity|].
    exfalso. apply Hnot.
    assert (Hin : In y (filter (fun y => (key y =? k)%Z) l))
      by (rewrite Hf; now left).
    apply filter_In in Hin. destruct Hin as [Hin Hy].
    apply Z.eqb_eq in Hy. rewrite Hk, <- Hy. now apply in_map. }
  rewrite Hnone. simpl. lia.
Qed.

Lemma short_Permutation_eq {A : Type} (l l' : list A) :
  List.length l <= 1 -> Permutation l l' -> l = l'.
Proof.
  intros Hlen HP. destruct l as [|x [|y l]]; simpl in Hlen; try lia.
  - now apply Permutation_nil in HP.
  - now apply Permutation_length_1_inv in HP.
Qed.

(** With pairwise distinct keys the result of [sorted] does not depend on
    the order of its input. *)
Lemma sorted_Permutation {A : Type} (key : A -> Z) (l l' : list A) :
  NoDup (map key l) -> Permutation l l' -> sorted key l = sorted key l'.
Proof.
  intros Hnd HP. apply sorted_is_the_stable_sort; [apply sorted_ascending|].
  intros k. rewrite sorted_stable.
  apply short_Permutation_eq; [now apply filter_key_short|].
  now apply filter_Permutation.
Qed.

(** When every element of [l1] has a smaller key than every element of [l2],
    sorting the two lists together, in either order, puts the sorted [l1]
    before the sorted [l2]. *)
Lemma sorted_app_older {A : Type} (key : A -> Z) (l1 l2 : list A) :
  (forall a b, In a l1 -> In b l2 -> (key a < key b)%Z) ->
  sorted key (l1 ++ l2) = sorted key l1 ++ sorted key l2 /\
  sorted key (l2 ++ l1) = sorted key l1 ++ sorted key l2.
Proof.
  intros Hlt.
  assert (Hasc : StronglySorted (key_le key) (sorted key l1 ++ sorted key l2)).
  { apply StronglySorted_app; try apply sorted_ascending.
    intros x y Hx Hy. unfold key_le.
    apply (Permutation_in _ (sorted_perm key l1)) in Hx.
    apply (Permutation_in _ (sorted_perm key l2)) in Hy.
    specialize (Hlt x y Hx Hy). lia. }
  assert (Hone : forall k,
            filter (fun y => (key y =? k)%Z) l1 = [] \/
            filter (fun y => (key y =? k)%Z) l2 = []).
  { intros k.
    destruct (filter (fun y => (key y =? k)%Z) l1) as [|a l1'] eqn:H1;
      [now left|].
    destruct (filter (fun y => (key y =? k)%Z) l2) as [|b l2'] eqn:H2;
      [now right|].
    exfalso.
    assert (Ha : In a (filter (fun y => (key y =? k)%Z) l1))
      by (rewrite H1; now left).
    assert (Hb : In b (filter (fun y => (key y =? k)%Z) l2))
      by (rewrite H2; now left).
    apply filter_In in Ha, Hb. destruct Ha as [Ha Ka], Hb as [Hb Kb].
    apply Z.eqb_eq in Ka, Kb. specialize (Hlt a b Ha Hb). lia. }
  split; symmetry; apply sorted_is_the_stable_sort; try exact Hasc;
    intros k; rewrite !filter_app, !sorted_stable.
  - reflexivity.
  - destruct (Hone k) as [H|H]; rewrite H; now rewrite ?app_nil_r.
Qed.

Lemma history_loop_speaks (ms : list RemoteMessage) (history : list Turn) :
  history_loop (filter speaks ms) history = history_loop ms history.
Proof.
  revert history. induction ms as [|m ms IH]; intros history; simpl;
    [reflexivity|].
  unfold speaks at 1.
  destruct (role m =? "user") eqn:Hu; simpl.
  - rewrite Hu. destruct (user_content _ _); [apply IH | reflexivity].
  - destruct (role m =? "assistant") eqn:Ha; simpl.
    + rewrite Hu, Ha. destruct (assistant_content _ _); [apply IH | reflexivity].
    + apply IH.
Qed.

(** X2. The messages whose role is neither user nor assistant (a system
    message, for instance) have no influence at all: removing them from the
    input changes neither the history returned nor the failure raised. *)
Theorem reconstruct_history_ignores_other_roles :
  forall messages : list RemoteMessage,
  reconstruct_history (filter speaks messages) = reconstruct_history messages /\
  (forall m, role m <> "user" -> role m <> "assistant" ->
     speaks m = false /\ message_turns m = []).
Proof.
  intros messages. split.
  - unfold reconstruct_history. rewrite sorted_filter. apply history_loop_speaks.
  - intros m Hu Ha. apply String.eqb_neq in Hu, Ha.
    unfold speaks, message_turns. now rewrite Hu, Ha.
Qed.

(** X3. When the created_at values of the input are pairwise distinct, the
    result does not depend on the order in which the messages are listed:
    any rearrangement of the input (newest first, oldest first) gives the
    same history or the same failure. *)
Theorem reconstruct_history_order_independent
    (messages messages' : list RemoteMessage) :
  NoDup (map created_at messages) ->
  Permutation messages messages' ->
  reconstruct_history messages' = reconstruct_history messages.
Proof.
  intros Hnd HP. unfold reconstruct_history.
  now rewrite (sorted_Permutation created_at messages messages' Hnd HP).
Qed.

Lemma reconstruct_history_order_independent_witness :
  reconstruct_history (rev sample_thread) = reconstruct_history sample_thread.
Proof.
  apply (reconstruct_history_order_independent sample_thread (rev sample_thread)).
  - repeat constructor; simpl; intuition discriminate.
  - apply Permutation_rev.
Defined.

(** With equal created_at values the input order does matter. *)
Example reconstruct_history_ties_keep_input_order :
  let a := {| msg_id := "a"; role := "user"; created_at := 5;
              content := [Text "first"] |} in
  let b := {| msg_id := "b"; role := "user"; created_at := 5;
              content := [Text "second"] |} in
  reconstruct_history [a; b] <> reconstruct_history [b; a].
Proof. discriminate. Qed.

(** X4. The history of a conversation grows at its end: when every message
    of [older] has a smaller created_at than every message of [newer], the
    history of the two lists together, listed in either order, is the history
    of [older] followed by the history of [newer]. *)
Theorem reconstruct_history_extends (older newer : list RemoteMessage)
    (h1 h2 : list Turn) :
  (forall a b, In a older -> In b newer -> (created_at a < created_at b)%Z) ->
  reconstruct_history older = Ok h1 ->
  reconstruct_history newer = Ok h2 ->
  reconstruct_history (newer ++ older) = Ok (h1 ++ h2) /\
  reconstruct_history (older ++ newer) = Ok (h1 ++ h2).
Proof.
  intros Hlt. rewrite !reconstruct_history_outcome, !forallb_app.
  destruct (sorted_app_older created_at older newer Hlt) as [E1 E2].
  rewrite E1, E2, !flat_map_app.
  destruct (forallb readable older); [|discriminate].
  destruct (forallb readable newer); [|discriminate].
  intros H1 H2. injection H1 as <-. injection H2 as <-. split; reflexivity.
Qed.

Lemma reconstruct_history_extends_witness :
  reconstruct_history (firstn 2 sample_thread ++ skipn 2 sample_thread) =
  Ok ([ {| turn_role := "user"; turn_content := "hi" |};
        {| turn_role := "user"; turn_content := placeholder |};
        {| turn_role := "assistant"; turn_content := "hello" |} ] ++
      [ {| turn_role := "user"; turn_content := "What is 2+2?" |};
        {| turn_role := "assistant"; turn_content := "4" |} ]).
Proof.
  refine (proj1 (reconstruct_history_extends
                   (skipn 2 sample_thread) (firstn 2 sample_thread) _ _
                   _ eq_refl eq_refl)).
  intros a b Ha Hb. simpl in Ha, Hb.
  destruct Ha as [<-|[<-|[]]]; destruct Hb as [<-|[<-|[]]]; reflexivity.
Defined.

Lemma message_turns_length (m : RemoteMessage) :
  List.length (message_turns m) <= List.length (content m).
Proof.
  unfold message_turns.
  assert (Hu : forall cs, List.length (flat_map user_turns cs) <= List.length cs).
  { induction cs as [|c cs IH]; simpl; [lia|]. rewrite length_app.
    unfold user_turns at 1.
    destruct (block_type c =? "text"); [simpl; lia|].
    destruct (block_type c =? "image_file"); simpl; lia. }
  assert (Ha : forall cs,
            List.length (flat_map assistant_turns cs) <= List.length cs).
  { induction cs as [|c cs IH]; simpl; [lia|]. rewrite length_app.
    unfold assistant_turns at 1.
    destruct (block_type c =? "text"); simpl; lia. }
  destruct (role m =? "user"); [apply Hu|].
  destruct (role m =? "assistant"); [apply Ha | simpl; lia].
Qed.

Lemma flat_map_length_le {A B C : Type} (f : A -> list B) (g : A -> list C)
    (l : list A) :
  (forall a, List.length (f a) <= List.length (g a)) ->
  List.length (flat_map f l) <= List.length (flat_map g l).
Proof.
  intros H. induction l as [|a l IH]; simpl; [lia|].
  rewrite !length_app. specialize (H a). lia.
Qed.

Lemma well_formed_text (c : ContentBlock) :
  well_formed_block c = true -> block_type c = "text" ->
  text c = Some {| value := block_text c |}.
Proof.
  unfold well_formed_block, block_text. intros Hwf Ht. rewrite Ht in Hwf.
  simpl in Hwf. destruct (text c) as [[v]|]; [reflexivity | discriminate].
Qed.

(** X5. A history that is returned holds only turns of role user or
    assistant, never more turns than the input has content blocks, and it
    invents nothing: every assistant turn is the text value of a text block
    of an assistant message of the input, and every user turn is the text
    value of a text block, or the placeholder for an image_file block, of a
    user message of the input. *)
Theorem reconstruct_history_turns (messages : list RemoteMessage)
    (h : list Turn) :
  reconstruct_history messages = Ok h ->
  Forall known_role h /\
  List.length h <= List.length (flat_map content messages) /\
  (forall t, In t h -> turn_role t = "assistant" ->
     exists m c, In m messages /\ role m = "assistant" /\ In c (content m) /\
       block_type c = "text" /\ text c = Some {| value := turn_content t |}) /\
  (forall t, In t h -> turn_role t = "user" ->
     exists m c, In m messages /\ role m = "user" /\ In c (content m) /\
       ((block_type c = "text" /\
         text c = Some {| value := turn_content t |}) \/
        (block_type c = "image_file" /\ turn_content t = placeholder))).
Proof.
  rewrite reconstruct_history_outcome.
  destruct (forallb readable messages) eqn:Hr; [|discriminate].
  intros H. injection H as <-.
  assert (Hsrc : forall t,
            In t (flat_map message_turns (sorted created_at messages)) ->
            exists m, In m messages /\ readable m = true /\
                      In t (message_turns m)).
  { intros t Ht. apply in_flat_map in Ht. destruct Ht as [m [Hm Ht]].
    apply (Permutation_in _ (sorted_perm created_at messages)) in Hm.
    exists m. repeat split; auto.
    rewrite forallb_forall in Hr. now apply Hr. }
  assert (Hcase : forall t,
            In t (flat_map message_turns (sorted created_at messages)) ->
            exists m c, In m messages /\ In c (content m) /\
              ((role m = "user" /\ turn_role t = "user" /\
                ((block_type c = "text" /\
                  text c = Some {| value := turn_content t |}) \/
                 (block_type c = "image_file" /\
                  turn_content t = placeholder))) \/
               (role m = "assistant" /\ turn_role t = "assistant" /\
                block_type c = "text" /\
                text c = Some {| value := turn_content t |}))).
  { intros t Ht. destruct (Hsrc t Ht) as [m [Hm [Hread Hin]]].
    unfold message_turns in Hin. unfold readable in Hread.
    destruct (String.eqb_spec (role m) "user") as [Hu|Hu].
    - apply in_flat_map in Hin. destruct Hin as [c [Hc Hin]].
      exists m, c. repeat split; auto. left.
      rewrite forallb_forall in Hread. specialize (Hread c Hc).
      unfold user_turns in Hin.
      destruct (String.eqb_spec (block_type c) "text") as [Ht'|Ht'].
      + destruct Hin as [<-|[]]. simpl. repeat split; auto. left.
        split; [exact Ht' | now apply well_formed_text].
      + destruct (String.eqb_spec (block_type c) "image_file") as [Hi|Hi];
          [|destruct Hin].
        destruct Hin as [<-|[]]. simpl. repeat split; auto.
    - destruct (String.eqb_spec (role m) "assistant") as [Ha|Ha];
        [|destruct Hin].
      apply in_flat_map in Hin. destruct Hin as [c [Hc Hin]].
      exists m, c. repeat split; auto. right.
      rewrite forallb_forall in Hread. specialize (Hread c Hc).
      unfold assistant_turns in Hin.
      destruct (String.eqb_spec (block_type c) "text") as [Ht'|Ht'];
        [|destruct Hin].
      destruct Hin as [<-|[]]. simpl. repeat split; auto.
      now apply well_formed_text. }
  refine (conj _ (conj _ (conj _ _))).
  - rewrite Forall_forall. intros t Ht.
    destruct (Hcase t Ht) as [m [c [_ [_ [[_ [H _]]|[_ [H _]]]]]]];
      [now left | now right].
  - rewrite (Permutation_length
               (Permutation_flat_map content
                  (Permutation_sym (sorted_perm created_at messages)))).
    apply flat_map_length_le, message_turns_length.
  - intros t Ht Hrole.
    destruct (Hcase t Ht) as [m [c [Hm [Hc [[_ [H _]]|[Hr' [_ [Hb Htx]]]]]]]].
    + rewrite H in Hrole. discriminate Hrole.
    + exists m, c. auto.
  - intros t Ht Hrole.
    destruct (Hcase t Ht) as [m [c [Hm [Hc [[Hr' [_ H]]|[_ [H _]]]]]]].
    + exists m, c. auto.
    + rewrite H in Hrole. discriminate Hrole.
Qed.

Lemma reconstruct_history_turns_witness :
  Forall known_role
    [ {| turn_role := "user"; turn_content := "hi" |};
      {| turn_role := "user"; turn_content := placeholder |};
      {| turn_role := "user"; turn_content := "again" |};
      {| turn_role := "assistant"; turn_content := "ok" |} ].
Proof.
  exact (proj1 (reconstruct_history_turns sample_messages _ eq_refl)).
Defined.

(** * Part IV: further properties of the remote operations *)

Section Always.
Variable server : list Event -> Request -> Response.
Variable P : Event -> Prop.

Lemma always_ret {A : Type} (a : A) : always P (ret a).
Proof. intros w. exists []. simpl. now rewrite app_nil_r. Qed.

Lemma always_raise {A : Type} (e : Exn) : always P (@raise A e).
Proof. intros w. exists []. simpl. now rewrite app_nil_r. Qed.

Lemma always_bind {A B : Type} (c : M A) (k : A -> M B) :
  always P c -> (forall a, always P (k a)) -> always P (bind c k).
Proof.
  intros Hc Hk w. unfold bind.
  destruct (Hc w) as [evs1 [Hl1 Hf1]].
  destruct (c w) as [[a|e|] w1]; simpl in Hl1.
  - destruct (Hk a w1) as [evs2 [Hl2 Hf2]].
    exists (evs1 ++ evs2). split.
    + now rewrite Hl2, Hl1, app_assoc.
    + now apply Forall_app.
  - exists evs1. auto.
  - exists evs1. auto.
Qed.

Lemma always_event {A : Type} (a : A) (e : Event) :
  P e -> always P (fun w => (Ret a, emit e w)).
Proof. intros He w. exists [e]. simpl. auto. Qed.

Lemma always_request (req : Request) :
  (forall resp, P (Http req resp)) -> always P (request server req).
Proof.
  intros He w. exists [Http req (server (log w) req)]. simpl. auto.
Qed.

Lemma always_silent {A : Type} (f : World -> A) (g : World -> World) :
  (forall w, log (g w) = log w) -> always P (fun w => (Ret (f w), g w)).
Proof. intros Hg w. exists []. simpl. now rewrite app_nil_r, Hg. Qed.

Lemma always_raise_for_status (resp : Response) :
  always P (raise_for_status resp).
Proof.
  unfold raise_for_status.
  destruct (http_error _); [apply always_raise | apply always_ret].
Qed.

Lemma always_json (resp : Response) : always P (json resp).
Proof.
  unfold json. destruct (resp_json _); [apply always_ret | apply always_raise].
Qed.

Lemma always_item {A : Type} (key : string) (field : JsonObject -> option A)
    (obj : Json) :
  always P (item key field obj).
Proof.
  unfold item. destruct obj as [j|]; [|apply always_raise].
  destruct (field j); [apply always_ret | apply always_raise].
Qed.

Lemma always_lift {A : Type} (r : Result A) : always P (lift r).
Proof. destruct r; [apply always_ret | apply always_raise]. Qed.

Hypothesis P_printed : forall line, P (Printed line).
Hypothesis P_sleep : forall seconds, P (Sleep seconds).

Ltac always_step :=
  first
    [ apply always_bind; [|intros ?]
    | apply always_ret
    | apply always_raise_for_status
    | apply always_json
    | apply always_item
    | apply always_lift
    | apply always_event; first [apply P_printed | apply P_sleep]
    | apply always_silent; intros ?; reflexivity ].

Lemma always_create_thread (api_key : string) :
  (forall resp, P (Http (create_thread_request api_key) resp)) ->
  always P (create_thread server api_key).
Proof.
  intros H. unfold create_thread, requests_post, print.
  always_step; [now apply always_request|].
  always_step; [|repeat always_step].
  destruct (status_code _ =? 200)%Z; always_step.
Qed.

Lemma always_upload_file (api_key : string) (bs : list byte) (fname : string) :
  (forall resp, P (Http (upload_request api_key bs fname) resp)) ->
  always P (upload_file server api_key bs fname).
Proof.
  intros H. unfold upload_file, requests_post, print.
  always_step; [now apply always_request|].
  always_step; [|repeat always_step].
  destruct (status_code _ =? 200)%Z; always_step.
Qed.

Lemma always_send_message (thread_id content api_key : string)
    (image_bytes : option (list byte)) (image_filename : option string) :
  (forall bs fname resp, P (Http (upload_request api_key bs fname) resp)) ->
  (forall data resp,
     P (Http {| method := POST; url := messages_url thread_id;
                headers := HEADERS api_key; body := JsonMessage data |} resp)) ->
  always P
    (send_message server thread_id content api_key image_bytes image_filename).
Proof.
  intros Hup Hmsg. unfold send_message, requests_post. cbv zeta.
  always_step.
  - destruct (image_supplied image_bytes image_filename) as [[bs fname]|];
      [|always_step].
    always_step; [apply always_upload_file; intros; apply Hup | always_step].
  - always_step; [|repeat always_step].
    apply always_request. intros resp. apply Hmsg.
Qed.

Lemma always_create_run (thread_id api_key assistant_id : string) :
  (forall resp,
     P (Http (create_run_request thread_id api_key assistant_id) resp)) ->
  always P (create_run server thread_id api_key assistant_id).
Proof.
  intros H. unfold create_run, requests_post.
  always_step; [now apply always_request | repeat always_step].
Qed.

Lemma always_list_messages (thread_id api_key : string) :
  (forall resp, P (Http (list_messages_request thread_id api_key) resp)) ->
  always P (list_messages server thread_id api_key).
Proof.
  intros H. unfold list_messages, requests_get.
  always_step; [now apply always_request | repeat always_step].
Qed.

Lemma always_wait (fuel : nat) (thread_id run_id api_key : string) :
  (forall resp, P (Http (get_run_request thread_id run_id api_key) resp)) ->
  always P (wait_for_run_completion server fuel thread_id run_id api_key).
Proof.
  intros H. induction fuel as [|fuel IH].
  - intros w. exists []. simpl. now rewrite app_nil_r.
  - cbn [wait_for_run_completion]. unfold requests_get, sleep.
    always_step; [now apply always_request|].
    do 3 (always_step; [always_step|]).
    destruct (is_terminal _); [always_step|].
    always_step; [always_step | exact IH].
Qed.

Lemma always_st_image (image : UploadedFile) : always P (st_image image).
Proof.
  unfold st_image.
  destruct (st_image_error image); [apply always_raise | apply always_ret].
Qed.

Lemma always_session_thread_id : always P session_thread_id.
Proof. unfold session_thread_id, get_thread_id. repeat always_step. Qed.

Lemma always_submit_with (fuel : nat) (api_key prompt : string)
    (image_file : option UploadedFile) :
  (forall resp, P (Http (create_thread_request api_key) resp)) ->
  (forall t,
     always P
       (send_message server t prompt api_key (option_map read image_file)
          (option_map name image_file))) ->
  (forall t resp,
     P (Http (create_run_request t api_key ASSISTANT_ID) resp)) ->
  (forall t r resp, P (Http (get_run_request t r api_key) resp)) ->
  (forall t resp, P (Http (list_messages_request t api_key) resp)) ->
  always P (submit server fuel api_key prompt image_file).
Proof.
  intros Hct Hsend Hrun Hpoll Hlist.
  unfold submit. destruct prompt as [|c prompt]; [always_step|].
  cbv zeta. unfold append_message, get_thread_id, put_thread_id, put_messages.
  always_step; [always_step|].
  always_step;
    [destruct image_file; [apply always_st_image | always_step]|].
  always_step; [always_step|].
  always_step.
  { destruct (negb _); [|always_step].
    always_step; [|always_step].
    now apply always_create_thread. }
  always_step; [apply always_session_thread_id|].
  always_step; [apply Hsend|].
  always_step; [apply always_session_thread_id|].
  always_step; [apply always_create_run; intros; apply Hrun|].
  always_step; [apply always_session_thread_id|].
  always_step; [apply always_wait; intros; apply Hpoll|].
  always_step; [apply always_session_thread_id|].
  always_step; [apply always_list_messages; intros; apply Hlist|].
  always_step; [always_step|]. always_step.
Qed.

Lemma always_submit (fuel : nat) (api_key prompt : string)
    (image_file : option UploadedFile) :
  (forall req resp, url req = threads_url \/ url req = files_url \/
     (exists t, url req = messages_url t) \/
     (exists t, url req = runs_url t) \/
     (exists t r, url req = run_url t r) ->
     headers req = HEADERS api_key \/
     headers req = [("Authorization", ("Bearer " ++ api_key)%string);
                    ("OpenAI-Beta", "assistants=v2")] ->
     P (Http req resp)) ->
  always P (submit server fuel api_key prompt image_file).
Proof.
  intros H. apply always_submit_with.
  - intros resp. apply H; simpl; auto.
  - intros t. apply always_send_message; intros; apply H; simpl; eauto 6.
  - intros; apply H; simpl; eauto 6.
  - intros; apply H; simpl; eauto 7.
  - intros; apply H; simpl; eauto 6.
Qed.
End Always.

Lemma to_api_request (api_key : string) (req : Request) (resp : Response) :
  url req = threads_url \/ url req = files_url \/
  (exists t, url req = messages_url t) \/
  (exists t, url req = runs_url t) \/
  (exists t r, url req = run_url t r) ->
  headers req = HEADERS api_key \/
  headers req = [("Authorization", ("Bearer " ++ api_key)%string);
                 ("OpenAI-Beta", "assistants=v2")] ->
  to_api api_key (Http req resp).
Proof.
  intros Hu Hh. unfold to_api. split.
  - destruct Hu as [H|[H|[[t H]|[[t H]|[t [r H]]]]]]; rewrite H; reflexivity.
  - destruct Hh as [H|H]; rewrite H; simpl; auto.
Qed.

(** X6. Every request of a submission cycle, whatever its course, goes to a
    URL under the API base and carries the API key as a bearer token in the
    Authorization header together with the OpenAI-Beta header of the
    assistants API. *)
Theorem every_request_goes_to_the_api
    (server : list Event -> Request -> Response)
    (fuel : nat) (api_key prompt : string) (image_file : option UploadedFile)
    (w : World) :
  Forall (to_api api_key)
    (events_since w (snd (submit server fuel api_key prompt image_file w))).
Proof.
  destruct (always_submit server (to_api api_key) (fun _ => I) (fun _ => I)
              fuel api_key prompt image_file (to_api_request api_key) w)
    as [evs [Hl Hall]].
  now rewrite (events_since_log _ _ _ Hl).
Qed.

Lemma reads_key_checked {A : Type} (server : list Event -> Request -> Response)
    (c : M A) (req : Request) (key : string) (field : JsonObject -> option A) :
  (forall w, exists evs,
     responses evs = [] /\
     c w = (checked (server (log w) req) key field,
            extend (Http req (server (log w) req) :: evs) w)) ->
  reads_key server c req key field.
Proof.
  intros H w. cbv zeta. destruct (H w) as [evs [Hr Hrun]]. rewrite Hrun.
  simpl fst. simpl snd. rewrite events_since_extend.
  set (resp := server (log w) req).
  refine (conj _ (conj _ (conj _ _))).
  - simpl. now rewrite Hr.
  - now exists evs.
  - intros He. unfold checked. now rewrite He.
  - intros He. unfold checked. rewrite He.
    refine (conj _ (conj _ (conj _ _))).
    + intros ->. reflexivity.
    + intros ->. reflexivity.
    + intros j -> ->. reflexivity.
    + intros j v -> ->. reflexivity.
Qed.

(** X7. Create-thread, upload-file, list-messages and create-run each send
    their request once and read one key of the JSON body: the thread id, the
    file id, the message list ([data]) and the run id are returned exactly as
    the response gives them; when the status is no HTTP error, a body that
    is not JSON raises the decoding error, a JSON body that is no object
    (null, a list, a string, a number) raises [TypeError], and an object
    without the key raises [KeyError] naming that key, all only after the
    request has been sent. *)
Theorem operations_read_one_key
    (server : list Event -> Request -> Response) :
  (forall api_key,
     reads_key server (create_thread server api_key)
       (create_thread_request api_key) "id" json_id) /\
  (forall api_key bs fname,
     reads_key server (upload_file server api_key bs fname)
       (upload_request api_key bs fname) "id" json_id) /\
  (forall thread_id api_key,
     reads_key server (list_messages server thread_id api_key)
       (list_messages_request thread_id api_key) "data" json_data) /\
  (forall thread_id api_key assistant_id,
     reads_key server (create_run server thread_id api_key assistant_id)
       (create_run_request thread_id api_key assistant_id) "id" json_id).
Proof.
  refine (conj _ (conj _ (conj _ _))); intros; apply reads_key_checked;
    intros w.
  - eexists. split; [|apply create_thread_run]. apply responses_diagnostics.
  - eexists. split; [|apply upload_file_run]. apply responses_diagnostics.
  - exists []. split; [reflexivity | apply list_messages_run].
  - exists []. split; [reflexivity | apply create_run_run].
Qed.

Lemma printed_app (evs1 evs2 : list Event) :
  printed (evs1 ++ evs2) = printed evs1 ++ printed evs2.
Proof.
  induction evs1 as [|[req resp|line|secs] evs1 IH]; simpl;
    [reflexivity | exact IH | now rewrite IH | exact IH].
Qed.

Lemma printed_none (evs : list Event) :
  Forall (fun e => match e with Printed _ => False | _ => True end) evs ->
  printed evs = [].
Proof.
  induction 1 as [|[req resp|line|secs] evs He _ IH]; simpl;
    [reflexivity | exact IH | destruct He | exact IH].
Qed.

(** X8. Only create-thread and upload-file print, one line each and exactly
    when the status of the response is not 200 (so also for a success such as
    201, and before an error is raised); [send_message] prints nothing of its
    own, and list-messages, create-run and the polls of the wait never print,
    whatever the response. *)
Theorem diagnostics_are_printed_for_thread_and_upload_only
    (server : list Event -> Request -> Response) :
  (forall api_key w,
     let resp := server (log w) (create_thread_request api_key) in
     printed (events_since w (snd (create_thread server api_key w))) =
     if (status_code resp =? 200)%Z then []
     else [("Resposta da API: " ++ resp_text resp)%string]) /\
  (forall api_key bs fname w,
     let resp := server (log w) (upload_request api_key bs fname) in
     printed (events_since w (snd (upload_file server api_key bs fname w))) =
     if (status_code resp =? 200)%Z then []
     else [("Resposta da API (upload_file): " ++ resp_text resp)%string]) /\
  (forall thread_id content api_key image_bytes image_filename w,
     printed (events_since w
       (snd (send_message server thread_id content api_key image_bytes
               image_filename w))) =
     match image_supplied image_bytes image_filename with
     | None => []
     | Some (bs, fname) =>
         printed (events_since w (snd (upload_file server api_key bs fname w)))
     end) /\
  (forall thread_id api_key w,
     printed (events_since w (snd (list_messages server thread_id api_key w)))
     = []) /\
  (forall thread_id api_key assistant_id w,
     printed (events_since w
       (snd (create_run server thread_id api_key assistant_id w))) = []) /\
  (forall fuel thread_id run_id api_key w,
     printed (events_since w
       (snd (wait_for_run_completion server fuel thread_id run_id api_key w)))
     = []).
Proof.
  refine (conj _ (conj _ (conj _ (conj _ (conj _ _))))).
  - intros. cbv zeta. rewrite create_thread_run. cbv zeta. simpl snd.
    rewrite events_since_extend. simpl. unfold diagnostics.
    now destruct (status_code _ =? 200)%Z.
  - intros. cbv zeta. rewrite upload_file_run. cbv zeta. simpl snd.
    rewrite events_since_extend. simpl. unfold diagnostics.
    now destruct (status_code _ =? 200)%Z.
  - intros.
    destruct (image_supplied image_bytes image_filename) as [[bs fname]|] eqn:Hs.
    + rewrite (send_message_run_image server _ _ _ _ _ bs fname w Hs).
      rewrite upload_file_run. cbv zeta.
      destruct (checked _ "id" json_id) as [fid|e|]; simpl snd.
      * unfold post_message. simpl snd.
        rewrite events_since_extend2, events_since_extend, printed_app.
        simpl. now rewrite app_nil_r.
      * reflexivity.
      * reflexivity.
    + rewrite (send_message_run_plain server _ _ _ _ _ w Hs).
      unfold post_message. simpl snd. now rewrite events_since_extend.
  - intros. rewrite list_messages_run. cbv zeta. simpl snd.
    now rewrite events_since_extend.
  - intros. rewrite create_run_run. cbv zeta. simpl snd.
    now rewrite events_since_extend.
  - intros fuel tid rid key w.
    destruct (always_wait server
                (fun e => match e with Printed _ => False | _ => True end)
                (fun _ => I) fuel tid rid key (fun _ => I) w)
      as [evs [Hl Hall]].
    rewrite (events_since_log _ _ _ Hl). now apply printed_none.
Qed.

Section PollingOutcomes.
Variable server : list Event -> Request -> Response.
Variables thread_id run_id api_key : string.

Local Abbreviation poll := (get_run_request thread_id run_id api_key).


End PollingOutcomes.



(** * Part V: the course of a submission cycle *)

Lemma bind_returns {A B : Type} (c : M A) (k : A -> M B) (w w' : World) (b : B) :
  bind c k w = (Ret b, w') ->
  exists a w1, c w = (Ret a, w1) /\ k a w1 = (Ret b, w').
Proof.
  unfold bind. destruct (c w) as [[a|e|] w1]; try discriminate.
  intros H. now exists a, w1.
Qed.

Section CycleCourse.
Variable server : list Event -> Request -> Response.

Lemma send_message_returns (t content api_key : string)
    (image_bytes : option (list byte)) (image_filename : option string)
    (w w1 : World) (j : Json) :
  send_message server t content api_key image_bytes image_filename w
  = (Ret j, w1) ->
  exists upload resp,
    w1 = extend (upload_events api_key upload ++
                 [Http (create_message_request t api_key
                          (message_blocks content upload)) resp]) w /\
    checked_json resp = Ret j /\
    (upload = None <-> image_supplied image_bytes image_filename = None) /\
    match upload with
    | None => True
    | Some (bs, fname, r, file_id) =>
        image_supplied image_bytes image_filename = Some (bs, fname) /\
        checked r "id" json_id = Ret file_id
    end.
Proof.
  destruct (image_supplied image_bytes image_filename) as [[bs fname]|] eqn:Hs.
  - rewrite (send_message_run_image server _ _ _ _ _ bs fname w Hs).
    rewrite upload_file_run. cbv zeta.
    destruct (checked _ "id" json_id) as [fid|e|] eqn:Hc; try discriminate.
    unfold post_message. intros H. injection H as Hj <-.
    eexists (Some (bs, fname, _, fid)), _. simpl upload_events.
    rewrite extend_extend. refine (conj _ (conj _ (conj _ (conj _ _)))).
    + reflexivity.
    + exact Hj.
    + split; discriminate.
    + reflexivity.
    + exact Hc.
  - rewrite (send_message_run_plain server _ _ _ _ _ w Hs).
    unfold post_message. intros H. injection H as Hj <-.
    exists None. eexists. refine (conj _ (conj _ (conj _ _))).
    + reflexivity.
    + exact Hj.
    + split; reflexivity.
    + exact I.
Qed.

Lemma session_thread_id_run (t : string) (w : World) :
  thread_id w = Some t -> session_thread_id w = (Ret t, w).
Proof.
  intros Hw. unfold session_thread_id, get_thread_id, ret, bind.
  cbv beta iota. now rewrite Hw.
Qed.

Lemma submit_tail_returns (fuel : nat) (api_key prompt : string)
    (image_file : option UploadedFile) (t : string) (w w' : World) :
  thread_id w = Some t ->
  submit_tail server fuel api_key prompt image_file w = (Ret tt, w') ->
  exists cy listed,
    cy_thread cy = t /\ cy_created cy = None /\
    log w' = log w ++ tail_events api_key prompt cy /\
    thread_id w' = Some t /\
    coherent cy listed /\
    (cy_upload cy = None <->
     image_supplied (option_map read image_file) (option_map name image_file)
     = None) /\
    reconstruct_history listed = Ok (messages w').
Proof.
  intros Hw Hrun. unfold submit_tail in Hrun.
  apply bind_returns in Hrun. destruct Hrun as [t0 [w0 [H0 Hrun]]].
  rewrite (session_thread_id_run t w Hw) in H0. injection H0 as <- <-.
  apply bind_returns in Hrun. destruct Hrun as [j [w1 [Hsend Hrun]]].
  apply send_message_returns in Hsend.
  destruct Hsend as [upload [r_msg [Hw1 [Hj [Hnone Hup]]]]].
  assert (Ht1 : thread_id w1 = Some t) by (now rewrite Hw1).
  apply bind_returns in Hrun. destruct Hrun as [t1 [w1' [H1 Hrun]]].
  rewrite (session_thread_id_run t w1 Ht1) in H1. injection H1 as <- <-.
  apply bind_returns in Hrun. destruct Hrun as [run_id [w2 [Hcr Hrun]]].
  rewrite create_run_run in Hcr. cbv zeta in Hcr.
  set (r_run := server (log w1) (create_run_request t api_key ASSISTANT_ID)) in *.
  injection Hcr as Hrid Hw2.
  assert (Ht2 : thread_id w2 = Some t) by (now rewrite <- Hw2).
  apply bind_returns in Hrun. destruct Hrun as [t2 [w2' [H2 Hrun]]].
  rewrite (session_thread_id_run t w2 Ht2) in H2. injection H2 as <- <-.
  apply bind_returns in Hrun. destruct Hrun as [st [w3 [Hwait Hrun]]].
  apply wait_returns in Hwait.
  destruct Hwait as [Hterm [rs [rl [Hw3 [_ [Hall [Hlast _]]]]]]].
  assert (Ht3 : thread_id w3 = Some t) by (now rewrite Hw3).
  apply bind_returns in Hrun. destruct Hrun as [t3 [w3' [H3 Hrun]]].
  rewrite (session_thread_id_run t w3 Ht3) in H3. injection H3 as <- <-.
  apply bind_returns in Hrun. destruct Hrun as [listed [w4 [Hlist Hrun]]].
  rewrite list_messages_run in Hlist. cbv zeta in Hlist.
  set (r_list := server (log w3) (list_messages_request t api_key)) in *.
  injection Hlist as Hdata Hw4.
  apply bind_returns in Hrun. destruct Hrun as [h [w4' [Hh Hrun]]].
  destruct (reconstruct_history listed) as [h'|e] eqn:Hrec; [|discriminate Hh].
  injection Hh as <- <-. unfold put_messages in Hrun. injection Hrun as <-.
  exists {| cy_thread := t; cy_created := None; cy_upload := upload;
            cy_message := r_msg; cy_run := r_run; cy_run_id := run_id;
            cy_polls := rs; cy_last_poll := rl; cy_list := r_list |}, listed.
  unfold coherent, tail_events. simpl.
  repeat apply conj; try reflexivity; auto.
  - rewrite <- Hw4, Hw3, <- Hw2, Hw1. simpl. rewrite <- !app_assoc. reflexivity.
  - now rewrite <- Hw4.
  - destruct upload as [[[[bs fname] r] fid]|]; [apply Hup | exact I].
  - now exists j.
  - now exists st.
  - apply Hnone.
  - apply Hnone.
Qed.
End CycleCourse.

(** The course of a cycle that completes. *)
Lemma submit_returns
    (server : list Event -> Request -> Response)
    (fuel : nat) (api_key prompt : string) (image_file : option UploadedFile)
    (w w' : World) :
  prompt <> "" ->
  submit server fuel api_key prompt image_file w = (Ret tt, w') ->
  exists cy listed,
    events_since w w' = cycle_events api_key prompt cy /\
    thread_id w' = Some (cy_thread cy) /\
    coherent cy listed /\
    (cy_created cy = None <-> truthy (thread_id w) = true) /\
    (cy_created cy = None -> thread_id w = Some (cy_thread cy)) /\
    (cy_upload cy = None <->
     image_supplied (option_map read image_file) (option_map name image_file)
     = None) /\
    reconstruct_history listed = Ok (messages w').
Proof.
  intros Hp Hrun. destruct prompt as [|c prompt]; [contradiction|].
  destruct (shows image_file) eqn:Hs;
    [|destruct (submit_run_hidden server fuel api_key c prompt image_file w
                  Hs) as [e [_ He]];
      rewrite He in Hrun; discriminate Hrun].
  destruct (truthy (thread_id w)) eqn:Ht.
  - rewrite (submit_run_set server fuel api_key c prompt image_file w Hs Ht)
      in Hrun.
    destruct (proj1 (truthy_some _) Ht) as [t [Hw _]].
    destruct (submit_tail_returns server fuel api_key (String c prompt)
                image_file t (echo (String c prompt) w) w' Hw Hrun)
      as [cy [listed [Hcy [Hnone [Hlog [Hid [Hco [Hup Hh]]]]]]]].
    exists cy, listed. unfold cycle_events. rewrite Hnone, Hcy. simpl app.
    refine (conj _ (conj _ (conj _ (conj _ (conj _ (conj _ _)))))); auto.
    + apply (events_since_log w w'). exact Hlog.
    + split; auto.
  - rewrite (submit_run_unset server fuel api_key c prompt image_file w Hs Ht)
      in Hrun.
    rewrite create_thread_run in Hrun. cbv zeta in Hrun.
    change (log (echo (String c prompt) w)) with (log w) in Hrun.
    set (r := server (log w) (create_thread_request api_key)) in *.
    destruct (checked r "id" json_id) as [t|e|] eqn:Hc; try discriminate Hrun.
    match type of Hrun with
    | submit_tail _ _ _ _ _ ?w1 = _ =>
        destruct (submit_tail_returns server fuel api_key (String c prompt)
                    image_file t w1 w' eq_refl Hrun)
          as [[t' cr up rm rr rid ps lp rl] [listed H]]
    end.
    simpl in H. destruct H as [-> [-> [Hlog [Hid [Hco [Hup Hh]]]]]].
    exists {| cy_thread := t; cy_created := Some r; cy_upload := up;
              cy_message := rm; cy_run := rr; cy_run_id := rid;
              cy_polls := ps; cy_last_poll := lp; cy_list := rl |}, listed.
    unfold cycle_events. simpl.
    refine (conj _ (conj _ (conj _ (conj _ (conj _ (conj _ _)))))); auto.
    + apply (events_since_log w w'). rewrite Hlog. simpl.
      rewrite <- app_assoc. reflexivity.
    + unfold coherent in *. simpl in *. split; [exact Hc | apply Hco].
    + split; discriminate.
    + discriminate.
Qed.

(** X11. A submission cycle that completes has made its remote calls in one
    fixed order: the creation of the thread if, and only if, no non-empty id
    was stored; the upload if, and only if, an image was supplied; the
    message, whose blocks are the text block and the uploaded file if any;
    the run, for the fixed assistant; the polls of that run, each but the
    last followed by a sleep of 1; and the message list, all on the thread
    the session holds afterwards and with the ids the earlier answers gave.
    The new local history is [reconstruct_history] of the listed messages, so
    the echo of the prompt is replaced. *)
Theorem completed_cycle_course
    (server : list Event -> Request -> Response)
    (fuel : nat) (api_key prompt : string) (image_file : option UploadedFile)
    (w w' : World) :
  prompt <> "" ->
  submit server fuel api_key prompt image_file w = (Ret tt, w') ->
  exists cy listed,
    events_since w w' = cycle_events api_key prompt cy /\
    thread_id w' = Some (cy_thread cy) /\
    coherent cy listed /\
    (cy_created cy = None <-> truthy (thread_id w) = true) /\
    (cy_created cy = None -> thread_id w = Some (cy_thread cy)) /\
    (cy_upload cy = None <->
     image_supplied (option_map read image_file) (option_map name image_file)
     = None) /\
    reconstruct_history listed = Ok (messages w').
Proof.
  intros Hp Hrun.
  exact (submit_returns server fuel api_key prompt image_file w w' Hp Hrun).
Qed.

Lemma completed_cycle_course_witness :
  exists cy listed,
    events_since initial_world
      (snd (submit ok_server 1 "sk" "hello" None initial_world)) =
    cycle_events "sk" "hello" cy /\
    thread_id (snd (submit ok_server 1 "sk" "hello" None initial_world)) =
    Some (cy_thread cy) /\
    coherent cy listed /\
    (cy_created cy = None <-> truthy (thread_id initial_world) = true) /\
    (cy_created cy = None -> thread_id initial_world = Some (cy_thread cy)) /\
    (cy_upload cy = None <->
     image_supplied (option_map read None) (option_map name None) = None) /\
    reconstruct_history listed =
    Ok (messages (snd (submit ok_server 1 "sk" "hello" None initial_world))).
Proof.
  assert (Hp : "hello" <> "") by discriminate.
  exact (completed_cycle_course ok_server 1 "sk" "hello" None initial_world _
           Hp (surjective_pairing _)).
Defined.

Section History.
Variable server : list Event -> Request -> Response.

Lemma untouched_extend {A : Type} (c : M A) :
  (forall w, exists evs, snd (c w) = extend evs w) -> untouched c.
Proof. intros H w. destruct (H w) as [evs ->]. reflexivity. Qed.

Lemma untouched_disciplined {A : Type} (c : M A) : disciplined c -> untouched c.
Proof.
  intros H. apply untouched_extend. intros w.
  destruct (H w) as [evs [Hw _]]. now exists evs.
Qed.

Lemma untouched_bind {A B : Type} (c : M A) (k : A -> M B) :
  untouched c -> (forall a, untouched (k a)) -> untouched (bind c k).
Proof.
  intros Hc Hk w. unfold bind. specialize (Hc w).
  destruct (c w) as [[a|e|] w1]; simpl in *; [|exact Hc ..].
  now rewrite Hk.
Qed.

Lemma settles_bind {A B : Type} (c : M A) (k : A -> M B) :
  untouched c -> (forall a, settles (k a)) -> settles (bind c k).
Proof.
  intros Hc Hk w. unfold bind. specialize (Hc w).
  destruct (c w) as [[a|e|] w1]; simpl in *; [|now right ..].
  destruct (Hk a w1) as [H|H]; [now left | right; now rewrite H].
Qed.

Lemma untouched_session_thread_id : untouched session_thread_id.
Proof. intros w. reflexivity. Qed.

Lemma untouched_lift {A : Type} (r : Result A) : untouched (lift r).
Proof. intros w. now destruct r. Qed.

Lemma settles_submit_tail (fuel : nat) (api_key prompt : string)
    (image_file : option UploadedFile) :
  settles (submit_tail server fuel api_key prompt image_file).
Proof.
  unfold submit_tail.
  apply settles_bind; [apply untouched_session_thread_id | intros t].
  apply settles_bind;
    [apply untouched_disciplined, send_message_disciplined | intros _].
  apply settles_bind; [apply untouched_session_thread_id | intros t1].
  apply settles_bind;
    [apply untouched_disciplined, create_run_disciplined | intros run_id].
  apply settles_bind; [apply untouched_session_thread_id | intros t2].
  apply settles_bind; [apply untouched_disciplined, wait_disciplined | intros _].
  apply settles_bind; [apply untouched_session_thread_id | intros t3].
  apply settles_bind;
    [apply untouched_disciplined, list_messages_disciplined | intros listed].
  apply settles_bind; [apply untouched_lift | intros h].
  intros w. left. now exists tt.
Qed.
End History.

(** X12. A submission cycle that does not complete, whatever the step that
    failed, leaves the local history as it was with only the echo of the
    prompt appended as a user turn: the echo is not rolled back, and nothing
    else of the history changes. *)
Theorem failed_cycle_keeps_the_echo
    (server : list Event -> Request -> Response)
    (fuel : nat) (api_key prompt : string) (image_file : option UploadedFile)
    (w : World) :
  prompt <> "" ->
  fst (submit server fuel api_key prompt image_file w) <> Ret tt ->
  messages (snd (submit server fuel api_key prompt image_file w)) =
  messages w ++ [{| turn_role := "user"; turn_content := prompt |}].
Proof.
  intros Hp Hfail. destruct prompt as [|c prompt]; [contradiction|].
  destruct (shows image_file) eqn:Hs;
    [|destruct (submit_run_hidden server fuel api_key c prompt image_file w
                  Hs) as [e [_ ->]];
      reflexivity].
  destruct (truthy (thread_id w)) eqn:Ht.
  - rewrite (submit_run_set server fuel api_key c prompt image_file w Hs Ht)
      in *.
    destruct (settles_submit_tail server fuel api_key (String c prompt)
                image_file (echo (String c prompt) w)) as [[[] H]|H];
      [contradiction | exact H].
  - rewrite (submit_run_unset server fuel api_key c prompt image_file w Hs Ht)
      in *.
    rewrite create_thread_run in *. cbv zeta in *.
    destruct (checked _ "id" json_id) as [t|e|]; try reflexivity.
    match goal with
    | |- messages (snd (submit_tail _ _ _ _ _ ?w1)) = _ =>
        destruct (settles_submit_tail server fuel api_key (String c prompt)
                    image_file w1) as [[[] H]|H]
    end; [contradiction | exact H].
Qed.

Lemma failed_cycle_keeps_the_echo_witness :
  messages (snd (submit no_run_server 1 "sk" "and now?" None running_world)) =
  messages running_world ++
  [{| turn_role := "user"; turn_content := "and now?" |}].
Proof.
  assert (Hp : "and now?" <> "") by discriminate.
  refine (failed_cycle_keeps_the_echo no_run_server 1 "sk" "and now?" None
            running_world Hp _).
  discriminate.
Defined.

(** * Part VI: executions of the script *)

Lemma world_of_initialise (s : Session) (l : list Event) :
  world_of (initialise s) l = world_of s l.
Proof. reflexivity. Qed.

Lemma session_of_world_of (s : Session) (l : list Event) :
  session_of (world_of s l) = initialise s.
Proof. reflexivity. Qed.

Lemma world_of_session_of (w : World) : world_of (session_of w) (log w) = w.
Proof. now destruct w. Qed.

Lemma main_idle (server : list Event -> Request -> Response) (fuel : nat)
    (i : Inputs) (s : Session) (l : list Event) :
  submits i = false ->
  events (main server fuel i s l) = l /\
  (session (main server fuel i s l) = s \/
   session (main server fuel i s l) = initialise s) /\
  control (main server fuel i s l) <> Rerun /\
  (openai_api_key i <> "" ->
   session (main server fuel i s l) = initialise s /\
   control (main server fuel i s l) = Finished /\
   chat_messages (page (main server fuel i s l)) =
   map show_turn (messages (world_of s l))).
Proof.
  unfold submits, main. intros Hs.
  assert (Hchat : forall h, chat_messages (map show_turn h) = map show_turn h).
  { induction h as [|t h IH]; [reflexivity|].
    unfold chat_messages in *. simpl. now rewrite IH. }
  destruct (openai_api_key i) as [|c key].
  - refine (conj eq_refl (conj (or_introl eq_refl) (conj _ _)));
      [discriminate | intros Hk; now contradiction Hk].
  - assert (Hfin :
      let shown :=
        {| control := Finished;
           page := header ++
             [StInfo "Usando apenas a API do OpenAI Platform (Assistant/Threads)."]
             ++ map show_turn (messages (world_of s l));
           session := session_of (world_of s l);
           events := l |} in
      events shown = l /\
      (session shown = s \/ session shown = initialise s) /\
      control shown <> Rerun /\
      (String c key <> "" ->
       session shown = initialise s /\ control shown = Finished /\
       chat_messages (page shown) = map show_turn (messages (world_of s l)))).
    { cbv zeta. simpl. rewrite session_of_world_of.
      refine (conj eq_refl (conj (or_intror eq_refl) (conj _ _)));
        [discriminate|].
      intros _. refine (conj eq_refl (conj eq_refl _)). apply Hchat. }
    cbv zeta in *.
    destruct (submitted i); [destruct (chat_input i) as [|c' p]|];
      try discriminate Hs; exact Hfin.
Qed.

Lemma main_submitting (server : list Event -> Request -> Response) (fuel : nat)
    (i : Inputs) (s : Session) (l : list Event) :
  submits i = true ->
  let run := submit server fuel (openai_api_key i) (chat_input i)
               (image_input i) (world_of s l) in
  openai_api_key i <> "" /\ chat_input i <> "" /\ submitted i = true /\
  session (main server fuel i s l) = session_of (snd run) /\
  events (main server fuel i s l) = log (snd run) /\
  (control (main server fuel i s l) = Rerun <-> exists u, fst run = Ret u).
Proof.
  unfold submits, main. intros Hs. cbv zeta.
  destruct (openai_api_key i) as [|c key]; [discriminate Hs|].
  destruct (submitted i); [|discriminate Hs].
  destruct (chat_input i) as [|c' p]; [discriminate Hs|].
  cbv zeta. cbn [control session events].
  set (run := submit server fuel _ _ _ _).
  refine (conj _ (conj _ (conj eq_refl (conj eq_refl (conj eq_refl _)))));
    try discriminate.
  destruct (fst run) as [u|e|]; split; try discriminate.
  - intros _. now exists u.
  - reflexivity.
  - intros [u H]. discriminate H.
  - intros [u H]. discriminate H.
Qed.

(** X13. Only an execution in which the key is given, the form is submitted
    and the prompt is not empty reaches the service. Any sequence of
    executions without such a submission (missing key, reruns, empty
    prompts) sends nothing and keeps the stored history and thread id; it
    changes the session at most by setting the two missing keys to their
    defaults. *)
Theorem idle_executions_change_nothing
    (server : list Event -> Request -> Response) (fuel : nat)
    (inputs : list Inputs) (s : Session) (l : list Event) :
  Forall (fun i => submits i = false) inputs ->
  snd (executions server fuel inputs s l) = l /\
  (fst (executions server fuel inputs s l) = s \/
   fst (executions server fuel inputs s l) = initialise s) /\
  world_of (fst (executions server fuel inputs s l)) l = world_of s l.
Proof.
  intros Hall. revert s. induction Hall as [|i inputs Hi _ IH]; intros s.
  - simpl. auto.
  - cbn [executions]. cbv zeta.
    destruct (main_idle server fuel i s l Hi) as [He [Hs _]].
    rewrite He. destruct Hs as [-> | ->].
    + apply IH.
    + destruct (IH (initialise s)) as [H1 [H2 H3]].
      repeat apply conj; auto.
      destruct H2 as [-> | ->]; right; reflexivity.
Qed.

Lemma idle_executions_change_nothing_witness :
  snd (executions ok_server 1
         [ {| openai_api_key := EmptyString; chat_input := "hello";
              image_input := None; submitted := true |};
           {| openai_api_key := "sk"; chat_input := "hello";
              image_input := None; submitted := false |} ]
         {| state_messages := None; state_thread_id := None |} []) = [].
Proof.
  refine (proj1 (idle_executions_change_nothing ok_server 1 _ _ [] _)).
  repeat constructor.
Defined.

Lemma main_keeps_thread (server : list Event -> Request -> Response)
    (fuel : nat) (i : Inputs) (s : Session) (l : list Event) (t : string) :
  state_thread_id s = Some (Some t) -> t <> "" ->
  state_thread_id (session (main server fuel i s l)) = Some (Some t) /\
  exists evs,
    events (main server fuel i s l) = l ++ evs /\ Forall (on_thread t) evs.
Proof.
  intros Hs Ht. destruct (submits i) eqn:Hsub.
  - destruct (main_submitting server fuel i s l Hsub)
      as [_ [_ [_ [Hses [Hev _]]]]].
    rewrite Hses, Hev.
    assert (Hw : thread_id (world_of s l) = Some t)
      by (unfold world_of; simpl; now rewrite Hs).
    destruct (submit_keeps_thread server fuel (openai_api_key i) (chat_input i)
                (image_input i) t (world_of s l) Hw Ht) as [evs [Hl [Hid Hon]]].
    split; [simpl; now rewrite Hid | exists evs; auto].
  - destruct (main_idle server fuel i s l Hsub) as [He [Hses _]].
    rewrite He. split.
    + destruct Hses as [-> | ->]; [exact Hs | simpl; now rewrite Hs].
    + exists []. now rewrite app_nil_r.
Qed.

(** X14. Once the session holds a non-empty thread id, no sequence of
    executions of the script, whatever the inputs and the answers of the
    service, changes it or creates another thread: the session ends with the
    same id, and every request made meanwhile is made on behalf of that
    thread. *)
Theorem executions_keep_the_thread
    (server : list Event -> Request -> Response) (fuel : nat)
    (inputs : list Inputs) (s : Session) (l : list Event) (t : string) :
  state_thread_id s = Some (Some t) -> t <> "" ->
  state_thread_id (fst (executions server fuel inputs s l)) = Some (Some t) /\
  exists evs,
    snd (executions server fuel inputs s l) = l ++ evs /\
    Forall (on_thread t) evs /\
    filter is_create_thread_call evs = [].
Proof.
  intros Hs Ht. revert s l Hs.
  induction inputs as [|i inputs IH]; intros s l Hs.
  - simpl. split; [exact Hs|]. exists []. now rewrite app_nil_r.
  - cbn [executions]. cbv zeta.
    destruct (main_keeps_thread server fuel i s l t Hs Ht)
      as [Hs1 [evs1 [He1 Hon1]]].
    destruct (IH _ (events (main server fuel i s l)) Hs1)
      as [Hs2 [evs2 [He2 [Hon2 _]]]].
    split; [exact Hs2|]. exists (evs1 ++ evs2).
    assert (Hon : Forall (on_thread t) (evs1 ++ evs2)) by now apply Forall_app.
    repeat apply conj; [|exact Hon | now apply (on_thread_filter t)].
    now rewrite He2, He1, app_assoc.
Qed.

Lemma executions_keep_the_thread_witness :
  state_thread_id
    (fst (executions ok_server 1
            [ {| openai_api_key := "sk"; chat_input := "hello";
                 image_input := None; submitted := true |} ]
            (session_of running_world) [])) = Some (Some "thread_1").
Proof.
  assert (Ht : "thread_1" <> "") by discriminate.
  exact (proj1 (executions_keep_the_thread ok_server 1 _
                  (session_of running_world) [] "thread_1" eq_refl Ht)).
Defined.

Lemma chat_messages_app (p q : list Element) :
  chat_messages (p ++ q) = chat_messages p ++ chat_messages q.
Proof. apply filter_app. Qed.

Lemma chat_messages_show (h : list Turn) :
  chat_messages (map show_turn h) = map show_turn h.
Proof.
  induction h as [|t h IH]; [reflexivity|].
  unfold chat_messages in *. simpl. now rewrite IH.
Qed.

Lemma main_page_history (server : list Event -> Request -> Response)
    (fuel : nat) (i : Inputs) (s : Session) (l : list Event) :
  openai_api_key i <> "" ->
  exists rest,
    chat_messages (page (main server fuel i s l)) =
    map show_turn (messages (world_of s l)) ++ rest /\
    (submits i = false -> rest = []).
Proof.
  intros Hk. destruct (submits i) eqn:Hs.
  - unfold submits in Hs. unfold main.
    destruct (openai_api_key i) as [|c key]; [discriminate Hs|].
    destruct (submitted i); [|discriminate Hs].
    destruct (chat_input i) as [|c' p]; [discriminate Hs|].
    cbv zeta. cbn [page].
    rewrite !chat_messages_app, chat_messages_show.
    eexists. split; [reflexivity | discriminate].
  - destruct (main_idle server fuel i s l Hs) as [_ [_ [_ H]]].
    destruct (H Hk) as [_ [_ Hpage]].
    exists []. now rewrite app_nil_r.
Qed.

(** X15. An execution that ends in [st.rerun()] has completed its cycle: its
    events are those of a completed cycle, the history it stored is
    [reconstruct_history] of the messages the service listed, and the next
    execution with a key shows exactly the turns of that history, in order,
    before anything else it adds to the chat. *)
Theorem rerun_shows_the_listed_history
    (server : list Event -> Request -> Response) (fuel : nat)
    (i : Inputs) (s : Session) (l : list Event) :
  control (main server fuel i s l) = Rerun ->
  exists cy listed h,
    events (main server fuel i s l) =
    l ++ cycle_events (openai_api_key i) (chat_input i) cy /\
    coherent cy listed /\
    reconstruct_history listed = Ok h /\
    state_messages (session (main server fuel i s l)) = Some h /\
    forall fuel' i', openai_api_key i' <> "" ->
      exists rest,
        chat_messages
          (page (main server fuel' i' (session (main server fuel i s l))
                   (events (main server fuel i s l)))) =
        map show_turn h ++ rest /\
        (submits i' = false -> rest = []).
Proof.
  intros Hc. destruct (submits i) eqn:Hs.
  - destruct (main_submitting server fuel i s l Hs)
      as [_ [Hp [_ [Hses [Hev [Hre _]]]]]].
    destruct (Hre Hc) as [[] Hret].
    set (run := submit server fuel (openai_api_key i) (chat_input i)
                  (image_input i) (world_of s l)) in *.
    assert (Hrun : run = (Ret tt, snd run))
      by (rewrite <- Hret; apply surjective_pairing).
    destruct (submit_returns server fuel _ _ _ _ _ Hp Hrun)
      as [cy [listed [Hevs [_ [Hco [_ [_ [_ Hh]]]]]]]].
    exists cy, listed, (messages (snd run)).
    rewrite Hses, Hev. refine (conj _ (conj Hco (conj Hh (conj eq_refl _)))).
    + unfold events_since in Hevs. simpl in Hevs.
      rewrite <- Hevs.
      destruct (always_submit server (fun _ => True) (fun _ => I) (fun _ => I)
                  fuel (openai_api_key i) (chat_input i) (image_input i)
                  (fun _ _ _ _ => I) (world_of s l)) as [evs [Hl _]].
      fold run in Hl. simpl in Hl. rewrite Hl. now rewrite skipn_length_app.
    + intros fuel' i' Hk.
      destruct (main_page_history server fuel' i' (session_of (snd run))
                  (log (snd run)) Hk) as [rest [Hpage Hidle]].
      rewrite world_of_session_of in Hpage. now exists rest.
  - destruct (main_idle server fuel i s l Hs) as [_ [_ [Hno _]]].
    contradiction.
Qed.

Lemma rerun_shows_the_listed_history_witness :
  exists cy listed h,
    events (main ok_server 1
              {| openai_api_key := "sk"; chat_input := "hello";
                 image_input := None; submitted := true |}
              {| state_messages := None; state_thread_id := None |} []) =
    [] ++ cycle_events "sk" "hello" cy /\
    coherent cy listed /\
    reconstruct_history listed = Ok h /\
    state_messages
      (session (main ok_server 1
                  {| openai_api_key := "sk"; chat_input := "hello";
                     image_input := None; submitted := true |}
                  {| state_messages := None; state_thread_id := None |} []))
    = Some h /\
    forall fuel' i', openai_api_key i' <> "" ->
      exists rest,
        chat_messages
          (page (main ok_server fuel' i'
                   (session (main ok_server 1
                               {| openai_api_key := "sk"; chat_input := "hello";
                                  image_input := None; submitted := true |}
                               {| state_messages := None;
                                  state_thread_id := None |} []))
                   (events (main ok_server 1
                              {| openai_api_key := "sk"; chat_input := "hello";
                                 image_input := None; submitted := true |}
                              {| state_messages := None;
                                 state_thread_id := None |} [])))) =
        map show_turn h ++ rest /\
        (submits i' = false -> rest = []).
Proof.
  exact (rerun_shows_the_listed_history ok_server 1
           {| openai_api_key := "sk"; chat_input := "hello";
              image_input := None; submitted := true |}
           {| state_messages := None; state_thread_id := None |} [] eq_refl).
Defined.

Lemma st_image_error_content (image : UploadedFile) :
  read image = [] -> st_image_error image = Some UnidentifiedImageError.
Proof. unfold st_image_error. now intros ->. Qed.

(** X16. An upload that [st.image] cannot show, as is always the case for a
    file without content, in which no image is identified, ends the
    execution at line 178 with the error of [st.image]: the prompt has
    already been appended to the history and written to the page, but the
    image is not shown, the chat message of the assistant is never opened,
    no request is sent, and the thread id is as it was, so no thread is
    created for such a submission. An upload that can be shown is shown
    next to the prompt, and the chat message of the assistant follows. *)
Theorem undisplayable_upload_ends_the_execution
    (server : list Event -> Request -> Response) (fuel : nat)
    (i : Inputs) (s : Session) (l : list Event) (f : UploadedFile) :
  submits i = true ->
  image_input i = Some f ->
  let shown := main server fuel i s l in
  let w := world_of s l in
  let top :=
    header ++
    [StInfo "Usando apenas a API do OpenAI Platform (Assistant/Threads)."] ++
    map show_turn (messages w) in
  (read f = [] -> st_image_error f = Some UnidentifiedImageError) /\
  (forall e, st_image_error f = Some e ->
   control shown = Crashed e /\
   events shown = l /\
   state_thread_id (session shown) = Some (thread_id w) /\
   state_messages (session shown) =
   Some (messages w ++
         [{| turn_role := "user"; turn_content := chat_input i |}]) /\
   page shown =
   top ++ [StChatMessage "user" sunglasses [StMarkdown (chat_input i)]]) /\
  (st_image_error f = None ->
   page shown =
   top ++ [StChatMessage "user" sunglasses
             [StMarkdown (chat_input i); StImage f];
           StChatMessage "assistant" robot
             [StSpinner ":green[processando...]"]]).
Proof.
  intros Hs Hf. cbv zeta.
  refine (conj (st_image_error_content f) _).
  unfold submits in Hs. unfold main.
  destruct (openai_api_key i) as [|c key]; [discriminate Hs|].
  destruct (submitted i); [|discriminate Hs].
  destruct (chat_input i) as [|c' p]; [discriminate Hs|].
  cbv zeta. cbn [control page session events]. rewrite Hf.
  unfold shows, displayable. cbn [display_error].
  split.
  - intros e Hd. rewrite Hd.
    rewrite (submit_run_display_error server fuel (String c key) c' p (Some f)
               (world_of s l) e Hd).
    repeat apply conj; reflexivity.
  - intros Hd. rewrite Hd. reflexivity.
Qed.

Lemma undisplayable_upload_ends_the_execution_witness :
  control (main ok_server 1
             {| openai_api_key := "sk"; chat_input := "look";
                image_input := Some empty_file; submitted := true |}
             (session_of running_world) []) =
  Crashed UnidentifiedImageError /\
  events (main ok_server 1
            {| openai_api_key := "sk"; chat_input := "look";
               image_input := Some empty_file; submitted := true |}
            (session_of running_world) []) = [].
Proof.
  pose proof (undisplayable_upload_ends_the_execution ok_server 1
                {| openai_api_key := "sk"; chat_input := "look";
                   image_input := Some empty_file; submitted := true |}
                (session_of running_world) [] empty_file eq_refl eq_refl)
    as H.
  cbv zeta in H.
  exact (conj (proj1 (proj1 (proj2 H) UnidentifiedImageError eq_refl))
              (proj1 (proj2 (proj1 (proj2 H) UnidentifiedImageError
                               eq_refl)))).
Defined.
